(** * Car-Speed-tracker: the frame buffer, the progress counter, the
      single-target speed detector and the multi-vehicle tracker.

    The Python sources are [video_processor.py], [detector.py] and
    [tracker.py].  Python integers are modelled by [Z], Python and numpy
    floating-point numbers by the real numbers [R] (rounding, infinities
    and NaN are left out), [None] by [option], and an exception by the
    [Raise] constructor of [result].  What OpenCV computes from the pixels
    of a frame (the contours of a frame, their areas and bounding
    rectangles) is an input of the model.

    Where the rounding of a floating-point operation decides a property,
    the arithmetic of [detector.py] is evaluated a second time, on the
    binary64 numbers of the kernel ([Binary64]). *)

From Stdlib Require Import String DecimalString DecimalNat.
From Stdlib Require Import List ZArith Reals Lra Lia Bool Sorting Permutation.
From Stdlib Require PrimFloat FloatOps SpecFloat Uint63.
Import ListNotations.

(** ** Exceptions *)

Inductive exn : Type :=
| TypeError
| ZeroDivisionError
| IndexError
| KeyError.

Inductive result (A : Type) : Type :=
| Ok (a : A)
| Raise (e : exn).

Arguments Ok {A} a.
Arguments Raise {A} e.

(** ** video_processor.py: [FrameBuffer] *)

Module FrameBuffer.
Section Buffer.

Variable Frame : Type.

(** [buffer] is the content of the [queue.Queue], oldest frame first;
    [maxsize] is the [maxsize] the queue was built with. *)
Record t : Type := mk {
  maxsize : Z;
  buffer : list Frame;
  stop_event : bool;
  processing_done : bool
}.

Definition init (max_size : Z) : t :=
  {| maxsize := max_size; buffer := [];
     stop_event := false; processing_done := false |}.

Definition qsize (fb : t) : Z := Z.of_nat (length (buffer fb)).

(** [Queue.put(item, block=False)] raises [queue.Full] when
    [maxsize > 0] and [qsize() >= maxsize]. *)
Definition queue_full (fb : t) : bool :=
  (0 <? maxsize fb)%Z && (maxsize fb <=? qsize fb)%Z.

(** [put]: the bare [except] turns [queue.Full] into [False]. *)
Definition put (fb : t) (frame : Frame) : t * bool :=
  if queue_full fb then (fb, false)
  else ({| maxsize := maxsize fb; buffer := buffer fb ++ [frame];
           stop_event := stop_event fb;
           processing_done := processing_done fb |}, true).

(** [get]: the bare [except] turns [queue.Empty] into [None]. *)
Definition get (fb : t) : t * option Frame :=
  match buffer fb with
  | [] => (fb, None)
  | frame :: rest =>
      ({| maxsize := maxsize fb; buffer := rest;
          stop_event := stop_event fb;
          processing_done := processing_done fb |}, Some frame)
  end.

Definition clear (fb : t) : t :=
  {| maxsize := maxsize fb; buffer := [];
     stop_event := stop_event fb; processing_done := processing_done fb |}.

Definition stop (fb : t) : t :=
  {| maxsize := maxsize fb; buffer := buffer fb;
     stop_event := true; processing_done := processing_done fb |}.

Definition should_stop (fb : t) : bool := stop_event fb.

(** The calls a producer and a consumer issue.  The queue takes its
    mutex around each of them, so a run of the two threads is one
    sequence of calls. *)
Inductive call : Type :=
| CPut (frame : Frame)
| CGet
| CClear
| CStop.

Definition step (fb : t) (c : call) : t :=
  match c with
  | CPut frame => fst (put fb frame)
  | CGet => fst (get fb)
  | CClear => clear fb
  | CStop => stop fb
  end.

Definition run (fb : t) (calls : list call) : t := fold_left step calls fb.

End Buffer.

Arguments maxsize {Frame} _.
Arguments buffer {Frame} _.
Arguments stop_event {Frame} _.
Arguments processing_done {Frame} _.
Arguments qsize {Frame} fb.
Arguments queue_full {Frame} fb.
Arguments put {Frame} fb frame.
Arguments get {Frame} fb.
Arguments clear {Frame} fb.
Arguments stop {Frame} fb.
Arguments should_stop {Frame} fb.
Arguments CPut {Frame} frame.
Arguments CGet {Frame}.
Arguments CClear {Frame}.
Arguments CStop {Frame}.
Arguments step {Frame} fb c.
Arguments run {Frame} fb calls.

End FrameBuffer.

(** ** video_processor.py: [VideoProcessor.progress] *)

Module VideoProcessor.

Record t : Type := mk {
  frame_skip : Z;
  current_frame_no : Z;
  total_frames : Z
}.

(** [__init__]: [current_frame_no = 0], [total_frames = 0]. *)
Definition init (frame_skip : Z) : t :=
  {| frame_skip := frame_skip; current_frame_no := 0; total_frames := 0 |}.

(** [open_video]: [total_frames] is the frame count the container
    announces ([int(cap.get(cv2.CAP_PROP_FRAME_COUNT))]) and the frame
    counter starts again at zero. *)
Definition open_video (vp : t) (frame_count : Z) : t :=
  {| frame_skip := frame_skip vp; current_frame_no := 0;
     total_frames := frame_count |}.

(** [process_next_frame]: [ret] is the flag of [cap.read()]; a frame that
    was read advances the counter, a failed read returns [False]. *)
Definition process_next_frame (vp : t) (ret : bool) : t * bool :=
  if ret
  then ({| frame_skip := frame_skip vp;
           current_frame_no := current_frame_no vp + 1;
           total_frames := total_frames vp |}, true)
  else (vp, false).

(** [(self.current_frame_no / self.total_frames) * 100
     if self.total_frames > 0 else 0] *)
Definition progress (vp : t) : R :=
  if (total_frames vp >? 0)%Z
  then (IZR (current_frame_no vp) / IZR (total_frames vp) * 100)%R
  else 0%R.

End VideoProcessor.

(** ** detector.py: [VehicleSpeedDetector] *)

Module Detector.

Local Open Scope R_scope.

(** A contour as the detector uses it: [cv2.contourArea] and
    [cv2.boundingRect], the rectangle being [(x, y, w, h)]. *)
Record contour : Type := mk_contour {
  contourArea : R;
  boundingRect : Z * Z * Z * Z
}.

(** A frame as the detector uses it: [frame.shape[:2]] and the contours
    [cv2.findContours] returns for it after background subtraction. *)
Record frame : Type := mk_frame {
  shape_h : Z;
  shape_w : Z;
  found_contours : list contour
}.

Definition point : Type := (Z * Z)%type.

Record t : Type := mk {
  known_distance_m : R;
  prev_centers : list point;
  prev_speeds : list R;
  scale_m_per_px : option R;
  fps : option R;
  show_speed : bool;
  object_selected : bool;
  selected_box : option point;
  speed_window : Z;
  max_speed_change : R;
  frame_size : option (Z * Z);
  min_contour_area : R;
  prev_center : option point
}.

(** [__init__] *)
Definition init (known_distance : R) : t :=
  {| known_distance_m := known_distance;
     prev_centers := [];
     prev_speeds := [];
     scale_m_per_px := None;
     fps := None;
     show_speed := true;
     object_selected := false;
     selected_box := None;
     speed_window := 5;
     max_speed_change := 10;
     frame_size := None;
     min_contour_area := 500;
     prev_center := None |}.

(** [np.radians] *)
Definition radians (deg : R) : R := deg * PI / 180.

(** [set_video_info]: [viewing_distance] is computed and never used. *)
Definition set_video_info (s : t) (frame_width : Z) (fps' : R) : t :=
  {| known_distance_m := known_distance_m s;
     prev_centers := prev_centers s;
     prev_speeds := prev_speeds s;
     scale_m_per_px :=
       Some (known_distance_m s / (IZR frame_width * cos (radians 30)));
     fps := Some fps';
     show_speed := show_speed s;
     object_selected := object_selected s;
     selected_box := selected_box s;
     speed_window := speed_window s;
     max_speed_change := max_speed_change s;
     frame_size := frame_size s;
     min_contour_area := min_contour_area s;
     prev_center := prev_center s |}.

(** [cv2.EVENT_LBUTTONDOWN] *)
Definition EVENT_LBUTTONDOWN : Z := 1.

Definition select_object (s : t) (event x y : Z) : t :=
  if (event =? EVENT_LBUTTONDOWN)%Z then
    {| known_distance_m := known_distance_m s;
       prev_centers := prev_centers s;
       prev_speeds := prev_speeds s;
       scale_m_per_px := scale_m_per_px s;
       fps := fps s;
       show_speed := show_speed s;
       object_selected := true;
       selected_box := Some (x, y);
       speed_window := speed_window s;
       max_speed_change := max_speed_change s;
       frame_size := frame_size s;
       min_contour_area := min_contour_area s;
       prev_center := prev_center s |}
  else s.

(** [VideoProcessor.toggle_speed_display] assigns [show_speed]. *)
Definition set_show_speed (s : t) (show : bool) : t :=
  {| known_distance_m := known_distance_m s;
     prev_centers := prev_centers s;
     prev_speeds := prev_speeds s;
     scale_m_per_px := scale_m_per_px s;
     fps := fps s;
     show_speed := show;
     object_selected := object_selected s;
     selected_box := selected_box s;
     speed_window := speed_window s;
     max_speed_change := max_speed_change s;
     frame_size := frame_size s;
     min_contour_area := min_contour_area s;
     prev_center := prev_center s |}.

(** The assignments of [process_frame] to the detector's attributes. *)
Definition with_frame_size (s : t) (fs : option (Z * Z)) : t :=
  {| known_distance_m := known_distance_m s;
     prev_centers := prev_centers s;
     prev_speeds := prev_speeds s;
     scale_m_per_px := scale_m_per_px s;
     fps := fps s;
     show_speed := show_speed s;
     object_selected := object_selected s;
     selected_box := selected_box s;
     speed_window := speed_window s;
     max_speed_change := max_speed_change s;
     frame_size := fs;
     min_contour_area := min_contour_area s;
     prev_center := prev_center s |}.

Definition with_prev_centers (s : t) (cs : list point) : t :=
  {| known_distance_m := known_distance_m s;
     prev_centers := cs;
     prev_speeds := prev_speeds s;
     scale_m_per_px := scale_m_per_px s;
     fps := fps s;
     show_speed := show_speed s;
     object_selected := object_selected s;
     selected_box := selected_box s;
     speed_window := speed_window s;
     max_speed_change := max_speed_change s;
     frame_size := frame_size s;
     min_contour_area := min_contour_area s;
     prev_center := prev_center s |}.

Definition with_prev_speeds (s : t) (vs : list R) : t :=
  {| known_distance_m := known_distance_m s;
     prev_centers := prev_centers s;
     prev_speeds := vs;
     scale_m_per_px := scale_m_per_px s;
     fps := fps s;
     show_speed := show_speed s;
     object_selected := object_selected s;
     selected_box := selected_box s;
     speed_window := speed_window s;
     max_speed_change := max_speed_change s;
     frame_size := frame_size s;
     min_contour_area := min_contour_area s;
     prev_center := prev_center s |}.

Definition with_prev_center (s : t) (c : point) : t :=
  {| known_distance_m := known_distance_m s;
     prev_centers := prev_centers s;
     prev_speeds := prev_speeds s;
     scale_m_per_px := scale_m_per_px s;
     fps := fps s;
     show_speed := show_speed s;
     object_selected := object_selected s;
     selected_box := selected_box s;
     speed_window := speed_window s;
     max_speed_change := max_speed_change s;
     frame_size := frame_size s;
     min_contour_area := min_contour_area s;
     prev_center := Some c |}.

(** *** Lists as Python uses them *)

(** [l[-1]] of a non-empty list. *)
Fixpoint last_opt {A : Type} (l : list A) : option A :=
  match l with
  | [] => None
  | [x] => Some x
  | _ :: l' => last_opt l'
  end.

(** [l.append(x)] followed by [if len(l) > window: l.pop(0)]. *)
Definition push_window {A : Type} (l : list A) (x : A) (window : Z)
  : list A :=
  let l' := l ++ [x] in
  if (Z.of_nat (length l') >? window)%Z then tl l' else l'.

Definition Rsum (l : list R) : R := fold_right Rplus 0 l.

(** *** Choosing the contour *)

(** [sorted(contours, key=cv2.contourArea, reverse=True)]: a stable
    sort, largest area first; contours of equal area keep their order. *)
Fixpoint insert_by_area (c : contour) (l : list contour) : list contour :=
  match l with
  | [] => [c]
  | d :: l' =>
      if Rlt_dec (contourArea c) (contourArea d)
      then d :: insert_by_area c l'
      else c :: d :: l'
  end.

Definition sorted_by_area (l : list contour) : list contour :=
  fold_right insert_by_area [] l.

(** [(x + w // 2, y + h // 2)] *)
Definition center_of (r : Z * Z * Z * Z) : point :=
  let '(x, y, w, h) := r in ((x + w / 2)%Z, (y + h / 2)%Z).

(** The candidate kept by the loop: [(x, y, w, h, center)]. *)
Definition candidate : Type := (Z * Z * Z * Z * point)%type.

(** The loop variables [closest_contour] and [min_dist]; [None] as
    [min_dist] is [float("inf")]. *)
Definition scan_state : Type := (option candidate * option Z)%type.

(** One iteration of the loop over the contours.  The rectangles drawn
    for an unselected detector are not part of the model. *)
Definition scan_contour (s : t) (st : scan_state) (c : contour)
  : result scan_state :=
  if Rgt_dec (contourArea c) (min_contour_area s) then
    if object_selected s then
      match selected_box s with
      | None => Raise TypeError
      | Some (sel_x, sel_y) =>
          let ctr := center_of (boundingRect c) in
          let dist := (Z.abs (fst ctr - sel_x) + Z.abs (snd ctr - sel_y))%Z in
          let closer :=
            match snd st with
            | None => true
            | Some min_dist => (dist <? min_dist)%Z
            end in
          if closer then Ok (Some (boundingRect c, ctr), Some dist)
          else Ok st
      end
    else Ok st
  else Ok st.

Fixpoint scan_contours (s : t) (st : scan_state) (l : list contour)
  : result scan_state :=
  match l with
  | [] => Ok st
  | c :: l' =>
      match scan_contour s st c with
      | Ok st' => scan_contours s st' l'
      | Raise e => Raise e
      end
  end.

(** [closest_contour] after the loop over the five largest contours. *)
Definition closest_contour (s : t) (f : frame) : result (option candidate) :=
  match scan_contours s (None, None)
          (firstn 5 (sorted_by_area (found_contours f))) with
  | Ok st => Ok (fst st)
  | Raise e => Raise e
  end.

(** *** Speed of one pair of centers *)

(** [1.0 + (curr[1] / frame.shape[0]) * 0.5] *)
Definition perspective_factor (center_y frame_height : Z) : R :=
  1 + (IZR center_y / IZR frame_height) * (5 / 10).

(** [np.linalg.norm(curr - prev)] *)
Definition pixel_distance (prev curr : point) : R :=
  sqrt (IZR ((fst curr - fst prev) * (fst curr - fst prev)
             + (snd curr - snd prev) * (snd curr - snd prev))).

(** The body of the loop over consecutive centers.  A detector without
    [scale_m_per_px] or [fps] multiplies or divides by [None]; [1 / fps]
    with [fps = 0.0] divides by zero. *)
Definition pair_speed (s : t) (frame_height : Z) (prev curr : point)
  : result R :=
  let factor := perspective_factor (snd curr) frame_height in
  let distance := pixel_distance prev curr in
  match scale_m_per_px s with
  | None => Raise TypeError
  | Some scale =>
      let distance_m := distance * scale * factor in
      match fps s with
      | None => Raise TypeError
      | Some rate =>
          if Req_dec_T rate 0 then Raise ZeroDivisionError
          else
            let time_s := 1 / rate in
            let speed_mps := distance_m / time_s in
            Ok (speed_mps * (36 / 10))
      end
  end.

(** [for i in range(1, len(prev_centers))], [prev] being
    [prev_centers[i-1]] and [rest] the centers from index [i] on. *)
Fixpoint pair_speeds (s : t) (frame_height : Z) (prev : point)
  (rest : list point) : result (list R) :=
  match rest with
  | [] => Ok []
  | curr :: rest' =>
      match pair_speed s frame_height prev curr with
      | Raise e => Raise e
      | Ok v =>
          match pair_speeds s frame_height curr rest' with
          | Raise e => Raise e
          | Ok vs => Ok (v :: vs)
          end
      end
  end.

Definition all_pair_speeds (s : t) (frame_height : Z) (centers : list point)
  : result (list R) :=
  match centers with
  | [] => Ok []
  | c :: rest => pair_speeds s frame_height c rest
  end.

(** [np.linspace(start, stop, num)] *)
Definition linspace (start stop : R) (num : nat) : list R :=
  match num with
  | O => []
  | S O => [start]
  | S (S _) =>
      map (fun i => start + INR i * ((stop - start) / INR (num - 1)))
          (seq 0 num)
  end.

(** [np.average(values, weights=weights)] *)
Definition average (values weights : list R) : R :=
  Rsum (map (fun vw => fst vw * snd vw) (combine values weights))
  / Rsum weights.

Definition weighted_speed (speeds : list R) : R :=
  average speeds (linspace (5 / 10) 1 (length speeds)).

(** *** Rate limiting and the median *)

(** [np.sign] *)
Definition sign (x : R) : R :=
  if Rlt_dec x 0 then -1 else if Rlt_dec 0 x then 1 else 0.

(** The block under [if self.prev_speeds:]. *)
Definition rate_limit (history : list R) (max_change speed_kmh : R) : R :=
  match last_opt history with
  | None => speed_kmh
  | Some prev_speed =>
      if Rgt_dec (Rabs (speed_kmh - prev_speed)) max_change
      then prev_speed + max_change * sign (speed_kmh - prev_speed)
      else speed_kmh
  end.

Fixpoint insert_asc (x : R) (l : list R) : list R :=
  match l with
  | [] => [x]
  | y :: l' => if Rle_dec x y then x :: y :: l' else y :: insert_asc x l'
  end.

Definition sort_asc (l : list R) : list R := fold_right insert_asc [] l.

(** [np.median]: the middle of the sorted values, the mean of the two
    middle ones for an even count; [None] is the [nan] numpy returns for
    no value at all. *)
Definition median (l : list R) : option R :=
  let sorted := sort_asc l in
  let n := length sorted in
  match n with
  | O => None
  | _ =>
      if Nat.even n
      then Some ((nth (n / 2 - 1) sorted 0 + nth (n / 2) sorted 0) / 2)
      else Some (nth (n / 2) sorted 0)
  end.

(** *** [process_frame] *)

(** What is written on the frame about the speed: nothing, or the label
    showing [display_speed]. *)
Inductive label : Type :=
| NoLabel
| SpeedLabel (display_speed : option R).

(** The first lines: the size to work at is fixed by the first frame
    wider than 1280 pixels. *)
Definition cache_frame_size (s : t) (f : frame) : t :=
  match frame_size s with
  | Some _ => s
  | None =>
      if (shape_w f >? 1280)%Z
      then with_frame_size s
             (Some (1280%Z,
                    Int_part (IZR (shape_h f) * (1280 / IZR (shape_w f)))))
      else s
  end.

(** [process_frame] returns the detector after the call and either the
    exception raised or the pair of the annotation and [speed_kmh]. *)
Definition process_frame (s : t) (f : frame)
  : t * result (label * option R) :=
  let s1 := cache_frame_size s f in
  match closest_contour s1 f with
  | Raise e => (s1, Raise e)
  | Ok closest =>
      match object_selected s1, closest with
      | true, Some (_, center) =>
          let centers :=
            push_window (prev_centers s1) center (speed_window s1) in
          let s2 := with_prev_centers s1 centers in
          if (Z.of_nat (length centers) >? 1)%Z then
            match all_pair_speeds s2 (shape_h f) centers with
            | Raise e => (s2, Raise e)
            | Ok speeds =>
                let speed_kmh :=
                  rate_limit (prev_speeds s2) (max_speed_change s2)
                             (weighted_speed speeds) in
                let history :=
                  push_window (prev_speeds s2) speed_kmh (speed_window s2) in
                let display_speed := median history in
                let s3 := with_prev_center
                            (with_prev_speeds s2 history) center in
                (s3, Ok ((if show_speed s3
                          then SpeedLabel display_speed
                          else NoLabel), Some speed_kmh))
            end
          else (with_prev_center s2 center, Ok (NoLabel, None))
      | _, _ => (s1, Ok (NoLabel, None))
      end
  end.

(** The calls made on a detector. *)
Inductive call : Type :=
| SetVideoInfo (frame_width : Z) (fps' : R)
| SelectObject (event x y : Z)
| SetShowSpeed (show : bool)
| ProcessFrame (f : frame).

Definition step (s : t) (c : call) : t :=
  match c with
  | SetVideoInfo w r => set_video_info s w r
  | SelectObject e x y => select_object s e x y
  | SetShowSpeed b => set_show_speed s b
  | ProcessFrame f => fst (process_frame s f)
  end.

Definition run (s : t) (calls : list call) : t := fold_left step calls s.

End Detector.

(** ** detector.py in binary64: pair speeds and rate limiting *)

Module Binary64.

Import PrimFloat.
Local Open Scope float_scope.

(** [float(n)] for a Python integer [n] with [abs(n) < 2 ** 63]. *)
Definition of_int (n : Z) : float :=
  match n with
  | Z0 => 0
  | Zpos _ => of_uint63 (Uint63.of_Z n)
  | Zneg p => - of_uint63 (Uint63.of_Z (Zpos p))
  end.

(** [np.cos(np.radians(30))]: [np.radians(30)] is the binary64 number
    [0.5235987755982988] and its cosine rounds to
    [0.8660254037844387]. *)
Definition cos_tilt : float := 0x1.bb67ae8584cabp-1.

(** [self.known_distance_m / (frame_width * np.cos(np.radians(30)))] *)
Definition scale_m_per_px (known_distance_m : float) (frame_width : Z)
  : float :=
  known_distance_m / (of_int frame_width * cos_tilt).

(** [1.0 + (curr[1] / frame.shape[0]) * 0.5] *)
Definition perspective_factor (center_y frame_height : Z) : float :=
  1 + (of_int center_y / of_int frame_height) * 0.5.

(** [np.linalg.norm(curr - prev)]: [curr - prev] is an array of two
    integers, its norm the square root of the sum of their squares. *)
Definition pixel_distance (prev curr : Detector.point) : float :=
  sqrt (of_int ((fst curr - fst prev) * (fst curr - fst prev)
                + (snd curr - snd prev) * (snd curr - snd prev))).

(** The body of the loop over consecutive centers for a detector with a
    scale and a frame rate that is not zero; [3.6] is the binary64 number
    [0x1.ccccccccccccdp+1]. *)
Definition pair_speed (scale fps : float) (frame_height : Z)
  (prev curr : Detector.point) : float :=
  let factor := perspective_factor (snd curr) frame_height in
  let distance := pixel_distance prev curr in
  let distance_m := distance * scale * factor in
  let time_s := 1 / fps in
  let speed_mps := distance_m / time_s in
  speed_mps * 0x1.ccccccccccccdp+1.

Fixpoint pair_speeds (scale fps : float) (frame_height : Z)
  (prev : Detector.point) (rest : list Detector.point) : list float :=
  match rest with
  | [] => []
  | curr :: rest' =>
      pair_speed scale fps frame_height prev curr
      :: pair_speeds scale fps frame_height curr rest'
  end.

Definition all_pair_speeds (scale fps : float) (frame_height : Z)
  (centers : list Detector.point) : list float :=
  match centers with
  | [] => []
  | c :: rest => pair_speeds scale fps frame_height c rest
  end.

(** [np.sum] of fewer than eight numbers: they are added from left to
    right. *)
Definition sum (l : list float) : float := fold_left add l 0.

(** [np.linspace(start, stop, num)]: [arange(0, num) * step + start]
    with the last entry set to [stop]. *)
Definition linspace (start stop : float) (num : nat) : list float :=
  match num with
  | O => []
  | S O => [start]
  | S (S n) =>
      let step := (stop - start) / of_int (Z.of_nat (num - 1)) in
      map (fun i => of_int (Z.of_nat i) * step + start) (seq 0 (S n))
      ++ [stop]
  end.

(** [np.average(values, weights=weights)]:
    [np.multiply(values, weights).sum() / weights.sum()] *)
Definition average (values weights : list float) : float :=
  sum (map (fun vw => fst vw * snd vw) (combine values weights))
  / sum weights.

Definition weighted_speed (speeds : list float) : float :=
  average speeds (linspace 0.5 1 (length speeds)).

(** [np.sign] *)
Definition sign (x : float) : float :=
  if x <? 0 then -1 else if 0 <? x then 1 else if x =? 0 then 0 else x.

(** The block under [if self.prev_speeds:]. *)
Definition rate_limit (history : list float) (max_change speed_kmh : float)
  : float :=
  match Detector.last_opt history with
  | None => speed_kmh
  | Some prev_speed =>
      if max_change <? abs (speed_kmh - prev_speed)
      then prev_speed + max_change * sign (speed_kmh - prev_speed)
      else speed_kmh
  end.



End Binary64.

(** ** Python dictionaries: insertion-ordered association lists *)

Section Dict.

Variables (K V : Type) (eqb : K -> K -> bool).

(** [d[k]] *)
Fixpoint dict_get (d : list (K * V)) (k : K) : option V :=
  match d with
  | [] => None
  | (k', v) :: d' => if eqb k k' then Some v else dict_get d' k
  end.

(** [d[k] = v]: a key already present keeps its place, a new key goes
    last. *)
Fixpoint dict_set (d : list (K * V)) (k : K) (v : V) : list (K * V) :=
  match d with
  | [] => [(k, v)]
  | (k', v') :: d' =>
      if eqb k k' then (k, v) :: d' else (k', v') :: dict_set d' k v
  end.

Definition dict_keys (d : list (K * V)) : list K := map fst d.

End Dict.

Arguments dict_get {K V} eqb d k.
Arguments dict_set {K V} eqb d k v.
Arguments dict_keys {K V} d.

(** ** tracker.py: [VehicleTrack] and [MultiVehicleTracker] *)

Module Tracker.

Local Open Scope R_scope.

Definition position : Type := (R * R)%type.

Record VehicleTrack : Type := mk_track {
  id : nat;
  positions : list position;
  timestamps : list R;
  speeds : list R;
  last_update : R;
  color : Z * Z * Z
}.

(** [self.speeds[-1] if self.speeds else None] *)
Definition current_speed (tr : VehicleTrack) : option R :=
  match speeds tr with
  | [] => None
  | _ :: _ => Detector.last_opt (speeds tr)
  end.

(** [np.mean] *)
Definition mean (l : list R) : R := Detector.Rsum l / INR (length l).

(** [np.mean(self.speeds) if self.speeds else None] *)
Definition average_speed (tr : VehicleTrack) : option R :=
  match speeds tr with
  | [] => None
  | _ :: _ => Some (mean (speeds tr))
  end.

(** [max(self.speeds) if self.speeds else None] *)
Definition max_speed (tr : VehicleTrack) : option R :=
  match speeds tr with
  | [] => None
  | v :: vs => Some (fold_left Rmax vs v)
  end.

Definition Rltb (x y : R) : bool := if Rlt_dec x y then true else false.

(** [is_active], [now] being what [time.time()] returns inside it. *)
Definition is_active (now : R) (tr : VehicleTrack) (timeout : R) : bool :=
  Rltb (now - last_update tr) timeout.

Record t : Type := mk {
  next_vehicle_id : nat;
  vehicles : list (nat * VehicleTrack);
  max_disappeared : Z;
  speed_unit : string
}.

(** [__init__] *)
Definition init (max_disappeared : Z) : t :=
  {| next_vehicle_id := 0; vehicles := [];
     max_disappeared := max_disappeared; speed_unit := "km/h" |}.

Definition with_vehicles (trk : t) (vs : list (nat * VehicleTrack)) : t :=
  {| next_vehicle_id := next_vehicle_id trk; vehicles := vs;
     max_disappeared := max_disappeared trk; speed_unit := speed_unit trk |}.

(** A detection is a bounding box [(x, y, w, h)]. *)
Definition bbox : Type := (Z * Z * Z * Z)%type.

(** [(x + w/2, y + h/2)] *)
Definition center_of (b : bbox) : position :=
  let '(x, y, w, h) := b in (IZR x + IZR w / 2, IZR y + IZR h / 2).

(** [np.linalg.norm(np.array(a) - np.array(b))] *)
Definition norm_diff (a b : position) : R :=
  sqrt ((fst a - fst b) * (fst a - fst b)
        + (snd a - snd b) * (snd a - snd b)).

(** [(l[-2], l[-1])] *)
Fixpoint last_two {A : Type} (l : list A) : option (A * A) :=
  match l with
  | [] => None
  | [_] => None
  | [x; y] => Some (x, y)
  | _ :: l' => last_two l'
  end.

(** The lines under [# Update existing track] for the track found.  The
    track is returned as the lines leave it, also when [timestamps[-2]]
    does not exist. *)
Definition record_position (track : VehicleTrack) (center : position)
  (current_time : R) : VehicleTrack * result unit :=
  let positions' := positions track ++ [center] in
  let timestamps' := timestamps track ++ [current_time] in
  let moved :=
    {| id := id track; positions := positions'; timestamps := timestamps';
       speeds := speeds track; last_update := current_time;
       color := color track |} in
  if (2 <=? length positions')%nat then
    match last_two timestamps', last_two positions' with
    | Some (t2, t1), Some (p2, p1) =>
        let dt := t1 - t2 in
        if Rltb 0 dt then
          let dx := fst p1 - fst p2 in
          let dy := snd p1 - snd p2 in
          let speed := sqrt (dx * dx + dy * dy) / dt in
          ({| id := id track; positions := positions';
              timestamps := timestamps';
              speeds := speeds track ++ [speed];
              last_update := current_time; color := color track |}, Ok tt)
        else (moved, Ok tt)
    | _, _ => (moved, Raise IndexError)
    end
  else (moved, Ok tt).

Section World.

(** [clock k] is what the [k]-th call of [time.time()] returns;
    [colors n] is the colour [np.random.randint] yields for the track
    spawned with id [n]. *)
Variable clock : nat -> R.
Variable colors : nat -> Z * Z * Z.

(** The loop variables [closest_id], [min_dist] ([None] is
    [float('inf')]) and the number of clock readings so far. *)
Definition search_state : Type := (option nat * option R * nat)%type.

(** One iteration of the loop over [self.vehicles.items()]. *)
Definition consider_track (center : position) (st : search_state)
  (entry : nat * VehicleTrack) : search_state :=
  let '(closest_id, min_dist, k) := st in
  let (vid, track) := entry in
  if is_active (clock k) track 1 then
    match Detector.last_opt (positions track) with
    | None => (closest_id, min_dist, S k)
    | Some p =>
        let dist := norm_diff center p in
        let closer :=
          match min_dist with
          | None => true
          | Some d => Rltb dist d
          end in
        if closer && Rltb dist 50
        then (Some vid, Some dist, S k)
        else (closest_id, min_dist, S k)
    end
  else (closest_id, min_dist, S k).

Definition find_closest (trk : t) (center : position) (k : nat)
  : option nat * nat :=
  let '(closest_id, _, k') :=
    fold_left (consider_track center) (vehicles trk) (None, None, k) in
  (closest_id, k').

(** The body of [for bbox in detections]: the tracker, the set
    [matched_tracks] and the number of clock readings, before and
    after. *)
Definition assign (current_time : R) (st : t * list nat * nat) (b : bbox)
  : (t * list nat * nat) * result unit :=
  let '(trk, matched, k) := st in
  let center := center_of b in
  let (closest_id, k') := find_closest trk center k in
  match closest_id with
  | Some vid =>
      match dict_get Nat.eqb (vehicles trk) vid with
      | Some track =>
          let (track', r) := record_position track center current_time in
          let trk' :=
            with_vehicles trk (dict_set Nat.eqb (vehicles trk) vid track') in
          match r with
          | Ok _ => ((trk', vid :: matched, k'), Ok tt)
          | Raise e => ((trk', matched, k'), Raise e)
          end
      | None => ((trk, matched, k'), Raise KeyError)
      end
  | None =>
      let n := next_vehicle_id trk in
      let track :=
        {| id := n; positions := [center]; timestamps := [current_time];
           speeds := []; last_update := current_time;
           color := colors n |} in
      (({| next_vehicle_id := S n;
           vehicles := dict_set Nat.eqb (vehicles trk) n track;
           max_disappeared := max_disappeared trk;
           speed_unit := speed_unit trk |}, n :: matched, k'), Ok tt)
  end.

Fixpoint assign_all (current_time : R) (st : t * list nat * nat)
  (detections : list bbox) : (t * list nat * nat) * result unit :=
  match detections with
  | [] => (st, Ok tt)
  | b :: rest =>
      match assign current_time st b with
      | (st', Ok _) => assign_all current_time st' rest
      | (st', Raise e) => (st', Raise e)
      end
  end.

(** The dictionary comprehension under [# Remove inactive tracks];
    [is_active] is called for every track. *)
Fixpoint retain (matched : list nat) (vs : list (nat * VehicleTrack))
  (k : nat) : list (nat * VehicleTrack) * nat :=
  match vs with
  | [] => ([], k)
  | (vid, track) :: rest =>
      let keep :=
        is_active (clock k) track 1 || existsb (Nat.eqb vid) matched in
      let (rest', k') := retain matched rest (S k) in
      (if keep then (vid, track) :: rest' else rest', k')
  end.

(** [draw_tracks] reads the clock once for each track and changes the
    pixels of the frame only. *)
Definition draw_tracks (trk : t) (k : nat) : nat :=
  (k + length (vehicles trk))%nat.

(** [update]: the tracker and the number of clock readings after the
    call, and whether the call returned. *)
Definition update (trk : t) (k : nat) (detections : list bbox)
  : (t * nat) * result unit :=
  let current_time := clock k in
  match assign_all current_time (trk, [], S k) detections with
  | ((trk1, matched, k1), Ok _) =>
      let (kept, k2) := retain matched (vehicles trk1) k1 in
      let trk2 := with_vehicles trk1 kept in
      ((trk2, draw_tracks trk2 k2), Ok tt)
  | ((trk1, _, k1), Raise e) => ((trk1, k1), Raise e)
  end.

End World.

(** One entry of the statistics dictionary. *)
Record stats_entry : Type := mk_stats {
  stat_current : option R;
  stat_average : option R;
  stat_max : option R
}.

(** [f"Vehicle {vid}"] *)
Definition vehicle_key (vid : nat) : string :=
  ("Vehicle " ++ NilEmpty.string_of_uint (Nat.to_uint vid))%string.

(** [get_speed_statistics] *)
Definition get_speed_statistics (trk : t) : list (string * stats_entry) :=
  fold_left
    (fun stats entry =>
       let (vid, track) := (entry : nat * VehicleTrack) in
       match speeds track with
       | [] => stats
       | _ :: _ =>
           dict_set String.eqb stats (vehicle_key vid)
             {| stat_current := current_speed track;
                stat_average := average_speed track;
                stat_max := max_speed track |}
       end)
    (vehicles trk) [].

End Tracker.

(** ** video_processor.py: the two loops of [start_processing] *)

Module Pipeline.
Section Loops.

Variable Frame : Type.

(** What the two threads share and what each keeps to itself: the frame
    buffer, [current_frame_no], [frame_skip]; the reader's local
    [frames_to_skip], the frames [cap.read()] has yet to deliver (an empty
    list is a read with [ret = False]) and whether its loop still runs;
    whether the consumer's loop still runs and the frames it has handed to
    [process_fn], oldest first. *)
Record t : Type := mk {
  frame_buffer : FrameBuffer.t Frame;
  frame_skip : Z;
  current_frame_no : Z;
  frames_to_skip : Z;
  source : list Frame;
  reading : bool;
  consuming : bool;
  processed : list Frame
}.

(** [start_processing] on a processor just built with [buffer_size] and
    [frame_skip], for a capture delivering [frames]. *)
Definition start (buffer_size frame_skip' : Z) (frames : list Frame) : t :=
  {| frame_buffer := FrameBuffer.init Frame buffer_size;
     frame_skip := frame_skip';
     current_frame_no := 0;
     frames_to_skip := 0;
     source := frames;
     reading := true;
     consuming := true;
     processed := [] |}.

(** [processing_done.set()] *)
Definition set_processing_done (fb : FrameBuffer.t Frame)
  : FrameBuffer.t Frame :=
  {| FrameBuffer.maxsize := FrameBuffer.maxsize fb;
     FrameBuffer.buffer := FrameBuffer.buffer fb;
     FrameBuffer.stop_event := FrameBuffer.stop_event fb;
     FrameBuffer.processing_done := true |}.

(** [buffer.qsize() >= buffer.maxsize * 0.9] *)
Definition almost_full (fb : FrameBuffer.t Frame) : bool :=
  if Rge_dec (IZR (FrameBuffer.qsize fb))
             (IZR (FrameBuffer.maxsize fb) * (9 / 10))
  then true else false.

Definition with_buffer (st : t) (fb : FrameBuffer.t Frame) : t :=
  {| frame_buffer := fb;
     frame_skip := frame_skip st;
     current_frame_no := current_frame_no st;
     frames_to_skip := frames_to_skip st;
     source := source st;
     reading := reading st;
     consuming := consuming st;
     processed := processed st |}.

Definition stop_reading (st : t) : t :=
  {| frame_buffer := frame_buffer st;
     frame_skip := frame_skip st;
     current_frame_no := current_frame_no st;
     frames_to_skip := frames_to_skip st;
     source := source st;
     reading := false;
     consuming := consuming st;
     processed := processed st |}.

(** The reader after [cap.read()] delivered a frame and
    [current_frame_no += 1], with the new value of [frames_to_skip]. *)
Definition after_read (st : t) (rest : list Frame) (to_skip : Z) : t :=
  {| frame_buffer := frame_buffer st;
     frame_skip := frame_skip st;
     current_frame_no := current_frame_no st + 1;
     frames_to_skip := to_skip;
     source := rest;
     reading := reading st;
     consuming := consuming st;
     processed := processed st |}.

(** One turn of the loop of [read_frames], the loop condition included.
    [Raise] is the exception that ends the thread: [%] by a [frame_skip]
    of zero. *)
Definition read_iteration (st : t) : t * result unit :=
  if negb (reading st) then (st, Ok tt)
  else if FrameBuffer.should_stop (frame_buffer st)
  then (stop_reading st, Ok tt)
  else if almost_full (frame_buffer st) then (st, Ok tt)
  else
    match source st with
    | [] =>
        (stop_reading
           (with_buffer st (set_processing_done (frame_buffer st))), Ok tt)
    | frame :: rest =>
        if (frames_to_skip st >? 0)%Z
        then (after_read st rest (frames_to_skip st - 1), Ok tt)
        else if (frame_skip st =? 0)%Z
        then (stop_reading (after_read st rest (frames_to_skip st)),
              Raise ZeroDivisionError)
        else if negb (((current_frame_no st + 1) mod frame_skip st =? 0)%Z)
        then (after_read st rest (frames_to_skip st), Ok tt)
        else
          let (fb, queued) := FrameBuffer.put (frame_buffer st) frame in
          (with_buffer
             (after_read st rest
                (if queued then frames_to_skip st else frame_skip st))
             fb, Ok tt)
    end.

(** One turn of the loop of [process_frames], the loop condition
    included.  What [process_fn] raises is logged and dropped, so a frame
    taken from the buffer is a frame handed to [process_fn]. *)
Definition process_iteration (st : t) : t :=
  if negb (consuming st) then st
  else if FrameBuffer.should_stop (frame_buffer st)
          && FrameBuffer.processing_done (frame_buffer st)
          && (FrameBuffer.qsize (frame_buffer st) =? 0)%Z
  then {| frame_buffer := frame_buffer st;
          frame_skip := frame_skip st;
          current_frame_no := current_frame_no st;
          frames_to_skip := frames_to_skip st;
          source := source st;
          reading := reading st;
          consuming := false;
          processed := processed st |}
  else
    match FrameBuffer.get (frame_buffer st) with
    | (_, None) => st
    | (fb, Some frame) =>
        {| frame_buffer := fb;
           frame_skip := frame_skip st;
           current_frame_no := current_frame_no st;
           frames_to_skip := frames_to_skip st;
           source := source st;
           reading := reading st;
           consuming := consuming st;
           processed := processed st ++ [frame] |}
    end.

(** The first line of [stop_processing]: [self.frame_buffer.stop()]. *)
Definition request_stop (st : t) : t :=
  with_buffer st (FrameBuffer.stop (frame_buffer st)).

(** A schedule of the two threads and of the caller of
    [stop_processing], one loop turn at a time. *)
Inductive event : Type :=
| Read
| Process
| Stop.

Definition step (st : t) (e : event) : t :=
  match e with
  | Read => fst (read_iteration st)
  | Process => process_iteration st
  | Stop => request_stop st
  end.

Definition run (st : t) (events : list event) : t := fold_left step events st.

(** One turn of the loop of [read_frames] after its loop condition was
    found true: the lines under [while not self.frame_buffer.should_stop]. *)
Definition read_body (st : t) : t * result unit :=
  if almost_full (frame_buffer st) then (st, Ok tt)
  else
    match source st with
    | [] =>
        (stop_reading
           (with_buffer st (set_processing_done (frame_buffer st))), Ok tt)
    | frame :: rest =>
        if (frames_to_skip st >? 0)%Z
        then (after_read st rest (frames_to_skip st - 1), Ok tt)
        else if (frame_skip st =? 0)%Z
        then (stop_reading (after_read st rest (frames_to_skip st)),
              Raise ZeroDivisionError)
        else if negb (((current_frame_no st + 1) mod frame_skip st =? 0)%Z)
        then (after_read st rest (frames_to_skip st), Ok tt)
        else
          let (fb, queued) := FrameBuffer.put (frame_buffer st) frame in
          (with_buffer
             (after_read st rest
                (if queued then frames_to_skip st else frame_skip st))
             fb, Ok tt)
    end.

(** A finer schedule: the reader evaluates its loop condition in one
    step and runs the body of the turn in another, so that a turn of the
    consumer or a stop request can come between the two.  The state has,
    besides the state of the loops, whether the reader is inside a
    turn. *)
Inductive fine_event : Type :=
| ReadTest
| ReadBody
| ProcessTurn
| StopRequest.

Definition fine_step (st : t * bool) (e : fine_event) : t * bool :=
  let (loops, in_turn) := st in
  match e with
  | ReadTest =>
      if in_turn || negb (reading loops) then st
      else if FrameBuffer.should_stop (frame_buffer loops)
      then (stop_reading loops, false)
      else (loops, true)
  | ReadBody =>
      if in_turn then (fst (read_body loops), false) else st
  | ProcessTurn => (process_iteration loops, in_turn)
  | StopRequest => (request_stop loops, in_turn)
  end.

Definition fine_run (st : t * bool) (events : list fine_event) : t * bool :=
  fold_left fine_step events st.

(** The frames of [frames] the reader keeps, the first of them being
    frame number [n + 1]: those whose number is a multiple of [skip]. *)
Fixpoint every_nth (skip n : Z) (frames : list Frame) : list Frame :=
  match frames with
  | [] => []
  | frame :: rest =>
      if ((n + 1) mod skip =? 0)%Z
      then frame :: every_nth skip (n + 1) rest
      else every_nth skip (n + 1) rest
  end.

End Loops.

Arguments frame_buffer {Frame} _.
Arguments frame_skip {Frame} _.
Arguments current_frame_no {Frame} _.
Arguments frames_to_skip {Frame} _.
Arguments source {Frame} _.
Arguments reading {Frame} _.
Arguments consuming {Frame} _.
Arguments processed {Frame} _.
Arguments set_processing_done {Frame} fb.
Arguments almost_full {Frame} fb.
Arguments with_buffer {Frame} st fb.
Arguments stop_reading {Frame} st.
Arguments after_read {Frame} st rest to_skip.
Arguments read_iteration {Frame} st.
Arguments process_iteration {Frame} st.
Arguments request_stop {Frame} st.
Arguments step {Frame} st e.
Arguments run {Frame} st events.
Arguments every_nth {Frame} skip n frames.
Arguments read_body {Frame} st.
Arguments fine_step {Frame} st e.
Arguments fine_run {Frame} st events.

End Pipeline.

(** ** ui.py: [display_frame] *)

Module Ui.

Local Open Scope R_scope.

(** [(new_w, new_h)] of [display_frame] for a frame of [frame_h] rows and
    [frame_w] columns; [int] of a number that is not negative is its
    integer part. *)
Definition display_size (frame_h frame_w : Z) : Z * Z :=
  let scale := Rmin (1280 / IZR frame_w) (720 / IZR frame_h) in
  (Int_part (IZR frame_w * scale), Int_part (IZR frame_h * scale)).

End Ui.

(** * Vocabulary of the properties and the scenarios they are tried on *)

Section ProgressScenario.

Local Open Scope R_scope.

(** The processor of a video whose container announces two frames and
    whose reader delivers three. *)
Definition three_of_two : VideoProcessor.t :=
  let vp0 := VideoProcessor.open_video (VideoProcessor.init 1) 2 in
  let vp1 := fst (VideoProcessor.process_next_frame vp0 true) in
  let vp2 := fst (VideoProcessor.process_next_frame vp1 true) in
  fst (VideoProcessor.process_next_frame vp2 true).

End ProgressScenario.

Section DetectorVocabulary.

Import Detector.
Local Open Scope R_scope.

(** The attributes no call after [__init__] assigns. *)
Definition same_settings (s s' : Detector.t) : Prop :=
  speed_window s' = speed_window s
  /\ max_speed_change s' = max_speed_change s
  /\ min_contour_area s' = min_contour_area s
  /\ known_distance_m s' = known_distance_m s.

(** [process_frame] case by case, on the detector it was called on. *)
Inductive frame_outcome (s : Detector.t) (f : frame)
  : Detector.t -> result (label * option R) -> Prop :=
| scan_raises e :
    closest_contour s f = Raise e ->
    frame_outcome s f (cache_frame_size s f) (Raise e)
| nothing_tracked closest :
    closest_contour s f = Ok closest ->
    object_selected s = false \/ closest = None ->
    frame_outcome s f (cache_frame_size s f) (Ok (NoLabel, None))
| first_center rect center :
    closest_contour s f = Ok (Some (rect, center)) ->
    object_selected s = true ->
    (Z.of_nat (length (push_window (prev_centers s) center (speed_window s)))
     <= 1)%Z ->
    frame_outcome s f
      (with_prev_center
         (with_prev_centers (cache_frame_size s f)
            (push_window (prev_centers s) center (speed_window s)))
         center)
      (Ok (NoLabel, None))
| speed_raises rect center e :
    closest_contour s f = Ok (Some (rect, center)) ->
    object_selected s = true ->
    (1 < Z.of_nat
           (length (push_window (prev_centers s) center (speed_window s))))%Z ->
    all_pair_speeds s (shape_h f)
      (push_window (prev_centers s) center (speed_window s)) = Raise e ->
    frame_outcome s f
      (with_prev_centers (cache_frame_size s f)
         (push_window (prev_centers s) center (speed_window s)))
      (Raise e)
| speed_computed rect center speeds :
    closest_contour s f = Ok (Some (rect, center)) ->
    object_selected s = true ->
    (1 < Z.of_nat
           (length (push_window (prev_centers s) center (speed_window s))))%Z ->
    all_pair_speeds s (shape_h f)
      (push_window (prev_centers s) center (speed_window s)) = Ok speeds ->
    let speed_kmh :=
      rate_limit (prev_speeds s) (max_speed_change s)
                 (weighted_speed speeds) in
    let history := push_window (prev_speeds s) speed_kmh (speed_window s) in
    frame_outcome s f
      (with_prev_center
         (with_prev_speeds
            (with_prev_centers (cache_frame_size s f)
               (push_window (prev_centers s) center (speed_window s)))
            history)
         center)
      (Ok ((if show_speed s then SpeedLabel (median history) else NoLabel),
           Some speed_kmh)).

(** How a call changes a history kept in a window of [window] entries:
    not at all, by one more entry at the end, or, when the window is
    full, by one more entry at the end and the oldest entry gone. *)
Definition slides {A : Type} (window : nat) (before after : list A) : Prop :=
  after = before
  \/ (exists x, (length before < window)%nat /\ after = before ++ [x])
  \/ (exists x, length before = window /\ after = tl before ++ [x]).

(** The invariant of the detector: the window is the one [__init__]
    chose and both histories fit in it. *)
Definition windowed (s : Detector.t) : Prop :=
  speed_window s = 5%Z
  /\ (length (prev_centers s) <= 5)%nat
  /\ (length (prev_speeds s) <= 5)%nat.



Definition car_at (x : Z) : frame :=
  {| shape_h := 720; shape_w := 1280;
     found_contours :=
       [ {| contourArea := 1600; boundingRect := (x, 340, 40, 40)%Z |} ] |}.

Definition approach : list call :=
  [ SetVideoInfo 1280 30;
    SelectObject EVENT_LBUTTONDOWN 120 360;
    ProcessFrame (car_at 70);
    ProcessFrame (car_at 70) ].

Definition standing : Detector.t := run (init 10) approach.

Definition scale_1280 : R := 10 / (1280 * cos (radians 30)).

(** The attributes of a detector calibrated and clicked as in [approach]. *)
Definition tracking (s : Detector.t) (centers : list point) (speeds : list R)
  : Prop :=
  prev_centers s = centers
  /\ prev_speeds s = speeds
  /\ scale_m_per_px s = Some scale_1280
  /\ fps s = Some 30
  /\ show_speed s = true
  /\ object_selected s = true
  /\ selected_box s = Some (120, 360)%Z
  /\ speed_window s = 5%Z
  /\ max_speed_change s = 10
  /\ min_contour_area s = 500.

(** A frame whose only contour is below the minimum area. *)
Definition ripple : frame :=
  {| shape_h := 720; shape_w := 1280;
     found_contours :=
       [ {| contourArea := 120; boundingRect := (300, 200, 12, 10)%Z |} ] |}.

End DetectorVocabulary.

Section Binary64Scenario.

Import PrimFloat.
Local Open Scope float_scope.



End Binary64Scenario.

Section TrackerVocabulary.

Import Tracker.
Local Open Scope R_scope.

(** The body of the loop of [get_speed_statistics]. *)
Definition add_statistics (stats : list (string * stats_entry))
  (entry : nat * VehicleTrack) : list (string * stats_entry) :=
  match speeds (snd entry) with
  | [] => stats
  | _ :: _ =>
      dict_set String.eqb stats (vehicle_key (fst entry))
        {| stat_current := current_speed (snd entry);
           stat_average := average_speed (snd entry);
           stat_max := max_speed (snd entry) |}
  end.

Definition clock10ms (k : nat) : R := INR k / 100.

Definition green (n : nat) : Z * Z * Z := (0, 255, 0)%Z.

Definition spawned (n : nat) (b : bbox) (t : R) : VehicleTrack :=
  {| id := n; positions := [center_of b]; timestamps := [t]; speeds := [];
     last_update := t; color := green n |}.

Definition moved (tr : VehicleTrack) (b : bbox) (t : R) (vs : list R)
  : VehicleTrack :=
  {| id := id tr; positions := positions tr ++ [center_of b];
     timestamps := timestamps tr ++ [t]; speeds := speeds tr ++ vs;
     last_update := t; color := color tr |}.

Definition car0 : VehicleTrack := spawned 0 (0, 0, 10, 10)%Z (clock10ms 0).

Definition car1 : VehicleTrack := spawned 1 (200, 0, 10, 10)%Z (clock10ms 0).

Definition one_car : Tracker.t :=
  fst (fst (update clock10ms green (init 30) 0 [(0, 0, 10, 10)%Z])).

Definition two_cars : Tracker.t :=
  fst (fst (update clock10ms green (init 30) 0
              [(0, 0, 10, 10)%Z; (200, 0, 10, 10)%Z])).

Definition two_blobs : list bbox := [(10, 0, 10, 10)%Z; (20, 0, 10, 10)%Z].

Definition two_far_blobs : list bbox :=
  [(10, 0, 10, 10)%Z; (210, 0, 10, 10)%Z].

End TrackerVocabulary.

(** ** Vocabulary of the further properties *)

Section BufferVocabulary.

Variable Frame : Type.

(** The results of [n] calls of [get] in a row. *)
Fixpoint drain (fb : FrameBuffer.t Frame) (n : nat) : list (option Frame) :=
  match n with
  | O => []
  | S n' =>
      let (fb', frame) := FrameBuffer.get fb in frame :: drain fb' n'
  end.

End BufferVocabulary.

Arguments drain {Frame} fb n.

Section LoopVocabulary.

Variable Frame : Type.

(** What the reader's test of the buffer maintains for a buffer of
    positive capacity: no [put] has failed, so [frames_to_skip] is still
    zero, and the buffer holds less than nine tenths of its capacity plus
    one frame. *)
Definition below_mark (N : Z) (st : Pipeline.t Frame) : Prop :=
  FrameBuffer.maxsize (Pipeline.frame_buffer st) = N
  /\ Pipeline.frames_to_skip st = 0%Z
  /\ (IZR (FrameBuffer.qsize (Pipeline.frame_buffer st))
      < IZR N * (9 / 10) + 1)%R.

(** Nothing was read, queued or processed. *)
Definition untouched (N : Z) (frames : list Frame) (st : Pipeline.t Frame)
  : Prop :=
  FrameBuffer.maxsize (Pipeline.frame_buffer st) = N
  /\ FrameBuffer.buffer (Pipeline.frame_buffer st) = []
  /\ FrameBuffer.processing_done (Pipeline.frame_buffer st) = false
  /\ Pipeline.source st = frames
  /\ Pipeline.current_frame_no st = 0%Z
  /\ Pipeline.processed st = [].

(** The frames handed to [process_fn], those waiting in the buffer and
    those the reader will still keep are the frames to keep of the whole
    video, in its order. *)
Definition nothing_lost (skip : Z) (frames : list Frame)
  (st : Pipeline.t Frame) : Prop :=
  Pipeline.frame_skip st = skip
  /\ Pipeline.processed st
     ++ FrameBuffer.buffer (Pipeline.frame_buffer st)
     ++ Pipeline.every_nth skip (Pipeline.current_frame_no st)
          (Pipeline.source st)
     = Pipeline.every_nth skip 0 frames.

(** Stop was requested before the reader met the end of the video: the
    stop flag is set, [processing_done] is not, and a reader inside a
    turn has a frame to read. *)
Definition stopped_early (st : Pipeline.t Frame * bool) : Prop :=
  FrameBuffer.stop_event (Pipeline.frame_buffer (fst st)) = true
  /\ FrameBuffer.processing_done (Pipeline.frame_buffer (fst st)) = false
  /\ Pipeline.consuming (fst st) = true
  /\ (snd st = true -> Pipeline.source (fst st) <> []).

End LoopVocabulary.

Arguments below_mark {Frame} N st.
Arguments untouched {Frame} N frames st.
Arguments nothing_lost {Frame} skip frames st.
Arguments stopped_early {Frame} st.

Section SelectionVocabulary.

Import Detector.

(** [abs(center[0] - sel_x) + abs(center[1] - sel_y)] *)
Definition manhattan (center sel : point) : Z :=
  (Z.abs (fst center - fst sel) + Z.abs (snd center - snd sel))%Z.

(** The contours the loop of [process_frame] looks at, and the ones the
    slice [[:5]] leaves out. *)
Definition considered (f : frame) : list contour :=
  firstn 5 (sorted_by_area (found_contours f)).

Definition left_out (f : frame) : list contour :=
  skipn 5 (sorted_by_area (found_contours f)).

(** The loop variables after the contours [seen]: nothing chosen and no
    contour large enough so far, or the first of the large enough
    contours among those nearest to the selected point. *)
Definition scanned (s : Detector.t) (sel : point) (seen : list contour)
  (st : scan_state) : Prop :=
  match st with
  | (None, None) =>
      Forall (fun c => ~ (contourArea c > min_contour_area s)%R) seen
  | (Some (rect, center), Some dist) =>
      center = center_of rect
      /\ dist = manhattan center sel
      /\ (exists c, In c seen /\ boundingRect c = rect
                    /\ (contourArea c > min_contour_area s)%R)
      /\ Forall (fun c => (contourArea c > min_contour_area s)%R ->
                          (dist <= manhattan (center_of (boundingRect c)) sel)%Z)
           seen
  | _ => False
  end.

(** The calls that are not a left click. *)
Definition not_a_click (c : call) : Prop :=
  match c with
  | SelectObject event _ _ => event <> EVENT_LBUTTONDOWN
  | _ => True
  end.

End SelectionVocabulary.

Section DetectorStateVocabulary.

Import Detector.

(** A detector nobody has clicked on. *)
Definition idle (s : Detector.t) : Prop :=
  object_selected s = false /\ prev_centers s = [] /\ prev_speeds s = [].

(** What the calls keep true of a detector: a selected detector has its
    point, and the scale and the frame rate are set together. *)
Definition coherent (s : Detector.t) : Prop :=
  (object_selected s = true -> selected_box s <> None)
  /\ (scale_m_per_px s = None <-> fps s = None).

End DetectorStateVocabulary.

Section TrackerStateVocabulary.

Import Tracker.
Local Open Scope R_scope.

(** What [update] keeps true of a track stored under the key [vid] of a
    tracker whose next id is [next]. *)
Definition sound_track (next : nat) (e : nat * VehicleTrack) : Prop :=
  (fst e < next)%nat
  /\ id (snd e) = fst e
  /\ positions (snd e) <> []
  /\ length (timestamps (snd e)) = length (positions (snd e))
  /\ (length (speeds (snd e)) < length (positions (snd e)))%nat
  /\ Forall (fun v => 0 <= v) (speeds (snd e))
  /\ Detector.last_opt (timestamps (snd e)) = Some (last_update (snd e)).

Definition sound (trk : Tracker.t) : Prop :=
  NoDup (dict_keys (vehicles trk))
  /\ Forall (sound_track (next_vehicle_id trk)) (vehicles trk).

(** The tracker and the number of clock readings after the passes
    [passes], each pass being one call of [update]; a caller that catches
    what a pass raises goes on with the tracker as the pass left it. *)
Definition run_passes (clock : nat -> R) (colors : nat -> Z * Z * Z)
  (start : Tracker.t * nat) (passes : list (list bbox)) : Tracker.t * nat :=
  fold_left (fun st detections =>
               fst (update clock colors (fst st) (snd st) detections))
            passes start.

End TrackerStateVocabulary.

Section AssociationVocabulary.

Import Tracker.
Local Open Scope R_scope.

(** The tracks a detection at [center] can be given to, with their
    distances: those that are active when the loop reaches them, the
    first of them at clock reading [k], and have a position. *)
Fixpoint candidates (clock : nat -> R) (center : position) (k : nat)
  (vs : list (nat * VehicleTrack)) : list (nat * R) :=
  match vs with
  | [] => []
  | (vid, track) :: rest =>
      (if is_active (clock k) track 1
       then match Detector.last_opt (positions track) with
            | Some p => [(vid, norm_diff center p)]
            | None => []
            end
       else [])
      ++ candidates clock center (S k) rest
  end.

(** The loop variables of the search after the candidates [seen]. *)
Definition searched (seen : list (nat * R)) (closest : option nat)
  (best : option R) : Prop :=
  match closest, best with
  | None, None => Forall (fun c => ~ snd c < 50) seen
  | Some vid, Some dist =>
      In (vid, dist) seen /\ dist < 50
      /\ Forall (fun c => dist <= snd c) seen
  | _, _ => False
  end.

End AssociationVocabulary.

Section LifecycleVocabulary.

Import Tracker.
Local Open Scope R_scope.

(** No position of the track [e] to match a detection at [center] with:
    its last position, if it has one, is 50 pixels away or more. *)
Definition out_of_reach (center : position) (e : nat * VehicleTrack) : Prop :=
  forall p, Detector.last_opt (positions (snd e)) = Some p ->
            ~ norm_diff center p < 50.

(** The track [update] makes for a detection it gives to no track. *)
Definition new_track (colors : nat -> Z * Z * Z) (now : R) (n : nat)
  (b : bbox) : VehicleTrack :=
  {| id := n; positions := [center_of b]; timestamps := [now];
     speeds := []; last_update := now; color := colors n |}.

(** The tracks made for the detections [detections], the first of them
    under the id [n]. *)
Fixpoint new_tracks (colors : nat -> Z * Z * Z) (now : R) (n : nat)
  (detections : list bbox) : list (nat * VehicleTrack) :=
  match detections with
  | [] => []
  | b :: rest =>
      (n, new_track colors now n b) :: new_tracks colors now (S n) rest
  end.

End LifecycleVocabulary.

Section PassVocabulary.

Import Tracker.
Local Open Scope R_scope.

Variable clock : nat -> R.
Variable colors : nat -> Z * Z * Z.

(** The loop [for bbox in detections] turn by turn: each detection with
    the tracker, the set [matched_tracks] and the number of clock
    readings it finds. *)
Fixpoint turns (now : R) (st : Tracker.t * list nat * nat)
  (detections : list bbox) : list (Tracker.t * list nat * nat * bbox) :=
  match detections with
  | [] => []
  | b :: rest =>
      (st, b) :: turns now (fst (assign clock colors now st b)) rest
  end.

(** The id of the track a detection is recorded on: [closest_id], or
    the id of the track made for it. *)
Definition target (turn : Tracker.t * list nat * nat * bbox) : nat :=
  let '(trk, _, k, b) := turn in
  match fst (find_closest clock trk (center_of b) k) with
  | Some vid => vid
  | None => next_vehicle_id trk
  end.

(** The track of a detection is a nearest one among the active tracks
    within 50 pixels of it, or, when there is none within 50 pixels, a
    track the tracker does not have yet. *)
Definition nearest_or_new (turn : Tracker.t * list nat * nat * bbox) : Prop :=
  let '(trk, _, k, b) := turn in
  let near := candidates clock (center_of b) k (vehicles trk) in
  (exists dist,
      In (target turn, dist) near /\ dist < 50
      /\ Forall (fun c => dist <= snd c) near)
  \/ (Forall (fun c => ~ snd c < 50) near
      /\ ~ In (target turn) (dict_keys (vehicles trk))).

End PassVocabulary.

Section RecordVocabulary.

Import Tracker.

(** The centers of the detections recorded on the track [vid], [ids]
    naming the track of each detection. *)
Fixpoint recorded_on (vid : nat) (ids : list nat) (detections : list bbox)
  : list position :=
  match ids, detections with
  | i :: ids', b :: rest =>
      if Nat.eqb i vid
      then center_of b :: recorded_on vid ids' rest
      else recorded_on vid ids' rest
  | _, _ => []
  end.

(** The positions and the timestamps the dictionary holds for the id
    [vid]: none if it has no such track. *)
Definition positions_of (vs : list (nat * VehicleTrack)) (vid : nat)
  : list position :=
  match dict_get Nat.eqb vs vid with
  | Some track => positions track
  | None => []
  end.

Definition timestamps_of (vs : list (nat * VehicleTrack)) (vid : nat)
  : list R :=
  match dict_get Nat.eqb vs vid with
  | Some track => timestamps track
  | None => []
  end.

End RecordVocabulary.

Section ExtraScenarios.

Local Open Scope R_scope.

(** A calibrated detector nobody has clicked on, after one frame. *)
Definition watching : list Detector.call :=
  [Detector.SetVideoInfo 1280 30; Detector.ProcessFrame (car_at 70)].

(** A clock that stands at 0 for three readings, the readings of a first
    pass with one detection, and at 2 seconds from then on. *)
Definition late_clock (k : nat) : R := if (k <? 3)%nat then 0 else 2.

(** A track with two recorded speeds. *)
Definition measured_track : Tracker.VehicleTrack :=
  {| Tracker.id := 0;
     Tracker.positions := [(0, 0); (3, 0); (8, 0)];
     Tracker.timestamps := [0; 1; 2];
     Tracker.speeds := [3; 5];
     Tracker.last_update := 2;
     Tracker.color := (0, 255, 0)%Z |}.

End ExtraScenarios.

(** * Properties *)

(** ** The frame buffer never holds more than its capacity *)

Section FrameBufferFacts.

Variable Frame : Type.

Let fbuf : Type := FrameBuffer.t Frame.

Lemma step_maxsize (fb : fbuf) (c : FrameBuffer.call Frame) :
  FrameBuffer.maxsize (FrameBuffer.step fb c) = FrameBuffer.maxsize fb.
Proof.
  destruct c; cbn; try reflexivity.
  - unfold FrameBuffer.put. destruct (FrameBuffer.queue_full fb); reflexivity.
  - unfold FrameBuffer.get. destruct (FrameBuffer.buffer fb); reflexivity.
Qed.

Lemma put_qsize (fb : fbuf) (frame : Frame) :
  (0 < FrameBuffer.maxsize fb)%Z ->
  (FrameBuffer.qsize fb <= FrameBuffer.maxsize fb)%Z ->
  (FrameBuffer.qsize (fst (FrameBuffer.put fb frame))
   <= FrameBuffer.maxsize fb)%Z.
Proof.
  intros Hpos Hle. unfold FrameBuffer.put, FrameBuffer.queue_full.
  destruct (0 <? FrameBuffer.maxsize fb)%Z eqn:H0; [|lia].
  destruct (FrameBuffer.maxsize fb <=? FrameBuffer.qsize fb)%Z eqn:H1;
    cbn [andb fst]; [exact Hle|].
  apply Z.leb_gt in H1. unfold FrameBuffer.qsize in *. cbn.
  rewrite length_app. cbn. lia.
Qed.

Lemma get_qsize (fb : fbuf) :
  (FrameBuffer.qsize (fst (FrameBuffer.get fb)) <= FrameBuffer.qsize fb)%Z.
Proof.
  unfold FrameBuffer.get, FrameBuffer.qsize.
  destruct (FrameBuffer.buffer fb) as [|frame rest] eqn:E; cbn -[Z.of_nat].
  - rewrite E. cbn. lia.
  - rewrite Nat2Z.inj_succ. lia.
Qed.

Lemma step_bounded (fb : fbuf) (c : FrameBuffer.call Frame) :
  (0 < FrameBuffer.maxsize fb)%Z ->
  (FrameBuffer.qsize fb <= FrameBuffer.maxsize fb)%Z ->
  (FrameBuffer.qsize (FrameBuffer.step fb c) <= FrameBuffer.maxsize fb)%Z.
Proof.
  intros Hpos Hle. destruct c; cbn [FrameBuffer.step].
  - now apply put_qsize.
  - pose proof (get_qsize fb). lia.
  - unfold FrameBuffer.qsize. cbn. lia.
  - exact Hle.
Qed.

Lemma run_bounded (calls : list (FrameBuffer.call Frame)) (fb : fbuf) :
  (0 < FrameBuffer.maxsize fb)%Z ->
  (FrameBuffer.qsize fb <= FrameBuffer.maxsize fb)%Z ->
  FrameBuffer.maxsize (FrameBuffer.run fb calls) = FrameBuffer.maxsize fb
  /\ (FrameBuffer.qsize (FrameBuffer.run fb calls)
      <= FrameBuffer.maxsize fb)%Z.
Proof.
  revert fb. induction calls as [|c calls IH]; intros fb Hpos Hle.
  - cbn. split; [reflexivity | exact Hle].
  - cbn [FrameBuffer.run fold_left].
    pose proof (step_maxsize fb c) as Hm.
    pose proof (step_bounded fb c Hpos Hle) as Hb.
    destruct (IH (FrameBuffer.step fb c)) as [IH1 IH2]; try lia.
    unfold FrameBuffer.run in *. split; lia.
Qed.

(** C2. Whatever calls were issued on a buffer of capacity [N > 0], it
    holds at most [N] frames; a [put] on a buffer holding [N] frames
    returns [False] and leaves it as it is; a [get] on an empty buffer
    returns [None] and leaves it as it is.  Both are plain function
    results: neither call waits. *)
Theorem frame_buffer_bounded (N : Z) (calls : list (FrameBuffer.call Frame)) :
  (0 < N)%Z ->
  let fb := FrameBuffer.run (FrameBuffer.init Frame N) calls in
  (FrameBuffer.qsize fb <= N)%Z
  /\ (forall frame, FrameBuffer.qsize fb = N ->
                    FrameBuffer.put fb frame = (fb, false))
  /\ (FrameBuffer.qsize fb = 0%Z -> FrameBuffer.get fb = (fb, None)).
Proof.
  intros HN fb.
  destruct (run_bounded calls (FrameBuffer.init Frame N)) as [Hm Hb];
    [exact HN | cbn; lia |].
  cbn [FrameBuffer.init FrameBuffer.maxsize] in Hm, Hb. fold fb in Hm, Hb.
  split; [exact Hb|]. split.
  - intros frame Hfull. unfold FrameBuffer.put, FrameBuffer.queue_full.
    rewrite Hm, Hfull.
    replace (0 <? N)%Z with true by (symmetry; apply Z.ltb_lt; exact HN).
    rewrite Z.leb_refl. reflexivity.
  - intros Hempty. unfold FrameBuffer.get, FrameBuffer.qsize in *.
    destruct (FrameBuffer.buffer fb); [reflexivity | cbn in Hempty; lia].
Qed.

End FrameBufferFacts.

Lemma frame_buffer_bounded_witness :
  (0 < 2)%Z
  /\ (FrameBuffer.qsize
        (FrameBuffer.run (FrameBuffer.init nat 2)
           [FrameBuffer.CPut 7%nat; FrameBuffer.CPut 8%nat;
            FrameBuffer.CPut 9%nat]) <= 2)%Z.
Proof.
  split; [lia|].
  apply (frame_buffer_bounded nat 2
           [FrameBuffer.CPut 7%nat; FrameBuffer.CPut 8%nat;
            FrameBuffer.CPut 9%nat]).
  lia.
Defined.

(** ** Progress *)

Section ProgressFacts.

Local Open Scope R_scope.

(** C8, as stated, fails: nothing clamps the percentage. *)
Lemma progress_exceeds_100 :
  VideoProcessor.progress three_of_two = 150
  /\ 100 < VideoProcessor.progress three_of_two.
Proof.
  assert (H : VideoProcessor.progress three_of_two = 150).
  { unfold VideoProcessor.progress, three_of_two. cbn. lra. }
  rewrite H. split; [reflexivity | lra].
Qed.

(** C8, amended. [progress] is [current_frame_no / total_frames * 100]
    when [total_frames > 0] and [0] otherwise; it lies in [[0, 100]]
    as long as the frame counter lies in [[0, total_frames]] and exceeds
    [100] once the counter exceeds a positive [total_frames]. *)
Theorem progress_spec (vp : VideoProcessor.t) :
  ((0 < VideoProcessor.total_frames vp)%Z ->
   VideoProcessor.progress vp
   = IZR (VideoProcessor.current_frame_no vp)
     / IZR (VideoProcessor.total_frames vp) * 100)
  /\ ((VideoProcessor.total_frames vp <= 0)%Z ->
      VideoProcessor.progress vp = 0)
  /\ ((0 <= VideoProcessor.current_frame_no vp
       <= VideoProcessor.total_frames vp)%Z ->
      0 <= VideoProcessor.progress vp <= 100)
  /\ ((0 < VideoProcessor.total_frames vp
       < VideoProcessor.current_frame_no vp)%Z ->
      100 < VideoProcessor.progress vp).
Proof.
  unfold VideoProcessor.progress.
  destruct (VideoProcessor.total_frames vp >? 0)%Z eqn:Ht.
  - apply Z.gtb_lt in Ht. pose proof (IZR_lt _ _ Ht) as Htr.
    assert (Hinv : 0 < / IZR (VideoProcessor.total_frames vp))
      by (apply Rinv_0_lt_compat; exact Htr).
    assert (Hone : IZR (VideoProcessor.total_frames vp)
                   / IZR (VideoProcessor.total_frames vp) = 1)
      by (unfold Rdiv; apply Rinv_r; lra).
    split; [reflexivity|]. split; [lia|]. split.
    + intros [Hlo Hhi]. apply IZR_le in Hlo, Hhi.
      assert (Hq : 0 <= IZR (VideoProcessor.current_frame_no vp)
                         / IZR (VideoProcessor.total_frames vp)
                   <= 1).
      { split.
        - apply Rmult_le_pos; [exact Hlo | lra].
        - rewrite <- Hone. apply Rmult_le_compat_r; [lra | exact Hhi]. }
      lra.
    + intros [_ Hgt]. apply IZR_lt in Hgt.
      assert (Hq : 1 < IZR (VideoProcessor.current_frame_no vp)
                       / IZR (VideoProcessor.total_frames vp)).
      { rewrite <- Hone. apply Rmult_lt_compat_r; [exact Hinv | exact Hgt]. }
      lra.
  - assert (VideoProcessor.total_frames vp <= 0)%Z
      by (destruct (Z.gtb_spec (VideoProcessor.total_frames vp) 0);
          [discriminate | assumption]).
    split; [lia|]. split; [reflexivity|]. split; [|lia].
    intros _. lra.
Qed.

Lemma progress_spec_witness :
  (0 < 4)%Z
  /\ VideoProcessor.progress (VideoProcessor.mk 1 1 4) = 1 / 4 * 100
  /\ 0 <= VideoProcessor.progress (VideoProcessor.mk 1 1 4) <= 100.
Proof.
  destruct (progress_spec (VideoProcessor.mk 1 1 4)) as (Heq & _ & Hin & _).
  split; [lia|]. split; [apply Heq; cbn; lia | apply Hin; cbn; lia].
Defined.

End ProgressFacts.

(** ** The detector: calibration and perspective *)

Section CalibrationFacts.

Local Open Scope R_scope.

Lemma cos_tilt_pos : 0 < cos (Detector.radians 30).
Proof.
  unfold Detector.radians. pose proof PI_RGT_0 as Hpi.
  apply cos_gt_0; lra.
Qed.

Lemma cos_tilt_le_1 : cos (Detector.radians 30) <= 1.
Proof. apply COS_bound. Qed.

Lemma scale_after_set_video_info (s : Detector.t) (w : Z) (r : R) :
  Detector.scale_m_per_px (Detector.set_video_info s w r)
  = Some (Detector.known_distance_m s
          / (IZR w * cos (Detector.radians 30))).
Proof. reflexivity. Qed.

(** C9. With a positive reference distance and a positive frame width
    [set_video_info] stores a strictly positive scale, and the scale
    stored for twice the width is half of it. *)
Theorem scale_positive_and_halves (s : Detector.t) (w : Z) (r r' : R) :
  0 < Detector.known_distance_m s ->
  (0 < w)%Z ->
  exists scale scale2 : R,
    Detector.scale_m_per_px (Detector.set_video_info s w r) = Some scale
    /\ Detector.scale_m_per_px (Detector.set_video_info s (2 * w) r')
       = Some scale2
    /\ 0 < scale
    /\ 0 < scale2
    /\ scale2 = scale / 2.
Proof.
  intros Hk Hw. pose proof cos_tilt_pos as Hc. apply IZR_lt in Hw.
  eexists. eexists.
  split; [apply scale_after_set_video_info|].
  split; [apply scale_after_set_video_info|].
  rewrite mult_IZR.
  assert (Hd : 0 < IZR w * cos (Detector.radians 30))
    by (apply Rmult_lt_0_compat; assumption).
  assert (Hd2 : 0 < 2 * IZR w * cos (Detector.radians 30))
    by (rewrite Rmult_assoc; lra).
  split; [apply Rdiv_lt_0_compat; assumption|].
  split; [apply Rdiv_lt_0_compat; assumption|].
  field. split; lra.
Qed.

Lemma scale_positive_and_halves_witness :
  0 < Detector.known_distance_m (Detector.init 10)
  /\ (0 < 1280)%Z
  /\ exists scale scale2 : R,
       Detector.scale_m_per_px
         (Detector.set_video_info (Detector.init 10) 1280 30) = Some scale
       /\ Detector.scale_m_per_px
            (Detector.set_video_info (Detector.init 10) (2 * 1280) 30)
          = Some scale2
       /\ 0 < scale
       /\ 0 < scale2
       /\ scale2 = scale / 2.
Proof.
  split; [cbn; lra|]. split; [lia|].
  apply (scale_positive_and_halves (Detector.init 10) 1280 30 30);
    [cbn; lra | lia].
Defined.

(** C4. The factor a pair of centers is scaled by is
    [1 + 0.5 * (center_y / frame_height)], [center_y] belonging to the
    later center of the pair; for a positive frame height it is [1] at
    [center_y = 0] and does not decrease as [center_y] grows. *)
Theorem perspective_factor_monotone (frame_height y1 y2 : Z) :
  (0 < frame_height)%Z ->
  (y1 <= y2)%Z ->
  (forall (s : Detector.t) (prev curr : Detector.point) (v : R),
      Detector.pair_speed s frame_height prev curr = Ok v ->
      exists scale rate : R,
        Detector.scale_m_per_px s = Some scale
        /\ Detector.fps s = Some rate
        /\ v = Detector.pixel_distance prev curr * scale
               * (1 + 0.5 * (IZR (snd curr) / IZR frame_height))
               / (1 / rate) * 3.6)
  /\ Detector.perspective_factor y1 frame_height
     = 1 + 0.5 * (IZR y1 / IZR frame_height)
  /\ Detector.perspective_factor 0 frame_height = 1
  /\ Detector.perspective_factor y1 frame_height
     <= Detector.perspective_factor y2 frame_height.
Proof.
  intros Hh Hy. apply IZR_lt in Hh. apply IZR_le in Hy.
  split; [|split; [|split]].
  - intros s prev curr v. unfold Detector.pair_speed.
    destruct (Detector.scale_m_per_px s) as [scale|]; [|discriminate].
    destruct (Detector.fps s) as [rate|]; [|discriminate].
    destruct (Req_dec_T rate 0); [discriminate|].
    intros Hv. injection Hv as <-. exists scale, rate.
    split; [reflexivity|]. split; [reflexivity|].
    unfold Detector.perspective_factor. lra.
  - unfold Detector.perspective_factor. lra.
  - unfold Detector.perspective_factor. unfold Rdiv at 1.
    rewrite Rmult_0_l. lra.
  - unfold Detector.perspective_factor.
    assert (IZR y1 / IZR frame_height <= IZR y2 / IZR frame_height).
    { apply Rmult_le_compat_r; [|exact Hy].
      left. apply Rinv_0_lt_compat. exact Hh. }
    lra.
Qed.

Lemma perspective_factor_monotone_witness :
  Detector.perspective_factor 0 720 = 1
  /\ Detector.perspective_factor 180 720
     <= Detector.perspective_factor 360 720.
Proof.
  pose proof (perspective_factor_monotone 720 180 360) as H.
  destruct H as (_ & _ & H0 & Hm); [lia | lia |].
  split; [exact H0 | exact Hm].
Defined.

End CalibrationFacts.

(** ** The detector: what a call leaves alone *)

Section DetectorFrameFacts.

Import Detector.

Lemma scan_contours_cache (s : Detector.t) (f : frame) (l : list contour) :
  forall st,
    scan_contours (cache_frame_size s f) st l = scan_contours s st l.
Proof.
  assert (Hc : forall st c,
             scan_contour (cache_frame_size s f) st c = scan_contour s st c).
  { intros st c. unfold scan_contour, cache_frame_size.
    destruct (frame_size s); [reflexivity|].
    destruct (shape_w f >? 1280)%Z; reflexivity. }
  induction l as [|c l IH]; intros st; cbn; [reflexivity|].
  rewrite Hc. destruct (scan_contour s st c); [apply IH | reflexivity].
Qed.

Lemma closest_contour_cache (s : Detector.t) (f : frame) :
  closest_contour (cache_frame_size s f) f = closest_contour s f.
Proof. unfold closest_contour. rewrite scan_contours_cache. reflexivity. Qed.

Lemma cache_frame_size_fields (s : Detector.t) (f : frame) :
  let s1 := cache_frame_size s f in
  prev_centers s1 = prev_centers s
  /\ prev_speeds s1 = prev_speeds s
  /\ scale_m_per_px s1 = scale_m_per_px s
  /\ fps s1 = fps s
  /\ show_speed s1 = show_speed s
  /\ object_selected s1 = object_selected s
  /\ selected_box s1 = selected_box s
  /\ same_settings s s1.
Proof.
  unfold cache_frame_size, same_settings.
  destruct (frame_size s); [cbn; tauto|].
  destruct (shape_w f >? 1280)%Z; cbn; tauto.
Qed.

Lemma pair_speeds_fields (s s' : Detector.t) (h : Z) :
  scale_m_per_px s' = scale_m_per_px s ->
  fps s' = fps s ->
  forall rest prev, pair_speeds s' h prev rest = pair_speeds s h prev rest.
Proof.
  intros Hs Hf. induction rest as [|c rest IH]; intros prev; cbn;
    [reflexivity|].
  unfold pair_speed. rewrite Hs, Hf, IH. reflexivity.
Qed.

Lemma all_pair_speeds_fields (s s' : Detector.t) (h : Z) (l : list point) :
  scale_m_per_px s' = scale_m_per_px s ->
  fps s' = fps s ->
  all_pair_speeds s' h l = all_pair_speeds s h l.
Proof.
  intros Hs Hf. destruct l; [reflexivity|]. cbn.
  now apply pair_speeds_fields.
Qed.

Lemma process_frame_outcome (s : Detector.t) (f : frame) :
  frame_outcome s f (fst (process_frame s f)) (snd (process_frame s f)).
Proof.
  unfold process_frame.
  destruct (cache_frame_size_fields s f)
    as (Hc & Hv & Hsc & Hfp & Hsh & Hob & Hse & Hw & Hm & _).
  rewrite closest_contour_cache.
  destruct (closest_contour s f) as [closest|e] eqn:Hcl;
    [|cbn; now constructor].
  rewrite Hob.
  destruct (object_selected s) eqn:Hsel;
    [|cbn; apply nothing_tracked with closest; [exact Hcl | now left]].
  destruct closest as [[rect center]|];
    [|cbn; apply nothing_tracked with None; [assumption | now right]].
  rewrite Hc, Hw.
  destruct (Z.of_nat (length (push_window (prev_centers s) center
                                (speed_window s))) >? 1)%Z eqn:Hlen.
  - apply Z.gtb_lt in Hlen.
    rewrite (all_pair_speeds_fields s) by (cbn; assumption).
    destruct (all_pair_speeds s (shape_h f) _) as [speeds|e] eqn:Hsp.
    + cbn [fst snd with_prev_center with_prev_speeds with_prev_centers
             prev_speeds max_speed_change speed_window show_speed].
      rewrite Hv, Hw, Hm, Hsh.
      now apply speed_computed with rect.
    + cbn [fst snd]. now apply speed_raises with rect.
  - cbn [fst snd]. apply first_center with rect; try assumption.
    destruct (Z.gtb_spec (Z.of_nat (length (push_window (prev_centers s)
                            center (speed_window s)))) 1); [discriminate|lia].
Qed.

End DetectorFrameFacts.

(** ** The detector: sliding windows *)

Section WindowFacts.

Import Detector.

Lemma push_window_length {A : Type} (l : list A) (x : A) (w : Z) :
  (Z.of_nat (length l) <= w)%Z ->
  (Z.of_nat (length (push_window l x w)) <= w)%Z.
Proof.
  intros Hl. unfold push_window.
  destruct (Z.gtb_spec (Z.of_nat (length (l ++ [x]))) w) as [Hgt|Hle];
    [|exact Hle].
  rewrite length_app in Hgt. cbn [length] in Hgt.
  destruct l as [|y l]; cbn [app tl length] in *; [lia|].
  rewrite length_app. cbn [length]. lia.
Qed.

Lemma push_window_slides {A : Type} (l : list A) (x : A) (w : nat) :
  (0 < w)%nat ->
  (length l <= w)%nat ->
  slides w l (push_window l x (Z.of_nat w)).
Proof.
  intros Hw Hl. unfold push_window, slides. right.
  destruct (Z.gtb_spec (Z.of_nat (length (l ++ [x]))) (Z.of_nat w))
    as [Hgt|Hle]; rewrite length_app in *; cbn [length] in *.
  - right. exists x. split; [lia|].
    destruct l as [|y l]; [cbn in *; lia | reflexivity].
  - left. exists x. split; [lia | reflexivity].
Qed.

Lemma windowed_init (kd : R) : windowed (init kd).
Proof. unfold windowed. cbn. repeat split; lia. Qed.

Lemma process_frame_windowed (s : Detector.t) (f : frame) :
  windowed s ->
  windowed (fst (process_frame s f))
  /\ slides 5 (prev_centers s) (prev_centers (fst (process_frame s f)))
  /\ slides 5 (prev_speeds s) (prev_speeds (fst (process_frame s f))).
Proof.
  intros (Hw & Hc & Hv).
  destruct (cache_frame_size_fields s f)
    as (Hc1 & Hv1 & _ & _ & _ & _ & _ & Hw1 & _).
  assert (Hpc : forall c : point,
             (length (push_window (prev_centers s) c (speed_window s)) <= 5)%nat
             /\ slides 5 (prev_centers s)
                  (push_window (prev_centers s) c (speed_window s))).
  { intros c. rewrite Hw. split.
    - pose proof (push_window_length (prev_centers s) c 5). lia.
    - apply (push_window_slides (prev_centers s) c 5); lia. }
  assert (Hpv : forall v : R,
             (length (push_window (prev_speeds s) v (speed_window s)) <= 5)%nat
             /\ slides 5 (prev_speeds s)
                  (push_window (prev_speeds s) v (speed_window s))).
  { intros v. rewrite Hw. split.
    - pose proof (push_window_length (prev_speeds s) v 5). lia.
    - apply (push_window_slides (prev_speeds s) v 5); lia. }
  unfold windowed.
  destruct (process_frame_outcome s f);
    cbn [prev_centers prev_speeds speed_window with_prev_center
           with_prev_speeds with_prev_centers];
    rewrite ?Hc1, ?Hv1, ?Hw1.
  - repeat split; try assumption; now left.
  - repeat split; try assumption; now left.
  - destruct (Hpc center). repeat split; try assumption. now left.
  - destruct (Hpc center). repeat split; try assumption. now left.
  - destruct (Hpc center). destruct (Hpv speed_kmh).
    repeat split; assumption.
Qed.

Lemma step_windowed (s : Detector.t) (c : call) :
  windowed s -> windowed (step s c).
Proof.
  intros H. destruct c as [w r|e x y|b|f]; cbn [step].
  - exact H.
  - unfold select_object. destruct (e =? EVENT_LBUTTONDOWN)%Z; exact H.
  - exact H.
  - now apply process_frame_windowed.
Qed.

Lemma run_windowed (calls : list call) (s : Detector.t) :
  windowed s -> windowed (run s calls).
Proof.
  revert s. induction calls as [|c calls IH]; intros s H; [exact H|].
  cbn. apply IH. now apply step_windowed.
Qed.

(** C5. Whatever calls a detector received since [__init__], after a
    further [process_frame] both histories hold at most [speed_window =
    5] entries; the call left each history as it was or appended one
    entry, dropping the oldest entry when the history already held
    five. *)
Theorem histories_bounded (kd : R) (calls : list call) (f : frame) :
  let s := run (init kd) calls in
  let s' := fst (process_frame s f) in
  speed_window s' = 5%Z
  /\ (length (prev_centers s') <= 5)%nat
  /\ (length (prev_speeds s') <= 5)%nat
  /\ slides 5 (prev_centers s) (prev_centers s')
  /\ slides 5 (prev_speeds s) (prev_speeds s').
Proof.
  intros s s'.
  destruct (process_frame_windowed (run (init kd) calls) f)
    as ((Hw & Hc & Hv) & Hsc & Hsv).
  - apply run_windowed, windowed_init.
  - repeat split; assumption.
Qed.

End WindowFacts.

(** ** The detector: frames without a match *)

Section NoMatchFacts.

Import Detector.

Lemma scan_contours_keeps_candidate (s : Detector.t) (l : list contour) :
  forall st st',
    fst st <> None -> scan_contours s st l = Ok st' -> fst st' <> None.
Proof.
  induction l as [|c l IH]; intros st st' Hst; cbn.
  - intros [= <-]. exact Hst.
  - destruct (scan_contour s st c) as [st1|e] eqn:Hc; [|discriminate].
    apply IH. revert Hc. unfold scan_contour.
    destruct (Rgt_dec (contourArea c) (min_contour_area s));
      [|intros [= <-]; exact Hst].
    destruct (object_selected s); [|intros [= <-]; exact Hst].
    destruct (selected_box s) as [[sel_x sel_y]|]; [|discriminate].
    destruct (match snd st with Some min_dist => _ | None => true end);
      intros [= <-]; [discriminate | exact Hst].
Qed.

Lemma scan_contours_none (s : Detector.t) (box : point) (l : list contour) :
  object_selected s = true ->
  selected_box s = Some box ->
  ((exists st, scan_contours s (None, None) l = Ok st /\ fst st = None)
   <-> Forall (fun c => (contourArea c <= min_contour_area s)%R) l).
Proof.
  intros Hsel Hbox. induction l as [|c l IH].
  - split; [constructor|]. intros _. exists (None, None). now split.
  - cbn [scan_contours]. unfold scan_contour.
    rewrite Hsel, Hbox. destruct box as [sel_x sel_y]. cbn [snd].
    destruct (Rgt_dec (contourArea c) (min_contour_area s)) as [Hgt|Hle].
    + split.
      * intros (st & Hst & Hnone). exfalso.
        apply (scan_contours_keeps_candidate s l _ st) in Hst;
          [contradiction | discriminate].
      * intros HF. inversion HF; subst. lra.
    + split.
      * intros H. constructor; [lra|]. now apply IH.
      * intros HF. inversion HF; subst. now apply IH.
Qed.

Lemma closest_contour_none (s : Detector.t) (box : point) (f : frame) :
  object_selected s = true ->
  selected_box s = Some box ->
  (closest_contour s f = Ok None
   <-> Forall (fun c => (contourArea c <= min_contour_area s)%R)
              (firstn 5 (sorted_by_area (found_contours f)))).
Proof.
  intros Hsel Hbox.
  rewrite <- (scan_contours_none s box _ Hsel Hbox).
  unfold closest_contour.
  destruct (scan_contours s (None, None) _) as [st|e].
  - split.
    + intros [= H]. now exists st.
    + intros (st' & [= <-] & H). now rewrite H.
  - split; [discriminate|]. intros (st' & H' & _). discriminate.
Qed.

(** C6. For a detector that tracks a selected point: no contour is
    chosen exactly when none of the five largest contours exceeds the
    minimum area; a frame without a chosen contour returns [None] as the
    speed and leaves both histories as they were; and whenever
    [process_frame] returns with fewer than two centers in the position
    history, the speed it returns is [None]. *)
Theorem no_match_no_speed (s : Detector.t) (f : frame) (box : point) :
  object_selected s = true ->
  selected_box s = Some box ->
  let s' := fst (process_frame s f) in
  (closest_contour s f = Ok None
   <-> Forall (fun c => (contourArea c <= min_contour_area s)%R)
              (firstn 5 (sorted_by_area (found_contours f))))
  /\ (closest_contour s f = Ok None ->
      snd (process_frame s f) = Ok (NoLabel, None)
      /\ prev_centers s' = prev_centers s
      /\ prev_speeds s' = prev_speeds s)
  /\ (forall lbl speed,
         snd (process_frame s f) = Ok (lbl, speed) ->
         (length (prev_centers s') < 2)%nat ->
         speed = None).
Proof.
  intros Hsel Hbox s'. subst s'.
  destruct (cache_frame_size_fields s f) as (Hc1 & Hv1 & _).
  split; [now apply closest_contour_none with box|]. split.
  - intros Hnone.
    destruct (process_frame_outcome s f); try congruence.
    now rewrite Hc1, Hv1.
  - intros lbl speed.
    destruct (process_frame_outcome s f);
      cbn [prev_centers with_prev_center with_prev_speeds with_prev_centers];
      intros Hret Hlen; try congruence. lia.
Qed.

End NoMatchFacts.

(** ** The detector: rate limiting *)

Section RateLimitFacts.

Import Detector.
Local Open Scope R_scope.

Lemma last_opt_app {A : Type} (l : list A) (x : A) :
  last_opt (l ++ [x]) = Some x.
Proof.
  induction l as [|y l IH]; [reflexivity|].
  cbn [app last_opt]. destruct (l ++ [x]) eqn:E; [discriminate | exact IH].
Qed.

Lemma last_opt_tl {A : Type} (l : list A) :
  (2 <= length l)%nat -> last_opt (tl l) = last_opt l.
Proof.
  destruct l as [|x [|y l]]; cbn [length]; try lia. reflexivity.
Qed.

Lemma last_opt_push_window {A : Type} (l : list A) (x : A) (w : Z) :
  (0 < w)%Z -> last_opt (push_window l x w) = Some x.
Proof.
  intros Hw. unfold push_window.
  destruct (Z.gtb_spec (Z.of_nat (length (l ++ [x]))) w) as [Hgt|Hle].
  - rewrite last_opt_tl; [apply last_opt_app | lia].
  - apply last_opt_app.
Qed.

Lemma sign_cases (x : R) :
  (x < 0 /\ sign x = -1) \/ (x = 0 /\ sign x = 0) \/ (0 < x /\ sign x = 1).
Proof.
  unfold sign. destruct (Rlt_dec x 0); [left; now split|].
  destruct (Rlt_dec 0 x); [right; right; now split|].
  right; left. split; [lra | reflexivity].
Qed.






(** What [process_frame] returns and stores when it returns a speed. *)
Lemma returned_speed (s : Detector.t) (f : frame) (lbl : label) (v : R) :
  snd (process_frame s f) = Ok (lbl, Some v) ->
  exists speeds,
    all_pair_speeds s (shape_h f) (prev_centers (fst (process_frame s f)))
    = Ok speeds
    /\ v = rate_limit (prev_speeds s) (max_speed_change s)
                      (weighted_speed speeds)
    /\ prev_speeds (fst (process_frame s f))
       = push_window (prev_speeds s) v (speed_window s)
    /\ lbl = (if show_speed s
              then SpeedLabel (median (prev_speeds (fst (process_frame s f))))
              else NoLabel).
Proof.
  destruct (process_frame_outcome s f);
    cbn [prev_centers prev_speeds with_prev_center with_prev_speeds
           with_prev_centers];
    intros Hret; try discriminate.
  injection Hret as Hl Hv. subst v lbl. exists speeds.
  repeat split; try reflexivity. assumption.
Qed.


End RateLimitFacts.

(** ** The detector: rate limiting in binary64 *)

Section Binary64Facts.

Import PrimFloat.
Local Open Scope R_scope.





End Binary64Facts.

(** ** The detector: a car that stands, then moves *)

Section ScenarioFacts.

Import Detector.
Local Open Scope R_scope.

Lemma cache_frame_size_small (s : Detector.t) (f : frame) :
  (shape_w f <= 1280)%Z -> cache_frame_size s f = s.
Proof.
  intros Hw. unfold cache_frame_size.
  destruct (frame_size s); [reflexivity|].
  destruct (Z.gtb_spec (shape_w f) 1280); [lia | reflexivity].
Qed.

Lemma process_frame_first_center (s : Detector.t) (f : frame)
  (rect : Z * Z * Z * Z) (center : point) :
  closest_contour s f = Ok (Some (rect, center)) ->
  object_selected s = true ->
  (Z.of_nat (length (push_window (prev_centers s) center (speed_window s)))
   <= 1)%Z ->
  process_frame s f
  = (with_prev_center
       (with_prev_centers (cache_frame_size s f)
          (push_window (prev_centers s) center (speed_window s)))
       center,
     Ok (NoLabel, None)).
Proof.
  intros Hcl Hsel Hlen. rewrite (surjective_pairing (process_frame s f)).
  destruct (process_frame_outcome s f) as [e H|c H H0|r c H H0 H1
                                          |r c e H H0 H1 H2|r c v H H0 H1 H2];
    rewrite Hcl in H; try discriminate.
  - destruct H0; congruence.
  - injection H as <- <-. reflexivity.
  - injection H as <- <-. lia.
  - injection H as <- <-. lia.
Qed.

Lemma process_frame_speed (s : Detector.t) (f : frame)
  (rect : Z * Z * Z * Z) (center : point) (speeds : list R) :
  closest_contour s f = Ok (Some (rect, center)) ->
  object_selected s = true ->
  (1 < Z.of_nat
         (length (push_window (prev_centers s) center (speed_window s))))%Z ->
  all_pair_speeds s (shape_h f)
    (push_window (prev_centers s) center (speed_window s)) = Ok speeds ->
  process_frame s f
  = (with_prev_center
       (with_prev_speeds
          (with_prev_centers (cache_frame_size s f)
             (push_window (prev_centers s) center (speed_window s)))
          (push_window (prev_speeds s)
             (rate_limit (prev_speeds s) (max_speed_change s)
                (weighted_speed speeds))
             (speed_window s)))
       center,
     Ok ((if show_speed s
          then SpeedLabel
                 (median
                    (push_window (prev_speeds s)
                       (rate_limit (prev_speeds s) (max_speed_change s)
                          (weighted_speed speeds))
                       (speed_window s)))
          else NoLabel),
         Some (rate_limit (prev_speeds s) (max_speed_change s)
                 (weighted_speed speeds)))).
Proof.
  intros Hcl Hsel Hlen Hsp. rewrite (surjective_pairing (process_frame s f)).
  destruct (process_frame_outcome s f) as [e H|c H H0|r c H H0 H1
                                          |r c e H H0 H1 H2|r c v H H0 H1 H2];
    rewrite Hcl in H; try discriminate.
  - destruct H0; congruence.
  - injection H as <- <-. lia.
  - injection H as <- <-. congruence.
  - injection H as <- <-. rewrite Hsp in H2. injection H2 as <-.
    reflexivity.
Qed.

Lemma closest_contour_car (s : Detector.t) (x : Z) (box : point) :
  object_selected s = true ->
  selected_box s = Some box ->
  min_contour_area s = 500 ->
  closest_contour s (car_at x)
  = Ok (Some ((x, 340, 40, 40)%Z, ((x + 20)%Z, 360%Z))).
Proof.
  intros Hsel Hbox Hmin. unfold closest_contour, car_at.
  cbn [found_contours sorted_by_area fold_right insert_by_area firstn
         scan_contours].
  unfold scan_contour. cbn [contourArea boundingRect]. rewrite Hsel, Hbox, Hmin.
  destruct (Rgt_dec 1600 500) as [_|Hn]; [|exfalso; lra].
  destruct box as [sel_x sel_y]. cbn [snd fst]. reflexivity.
Qed.

Lemma pair_speed_value (s : Detector.t) (h : Z) (prev curr : point)
  (scale rate : R) :
  scale_m_per_px s = Some scale ->
  fps s = Some rate ->
  rate <> 0 ->
  pair_speed s h prev curr
  = Ok (pixel_distance prev curr * scale * perspective_factor (snd curr) h
        / (1 / rate) * (36 / 10)).
Proof.
  intros Hs Hf Hr. unfold pair_speed. rewrite Hs, Hf.
  destruct (Req_dec_T rate 0); [contradiction | reflexivity].
Qed.

Lemma pixel_distance_same (p : point) : pixel_distance p p = 0.
Proof.
  unfold pixel_distance. rewrite !Z.sub_diag. cbn. apply sqrt_0.
Qed.

Lemma pixel_distance_30 : pixel_distance (90, 360)%Z (120, 360)%Z = 30.
Proof.
  unfold pixel_distance. cbn.
  replace 900 with (30 * 30) by lra. apply sqrt_square. lra.
Qed.

Lemma scale_1280_bounds : 10 / 1280 <= scale_1280.
Proof.
  unfold scale_1280. pose proof cos_tilt_pos as Hp.
  pose proof cos_tilt_le_1 as Hl.
  apply Rmult_le_reg_r with (1280 * cos (radians 30)); [lra|].
  unfold Rdiv at 2. rewrite Rmult_assoc, Rinv_l by lra. lra.
Qed.

Lemma tracking_clicked :
  tracking
    (select_object (set_video_info (init 10) 1280 30)
       EVENT_LBUTTONDOWN 120 360) [] [].
Proof. unfold tracking. cbn. repeat split; reflexivity. Qed.

Lemma tracking_first (s : Detector.t) :
  tracking s [] [] ->
  process_frame s (car_at 70)
  = (with_prev_center (with_prev_centers s [(90, 360)%Z]) (90, 360)%Z,
     Ok (NoLabel, None)).
Proof.
  intros (Hc & Hv & Hsc & Hf & Hsh & Hsel & Hbox & Hw & Hm & Hmin).
  rewrite (process_frame_first_center s (car_at 70) (70, 340, 40, 40)%Z
             (90, 360)%Z).
  - rewrite cache_frame_size_small by (cbn; lia). rewrite Hc, Hw. reflexivity.
  - now apply closest_contour_car with (120, 360)%Z.
  - exact Hsel.
  - rewrite Hc, Hw. cbn. lia.
Qed.

Lemma tracking_second (s : Detector.t) :
  tracking s [(90, 360)%Z] [] ->
  process_frame s (car_at 70)
  = (with_prev_center
       (with_prev_speeds
          (with_prev_centers s [(90, 360)%Z; (90, 360)%Z]) [0])
       (90, 360)%Z,
     Ok (SpeedLabel (Some 0), Some 0)).
Proof.
  intros (Hc & Hv & Hsc & Hf & Hsh & Hsel & Hbox & Hw & Hm & Hmin).
  assert (Hsp : all_pair_speeds s 720 [(90, 360)%Z; (90, 360)%Z] = Ok [0]).
  { cbn [all_pair_speeds pair_speeds].
    rewrite (pair_speed_value s 720 _ _ scale_1280 30 Hsc Hf) by lra.
    rewrite pixel_distance_same. do 2 f_equal. unfold Rdiv. ring. }
  assert (Hw0 : weighted_speed [0] = 0).
  { unfold weighted_speed, average. cbn. lra. }
  rewrite (process_frame_speed s (car_at 70) (70, 340, 40, 40)%Z
             (90, 360)%Z [0]).
  - rewrite cache_frame_size_small by (cbn; lia).
    rewrite Hc, Hv, Hw, Hsh, Hw0. reflexivity.
  - now apply closest_contour_car with (120, 360)%Z.
  - exact Hsel.
  - rewrite Hc, Hw. cbn. lia.
  - rewrite Hc, Hw. exact Hsp.
Qed.

Lemma weighted_speed_two (a b : R) :
  weighted_speed [a; b] = (a * (5 / 10) + b * 1) / (5 / 10 + 1).
Proof. unfold weighted_speed, average. cbn. f_equal; field. Qed.

Lemma rate_limit_jump (v : R) :
  15 < v -> rate_limit [0] 10 (weighted_speed [0; v]) = 10.
Proof.
  intros Hv. rewrite weighted_speed_two. unfold rate_limit. cbn [last_opt].
  assert (Hw : 10 < (0 * (5 / 10) + v * 1) / (5 / 10 + 1) - 0).
  { apply Rmult_lt_reg_r with (5 / 10 + 1); [lra|].
    unfold Rminus, Rdiv. rewrite Ropp_0, Rplus_0_r.
    rewrite Rmult_assoc, Rinv_l by lra. lra. }
  destruct (Rgt_dec _ 10) as [_|Hn].
  - destruct (sign_cases ((0 * (5 / 10) + v * 1) / (5 / 10 + 1) - 0))
      as [[H _]|[[H _]|[_ ->]]]; lra.
  - exfalso. apply Hn. rewrite Rabs_right; lra.
Qed.

Lemma median_pair (a b : R) : a <= b -> median [a; b] = Some ((a + b) / 2).
Proof.
  intros Hab. unfold median, sort_asc. cbn [fold_right insert_asc].
  destruct (Rle_dec a b); [reflexivity | contradiction].
Qed.

Lemma tracking_third (s : Detector.t) :
  tracking s [(90, 360)%Z; (90, 360)%Z] [0] ->
  process_frame s (car_at 100)
  = (with_prev_center
       (with_prev_speeds
          (with_prev_centers s [(90, 360)%Z; (90, 360)%Z; (120, 360)%Z])
          [0; 10])
       (120, 360)%Z,
     Ok (SpeedLabel (Some 5), Some 10)).
Proof.
  intros (Hc & Hv & Hsc & Hf & Hsh & Hsel & Hbox & Hw & Hm & Hmin).
  set (v := 30 * scale_1280 * perspective_factor 360 720 / (1 / 30)
            * (36 / 10)).
  assert (Hsp : all_pair_speeds s 720
                  [(90, 360)%Z; (90, 360)%Z; (120, 360)%Z] = Ok [0; v]).
  { cbn [all_pair_speeds pair_speeds].
    rewrite !(pair_speed_value s 720 _ _ scale_1280 30 Hsc Hf) by lra.
    rewrite pixel_distance_same, pixel_distance_30.
    do 2 f_equal. unfold Rdiv. ring. }
  assert (Hv15 : 15 < v).
  { pose proof scale_1280_bounds as Hb. subst v.
    unfold perspective_factor.
    replace (30 * scale_1280 * (1 + 360 / 720 * (5 / 10)) / (1 / 30)
             * (36 / 10)) with (4050 * scale_1280) by field.
    lra. }
  rewrite (process_frame_speed s (car_at 100) (100, 340, 40, 40)%Z
             (120, 360)%Z [0; v]).
  - rewrite cache_frame_size_small by (cbn; lia).
    rewrite Hc, Hv, Hw, Hsh, Hm, rate_limit_jump by exact Hv15.
    change (push_window [0] 10 5) with [0; 10].
    rewrite median_pair by lra.
    replace ((0 + 10) / 2) with 5 by lra. reflexivity.
  - now apply closest_contour_car with (120, 360)%Z.
  - exact Hsel.
  - rewrite Hc, Hw. cbn. lia.
  - rewrite Hc, Hw. exact Hsp.
Qed.

Lemma tracking_standing : tracking standing [(90, 360)%Z; (90, 360)%Z] [0].
Proof.
  unfold standing, approach, run. cbn [fold_left step].
  rewrite (tracking_first _ tracking_clicked). cbn [fst].
  rewrite tracking_second.
  - unfold tracking. cbn. repeat split; reflexivity.
  - unfold tracking. cbn. repeat split; reflexivity.
Qed.

Lemma standing_then_moving :
  process_frame standing (car_at 100)
  = (with_prev_center
       (with_prev_speeds
          (with_prev_centers standing
             [(90, 360)%Z; (90, 360)%Z; (120, 360)%Z])
          [0; 10])
       (120, 360)%Z,
     Ok (SpeedLabel (Some 5), Some 10)).
Proof. apply tracking_third, tracking_standing. Qed.

Lemma median_example : median [10; 12; 11; 50; 11] = Some 11.
Proof.
  unfold median, sort_asc. cbn [fold_right insert_asc].
  repeat match goal with
         | |- context [Rle_dec ?a ?b] =>
             destruct (Rle_dec a b); [try (exfalso; lra) | try (exfalso; lra)];
             cbn [insert_asc]
         end.
  reflexivity.
Qed.

(** C1, as stated, fails: the second component [process_frame] returns
    is the rate-limited speed it appended, here [10], and the median of
    the history [[0; 10]], here [5], is only written on the frame. *)
Lemma returned_speed_is_not_the_median :
  snd (process_frame standing (car_at 100))
  = Ok (SpeedLabel (Some 5), Some 10)
  /\ prev_speeds (fst (process_frame standing (car_at 100))) = [0; 10]
  /\ median (prev_speeds (fst (process_frame standing (car_at 100))))
     = Some 5
  /\ Some 10 <> Some 5.
Proof.
  rewrite standing_then_moving. cbn [fst snd prev_speeds with_prev_center
                                      with_prev_speeds].
  split; [reflexivity|]. split; [reflexivity|]. split.
  - rewrite median_pair by lra. f_equal. lra.
  - intros [= H]. lra.
Qed.

(** C1, amended. For a detector used since [__init__], whenever
    [process_frame] returns a speed, the speed written on the frame (when
    [show_speed] is set) is the median of the speed history after the
    append, and the speed returned is the value that was appended, the
    last entry of that history; the median of [[10; 12; 11; 50; 11]] is
    [11]. *)
Theorem label_shows_median (kd : R) (calls : list call) (f : frame)
  (lbl : label) (v : R) :
  let s := run (init kd) calls in
  let s' := fst (process_frame s f) in
  snd (process_frame s f) = Ok (lbl, Some v) ->
  lbl = (if show_speed s then SpeedLabel (median (prev_speeds s'))
         else NoLabel)
  /\ last_opt (prev_speeds s') = Some v
  /\ median [10; 12; 11; 50; 11] = Some 11.
Proof.
  intros s s' Hret.
  destruct (returned_speed s f lbl v Hret) as (_ & _ & _ & Hh & Hl).
  split; [exact Hl|]. split; [|exact median_example].
  fold s' in Hh. rewrite Hh. apply last_opt_push_window.
  destruct (run_windowed calls (init kd) (windowed_init kd)) as (Hw & _).
  fold s in Hw. rewrite Hw. lia.
Qed.

Lemma label_shows_median_witness :
  SpeedLabel (Some 5)
  = (if show_speed standing
     then SpeedLabel
            (median (prev_speeds (fst (process_frame standing (car_at 100)))))
     else NoLabel)
  /\ last_opt (prev_speeds (fst (process_frame standing (car_at 100))))
     = Some 10
  /\ median [10; 12; 11; 50; 11] = Some 11.
Proof.
  apply (label_shows_median 10 approach (car_at 100) (SpeedLabel (Some 5)) 10).
  fold standing. rewrite standing_then_moving. reflexivity.
Defined.


Lemma no_match_no_speed_witness :
  snd (process_frame standing ripple) = Ok (NoLabel, None)
  /\ prev_centers (fst (process_frame standing ripple))
     = prev_centers standing
  /\ prev_speeds (fst (process_frame standing ripple))
     = prev_speeds standing.
Proof.
  destruct tracking_standing
    as (_ & _ & _ & _ & _ & Hsel & Hbox & _ & _ & Hmin).
  destruct (no_match_no_speed standing ripple (120, 360)%Z Hsel Hbox)
    as (Hiff & Hnone & _).
  apply Hnone, Hiff. cbn [ripple found_contours sorted_by_area fold_right
                           insert_by_area firstn].
  constructor; [|constructor]. cbn [contourArea]. rewrite Hmin. lra.
Defined.

End ScenarioFacts.

(** ** Dictionaries *)

Section DictFacts.

Variables (K V : Type) (eqb : K -> K -> bool).
Hypothesis eqb_spec : forall a b, reflect (a = b) (eqb a b).

Lemma dict_get_In (d : list (K * V)) (k : K) (v : V) :
  dict_get eqb d k = Some v -> In (k, v) d.
Proof.
  induction d as [|[k' v'] d IH]; cbn; [discriminate|].
  destruct (eqb_spec k k') as [->|Hne].
  - intros [= ->]. now left.
  - intros H. right. now apply IH.
Qed.

Lemma dict_set_In (d : list (K * V)) (k : K) (v : V) (e : K * V) :
  In e (dict_set eqb d k v) -> e = (k, v) \/ In e d.
Proof.
  induction d as [|[k' v'] d IH]; cbn.
  - intros [<-|[]]. now left.
  - destruct (eqb_spec k k') as [->|Hne]; cbn.
    + intros [<-|H]; [now left | right; now right].
    + intros [<-|H]; [right; now left|].
      destruct (IH H) as [->|H']; [now left | right; now right].
Qed.

Lemma dict_get_set_same (d : list (K * V)) (k : K) (v : V) :
  dict_get eqb (dict_set eqb d k v) k = Some v.
Proof.
  induction d as [|[k' v'] d IH]; cbn.
  - destruct (eqb_spec k k); [reflexivity | contradiction].
  - destruct (eqb_spec k k') as [->|Hne]; cbn.
    + destruct (eqb_spec k' k'); [reflexivity | contradiction].
    + destruct (eqb_spec k k'); [contradiction | exact IH].
Qed.

Lemma dict_get_set_other (d : list (K * V)) (k k' : K) (v : V) :
  k' <> k -> dict_get eqb (dict_set eqb d k v) k' = dict_get eqb d k'.
Proof.
  intros Hne. induction d as [|[k0 v0] d IH]; cbn.
  - destruct (eqb_spec k' k); [contradiction | reflexivity].
  - destruct (eqb_spec k k0) as [->|Hk]; cbn.
    + destruct (eqb_spec k' k0); [contradiction | reflexivity].
    + destruct (eqb_spec k' k0); [reflexivity | exact IH].
Qed.

End DictFacts.

(** ** The tracker: tracks without a speed *)

Section StatisticsFacts.

Import Tracker.

Lemma vehicle_key_inj (a b : nat) : vehicle_key a = vehicle_key b -> a = b.
Proof.
  unfold vehicle_key. cbn [append]. intros [= H].
  apply Unsigned.to_uint_inj.
  assert (Hs : Some (Nat.to_uint a) = Some (Nat.to_uint b))
    by (rewrite <- !NilEmpty.usu, H; reflexivity).
  now injection Hs.
Qed.

Lemma get_speed_statistics_fold (trk : Tracker.t) :
  get_speed_statistics trk = fold_left add_statistics (vehicles trk) [].
Proof.
  unfold get_speed_statistics. generalize (@nil (string * stats_entry)).
  induction (vehicles trk) as [|[vid tr] l IH]; intros acc; [reflexivity|].
  cbn [fold_left]. rewrite IH. f_equal.
Qed.

Lemma statistics_skip (l : list (nat * VehicleTrack)) (vid : nat) :
  ~ In vid (dict_keys l) ->
  forall acc,
    dict_get String.eqb (fold_left add_statistics l acc) (vehicle_key vid)
    = dict_get String.eqb acc (vehicle_key vid).
Proof.
  induction l as [|[vid' tr'] l IH]; intros Hn acc; [reflexivity|].
  cbn [dict_keys map fst In] in Hn. cbn [fold_left]. rewrite IH by tauto.
  unfold add_statistics. cbn [fst snd].
  destruct (speeds tr'); [reflexivity|].
  apply dict_get_set_other; [exact String.eqb_spec|].
  intros H. apply vehicle_key_inj in H. subst. tauto.
Qed.

Lemma statistics_lookup (l : list (nat * VehicleTrack)) (vid : nat)
  (tr : VehicleTrack) :
  NoDup (dict_keys l) ->
  In (vid, tr) l ->
  forall acc,
    dict_get String.eqb (fold_left add_statistics l acc) (vehicle_key vid)
    = match speeds tr with
      | [] => dict_get String.eqb acc (vehicle_key vid)
      | _ :: _ =>
          Some {| stat_current := current_speed tr;
                  stat_average := average_speed tr;
                  stat_max := max_speed tr |}
      end.
Proof.
  induction l as [|[vid' tr'] l IH]; intros Hnd Hin acc; [destruct Hin|].
  cbn [dict_keys map fst] in Hnd. inversion Hnd as [|? ? Hnotin Hnd']; subst.
  cbn [fold_left]. destruct Hin as [[= -> ->]|Hin].
  - rewrite statistics_skip by exact Hnotin.
    unfold add_statistics. cbn [fst snd].
    destruct (speeds tr); [reflexivity|].
    apply dict_get_set_same. exact String.eqb_spec.
  - rewrite (IH Hnd' Hin). destruct (speeds tr); [|reflexivity].
    unfold add_statistics. cbn [fst snd].
    destruct (speeds tr'); [reflexivity|].
    apply dict_get_set_other; [exact String.eqb_spec|].
    intros H. apply vehicle_key_inj in H. subst.
    apply Hnotin. change vid' with (fst (vid', tr)).
    apply in_map. exact Hin.
Qed.

(** C10. A track without a recorded speed has no current, average or
    maximum speed ([None], no exception), and the statistics of a
    tracker have an entry for a track exactly when the track has a
    recorded speed; the entry holds the three speeds of the track. *)
Theorem statistics_only_for_tracks_with_speed (trk : Tracker.t) :
  NoDup (dict_keys (vehicles trk)) ->
  (forall tr : VehicleTrack,
      speeds tr = [] ->
      current_speed tr = None
      /\ average_speed tr = None
      /\ max_speed tr = None)
  /\ (forall vid tr,
         In (vid, tr) (vehicles trk) ->
         (speeds tr = [] ->
          dict_get String.eqb (get_speed_statistics trk) (vehicle_key vid)
          = None)
         /\ (speeds tr <> [] ->
             dict_get String.eqb (get_speed_statistics trk) (vehicle_key vid)
             = Some {| stat_current := current_speed tr;
                       stat_average := average_speed tr;
                       stat_max := max_speed tr |}))
  /\ (forall key entry,
         dict_get String.eqb (get_speed_statistics trk) key = Some entry ->
         exists vid tr,
           In (vid, tr) (vehicles trk)
           /\ key = vehicle_key vid
           /\ speeds tr <> []).
Proof.
  intros Hnd. split; [|split].
  - intros tr Hs. unfold current_speed, average_speed, max_speed.
    rewrite Hs. repeat split; reflexivity.
  - intros vid tr Hin. rewrite get_speed_statistics_fold.
    rewrite (statistics_lookup _ vid tr Hnd Hin). split.
    + intros ->. reflexivity.
    + intros Hne. destruct (speeds tr); [contradiction | reflexivity].
  - intros key entry. rewrite get_speed_statistics_fold.
    assert (Hgen : forall l acc,
               dict_get String.eqb (fold_left add_statistics l acc) key
               = Some entry ->
               dict_get String.eqb acc key = Some entry
               \/ exists vid tr,
                   In (vid, tr) l /\ key = vehicle_key vid
                   /\ speeds tr <> []).
    { induction l as [|[vid tr] l IH]; intros acc H; [now left|].
      cbn [fold_left] in H. destruct (IH _ H) as [Hacc|(v & t & Hi & Hk & Hs)].
      - unfold add_statistics in Hacc. cbn [fst snd] in Hacc.
        destruct (speeds tr) as [|x xs] eqn:Hsp; [now left|].
        destruct (String.eqb_spec key (vehicle_key vid)) as [->|Hne].
        + right. exists vid, tr. split; [now left|]. split; [reflexivity|].
          rewrite Hsp. discriminate.
        + left. rewrite dict_get_set_other in Hacc;
            [exact Hacc | exact String.eqb_spec | exact Hne].
      - right. exists v, t. split; [now right | now split]. }
    intros H. destruct (Hgen _ _ H) as [Habs|Hex]; [discriminate | exact Hex].
Qed.

End StatisticsFacts.

(** ** The tracker: what a pass does to a track *)

Section TrackerGrowth.

Import Tracker.
Local Open Scope R_scope.

Lemma record_position_appends (tr : VehicleTrack) (c : position) (now : R) :
  positions (fst (record_position tr c now)) = positions tr ++ [c]
  /\ timestamps (fst (record_position tr c now)) = timestamps tr ++ [now].
Proof.
  unfold record_position.
  destruct (2 <=? length (positions tr ++ [c]))%nat; [|now split].
  destruct (last_two (timestamps tr ++ [now])) as [[t2 t1]|]; [|now split].
  destruct (last_two (positions tr ++ [c])) as [[p2 p1]|]; [|now split].
  destruct (Rltb 0 (t1 - t2)); now split.
Qed.

Lemma retain_incl (clock : nat -> R) (matched : list nat)
  (vs : list (nat * VehicleTrack)) :
  forall k, incl (fst (retain clock matched vs k)) vs.
Proof.
  induction vs as [|[vid tr] vs IH]; intros k; cbn [retain];
    [apply incl_refl|].
  specialize (IH (S k)).
  destruct (retain clock matched vs (S k)) as [rest k']. cbn [fst] in *.
  destruct (is_active (clock k) tr 1 || existsb (Nat.eqb vid) matched).
  - intros e [<-|He]; [now left | right; now apply IH].
  - intros e He. right. now apply IH.
Qed.

End TrackerGrowth.

(** ** The tracker: one car, then two blobs on it; two cars, one blob each *)

Section TrackerScenario.

Import Tracker.
Local Open Scope R_scope.

Lemma is_active_soon (now : R) (tr : VehicleTrack) :
  now - last_update tr < 1 -> is_active now tr 1 = true.
Proof.
  intros H. unfold is_active, Rltb.
  destruct (Rlt_dec (now - last_update tr) 1); [reflexivity | contradiction].
Qed.

Lemma first_pass :
  update clock10ms green (init 30) 0 [(0, 0, 10, 10)%Z]
  = (({| next_vehicle_id := 1;
         vehicles := [(0%nat, spawned 0 (0, 0, 10, 10)%Z (clock10ms 0))];
         max_disappeared := 30; speed_unit := "km/h" |}, 3%nat), Ok tt).
Proof.
  unfold update. cbn [assign_all assign init find_closest vehicles fold_left
                       next_vehicle_id dict_set max_disappeared speed_unit].
  cbn [retain vehicles]. rewrite is_active_soon.
  - reflexivity.
  - cbn [last_update]. unfold clock10ms. cbn [INR]. lra.
Qed.

Lemma Rltb_true (a b : R) : a < b -> Rltb a b = true.
Proof. intros H. unfold Rltb. destruct (Rlt_dec a b); [reflexivity | contradiction]. Qed.

Lemma Rltb_false (a b : R) : ~ a < b -> Rltb a b = false.
Proof. intros H. unfold Rltb. destruct (Rlt_dec a b); [contradiction | reflexivity]. Qed.

Lemma norm_diff_row (x1 y1 x2 y2 : R) :
  y1 = y2 -> norm_diff (x1, y1) (x2, y2) = Rabs (x1 - x2).
Proof.
  intros ->. unfold norm_diff. cbn [fst snd].
  replace ((x1 - x2) * (x1 - x2) + (y2 - y2) * (y2 - y2))
    with (Rsqr (x1 - x2)) by (unfold Rsqr; ring).
  apply sqrt_Rsqr_abs.
Qed.

Lemma consider_track_near (clock : nat -> R) (c p : position)
  (closest : option nat) (k vid : nat) (tr : VehicleTrack) :
  clock k - last_update tr < 1 ->
  Detector.last_opt (positions tr) = Some p ->
  norm_diff c p < 50 ->
  consider_track clock c (closest, None, k) (vid, tr)
  = (Some vid, Some (norm_diff c p), S k).
Proof.
  intros Ha Hp Hd. unfold consider_track.
  rewrite is_active_soon by exact Ha. rewrite Hp.
  rewrite Rltb_true by exact Hd. reflexivity.
Qed.

Lemma find_closest_one (clock : nat -> R) (trk : Tracker.t) (c p : position)
  (k vid : nat) (tr : VehicleTrack) :
  vehicles trk = [(vid, tr)] ->
  clock k - last_update tr < 1 ->
  Detector.last_opt (positions tr) = Some p ->
  norm_diff c p < 50 ->
  find_closest clock trk c k = (Some vid, S k).
Proof.
  intros Hv Ha Hp Hd. unfold find_closest. rewrite Hv. cbn [fold_left].
  rewrite (consider_track_near clock c p) by assumption. reflexivity.
Qed.

Lemma assign_one (clock : nat -> R) (colors : nat -> Z * Z * Z) (now : R)
  (trk : Tracker.t) (matched : list nat) (k vid : nat) (b : bbox)
  (p : position) (tr tr' : VehicleTrack) :
  vehicles trk = [(vid, tr)] ->
  clock k - last_update tr < 1 ->
  Detector.last_opt (positions tr) = Some p ->
  norm_diff (center_of b) p < 50 ->
  record_position tr (center_of b) now = (tr', Ok tt) ->
  assign clock colors now (trk, matched, k) b
  = ((with_vehicles trk [(vid, tr')], vid :: matched, S k), Ok tt).
Proof.
  intros Hv Ha Hp Hd Hr. unfold assign.
  rewrite (find_closest_one clock trk (center_of b) p k vid tr) by assumption.
  rewrite Hv. cbn [dict_get]. rewrite Nat.eqb_refl, Hr.
  cbn [dict_set]. rewrite Nat.eqb_refl. reflexivity.
Qed.

Lemma centers_close (x x' : Z) :
  (Z.abs (x - x') < 50)%Z ->
  norm_diff (center_of (x, 0, 10, 10)%Z) (center_of (x', 0, 10, 10)%Z) < 50.
Proof.
  intros H. unfold center_of. rewrite norm_diff_row by reflexivity.
  replace (IZR x + 10 / 2 - (IZR x' + 10 / 2)) with (IZR (x - x'))
    by (rewrite minus_IZR; lra).
  rewrite <- abs_IZR. apply IZR_lt. exact H.
Qed.

Lemma second_pass :
  exists v : R,
    update clock10ms green one_car 3 two_blobs
    = (({| next_vehicle_id := 1;
           vehicles :=
             [(0%nat,
               moved (moved car0 (10, 0, 10, 10)%Z (clock10ms 3) [v])
                     (20, 0, 10, 10)%Z (clock10ms 3) [])];
           max_disappeared := 30; speed_unit := "km/h" |}, 8%nat), Ok tt).
Proof.
  eexists. unfold one_car. rewrite first_pass. cbn [fst].
  unfold update, two_blobs. cbn [assign_all].
  erewrite (assign_one clock10ms green (clock10ms 3) _ _ 4 0
              (10, 0, 10, 10)%Z (center_of (0, 0, 10, 10)%Z) car0).
  2: reflexivity.
  2:{ cbn [last_update car0 spawned]. unfold clock10ms. cbn [INR]. lra. }
  2: reflexivity.
  2:{ apply centers_close. cbn. lia. }
  2:{ unfold record_position.
      cbn [positions timestamps car0 spawned app length Nat.leb last_two].
      rewrite Rltb_true by (unfold clock10ms; cbn [INR]; lra).
      reflexivity. }
  erewrite (assign_one clock10ms green (clock10ms 3) _ _ 5 0
              (20, 0, 10, 10)%Z (center_of (10, 0, 10, 10)%Z)).
  2: reflexivity.
  2:{ cbn [last_update]. unfold clock10ms. cbn [INR]. lra. }
  2: reflexivity.
  2:{ apply centers_close. cbn. lia. }
  2:{ unfold record_position.
      cbn [positions timestamps car0 spawned app length Nat.leb last_two].
      rewrite Rltb_false by lra. reflexivity. }
  cbn [with_vehicles vehicles retain].
  rewrite is_active_soon by (cbn [last_update]; unfold clock10ms; cbn [INR]; lra).
  cbn [orb draw_tracks vehicles length Nat.add with_vehicles next_vehicle_id
         max_disappeared speed_unit].
  unfold moved, car0, spawned. cbn [id positions timestamps speeds color app].
  reflexivity.
Qed.

Lemma consider_track_far (clock : nat -> R) (c p : position)
  (closest : option nat) (best : option R) (k vid : nat)
  (tr : VehicleTrack) :
  clock k - last_update tr < 1 ->
  Detector.last_opt (positions tr) = Some p ->
  ~ norm_diff c p < 50 ->
  consider_track clock c (closest, best, k) (vid, tr) = (closest, best, S k).
Proof.
  intros Ha Hp Hd. unfold consider_track.
  rewrite is_active_soon by exact Ha. rewrite Hp.
  rewrite (Rltb_false _ 50) by exact Hd. rewrite andb_false_r. reflexivity.
Qed.

Lemma centers_apart (x x' : Z) :
  (50 <= Z.abs (x - x'))%Z ->
  ~ norm_diff (center_of (x, 0, 10, 10)%Z) (center_of (x', 0, 10, 10)%Z) < 50.
Proof.
  intros H. unfold center_of. rewrite norm_diff_row by reflexivity.
  replace (IZR x + 10 / 2 - (IZR x' + 10 / 2)) with (IZR (x - x'))
    by (rewrite minus_IZR; lra).
  rewrite <- abs_IZR. apply IZR_le in H. lra.
Qed.

Lemma assign_matched (clock : nat -> R) (colors : nat -> Z * Z * Z)
  (now : R) (trk : Tracker.t) (matched : list nat) (k k' vid : nat)
  (b : bbox) (tr tr' : VehicleTrack) :
  find_closest clock trk (center_of b) k = (Some vid, k') ->
  dict_get Nat.eqb (vehicles trk) vid = Some tr ->
  record_position tr (center_of b) now = (tr', Ok tt) ->
  assign clock colors now (trk, matched, k) b
  = ((with_vehicles trk (dict_set Nat.eqb (vehicles trk) vid tr'),
      vid :: matched, k'), Ok tt).
Proof.
  intros Hf Hg Hr. unfold assign. rewrite Hf, Hg, Hr. reflexivity.
Qed.

Lemma assign_spawned (clock : nat -> R) (colors : nat -> Z * Z * Z)
  (now : R) (trk : Tracker.t) (matched : list nat) (k k' : nat) (b : bbox) :
  find_closest clock trk (center_of b) k = (None, k') ->
  assign clock colors now (trk, matched, k) b
  = (({| next_vehicle_id := S (next_vehicle_id trk);
         vehicles :=
           dict_set Nat.eqb (vehicles trk) (next_vehicle_id trk)
             {| id := next_vehicle_id trk; positions := [center_of b];
                timestamps := [now]; speeds := []; last_update := now;
                color := colors (next_vehicle_id trk) |};
         max_disappeared := max_disappeared trk;
         speed_unit := speed_unit trk |},
      next_vehicle_id trk :: matched, k'), Ok tt).
Proof. intros Hf. unfold assign. rewrite Hf. reflexivity. Qed.

Lemma two_cars_spawned :
  update clock10ms green (init 30) 0 [(0, 0, 10, 10)%Z; (200, 0, 10, 10)%Z]
  = (({| next_vehicle_id := 2;
         vehicles := [(0%nat, car0); (1%nat, car1)];
         max_disappeared := 30; speed_unit := "km/h" |}, 6%nat), Ok tt).
Proof.
  unfold update. cbn [assign_all].
  rewrite (assign_spawned clock10ms green _ _ _ 1 1) by reflexivity.
  cbn [init next_vehicle_id vehicles dict_set max_disappeared speed_unit].
  rewrite (assign_spawned clock10ms green _ _ _ 1 2).
  2:{ unfold find_closest. cbn [vehicles with_vehicles fold_left].
      rewrite (consider_track_far clock10ms _ (center_of (0, 0, 10, 10)%Z)).
      - reflexivity.
      - cbn [last_update]. unfold clock10ms. cbn [INR]. lra.
      - reflexivity.
      - apply centers_apart. cbn. lia. }
  cbn [next_vehicle_id vehicles dict_set Nat.eqb max_disappeared speed_unit
         retain].
  rewrite !is_active_soon
    by (cbn [last_update]; unfold clock10ms; cbn [INR]; lra).
  reflexivity.
Qed.

Lemma two_cars_followed :
  exists v0 v1 : R,
    update clock10ms green two_cars 6 two_far_blobs
    = (({| next_vehicle_id := 2;
           vehicles :=
             [(0%nat, moved car0 (10, 0, 10, 10)%Z (clock10ms 6) [v0]);
              (1%nat, moved car1 (210, 0, 10, 10)%Z (clock10ms 6) [v1])];
           max_disappeared := 30; speed_unit := "km/h" |}, 15%nat), Ok tt).
Proof.
  eexists. eexists. unfold two_cars. rewrite two_cars_spawned. cbn [fst].
  unfold update, two_far_blobs. cbn [assign_all].
  erewrite (assign_matched clock10ms green _ _ _ 7 9 0 _ car0).
  2:{ unfold find_closest. cbn [vehicles with_vehicles fold_left].
      rewrite (consider_track_near clock10ms _ (center_of (0, 0, 10, 10)%Z)).
      2:{ cbn [last_update car0 spawned]. unfold clock10ms. cbn [INR]. lra. }
      2: reflexivity.
      2:{ apply centers_close. cbn. lia. }
      rewrite (consider_track_far clock10ms _ (center_of (200, 0, 10, 10)%Z)).
      - reflexivity.
      - cbn [last_update car1 spawned]. unfold clock10ms. cbn [INR]. lra.
      - reflexivity.
      - apply centers_apart. cbn. lia. }
  2: reflexivity.
  2:{ unfold record_position.
      cbn [positions timestamps car0 spawned app length Nat.leb last_two].
      rewrite Rltb_true by (unfold clock10ms; cbn [INR]; lra).
      reflexivity. }
  cbn [with_vehicles vehicles dict_set Nat.eqb next_vehicle_id
         max_disappeared speed_unit].
  erewrite (assign_matched clock10ms green _ _ _ 9 11 1 _ car1).
  2:{ unfold find_closest. cbn [vehicles with_vehicles fold_left].
      rewrite (consider_track_far clock10ms _ (center_of (10, 0, 10, 10)%Z)).
      2:{ cbn [last_update]. unfold clock10ms. cbn [INR]. lra. }
      2: reflexivity.
      2:{ apply centers_apart. cbn. lia. }
      rewrite (consider_track_near clock10ms _
                 (center_of (200, 0, 10, 10)%Z)).
      - reflexivity.
      - cbn [last_update car1 spawned]. unfold clock10ms. cbn [INR]. lra.
      - reflexivity.
      - apply centers_close. cbn. lia. }
  2: reflexivity.
  2:{ unfold record_position.
      cbn [positions timestamps car1 spawned app length Nat.leb last_two].
      rewrite Rltb_true by (unfold clock10ms; cbn [INR]; lra).
      reflexivity. }
  cbn [with_vehicles vehicles dict_set Nat.eqb next_vehicle_id
         max_disappeared speed_unit retain].
  rewrite !is_active_soon
    by (cbn [last_update]; unfold clock10ms; cbn [INR]; lra).
  cbn [orb draw_tracks vehicles length Nat.add with_vehicles next_vehicle_id
         max_disappeared speed_unit].
  unfold moved, car0, car1, spawned.
  cbn [id positions timestamps speeds color app].
  reflexivity.
Qed.

(** C7, as stated, fails: the two blobs of one pass are both recorded on
    track 0, the second one at ten pixels from the first. *)
Lemma one_track_updated_twice :
  map (fun e => (fst e, length (positions (snd e)))) (vehicles one_car)
  = [(0%nat, 1%nat)]
  /\ length two_blobs = 2%nat
  /\ map (fun e => (fst e, length (positions (snd e)),
                    length (timestamps (snd e))))
       (vehicles (fst (fst (update clock10ms green one_car 3 two_blobs))))
     = [(0%nat, 3%nat, 3%nat)].
Proof.
  destruct second_pass as [v Hv]. rewrite Hv.
  unfold one_car. rewrite first_pass. repeat split.
Qed.

Lemma statistics_only_for_tracks_with_speed_witness :
  NoDup (dict_keys (vehicles one_car))
  /\ speeds car0 = []
  /\ dict_get String.eqb (get_speed_statistics one_car) (vehicle_key 0)
     = None.
Proof.
  assert (Hv : vehicles one_car = [(0%nat, car0)])
    by (unfold one_car; rewrite first_pass; reflexivity).
  assert (Hnd : NoDup (dict_keys (vehicles one_car))).
  { rewrite Hv. cbn. constructor; [intros [] | constructor]. }
  split; [exact Hnd|]. split; [reflexivity|].
  destruct (statistics_only_for_tracks_with_speed one_car Hnd)
    as (_ & Hstat & _).
  apply (Hstat 0%nat car0); [rewrite Hv; now left | reflexivity].
Defined.

End TrackerScenario.

(** * Further properties of the code *)

Section BufferOrderFacts.

Variable Frame : Type.

Lemma put_all_keeps_first (frames : list Frame) :
  forall fb : FrameBuffer.t Frame,
    (0 < FrameBuffer.maxsize fb)%Z ->
    (FrameBuffer.qsize fb <= FrameBuffer.maxsize fb)%Z ->
    FrameBuffer.buffer
      (FrameBuffer.run fb (map FrameBuffer.CPut frames))
    = FrameBuffer.buffer fb
      ++ firstn (Z.to_nat (FrameBuffer.maxsize fb - FrameBuffer.qsize fb))
           frames.
Proof.
  induction frames as [|frame frames IH]; intros fb Hpos Hle.
  - cbn. rewrite firstn_nil, app_nil_r. reflexivity.
  - cbn [map FrameBuffer.run fold_left FrameBuffer.step].
    change (fold_left FrameBuffer.step (map FrameBuffer.CPut frames)
              (fst (FrameBuffer.put fb frame)))
      with (FrameBuffer.run (fst (FrameBuffer.put fb frame))
              (map FrameBuffer.CPut frames)).
    unfold FrameBuffer.put, FrameBuffer.queue_full.
    replace (0 <? FrameBuffer.maxsize fb)%Z with true
      by (symmetry; apply Z.ltb_lt; exact Hpos).
    cbn [andb].
    destruct (Z.leb_spec (FrameBuffer.maxsize fb) (FrameBuffer.qsize fb))
      as [Hfull|Hroom]; cbn [fst].
    + rewrite IH by assumption.
      replace (FrameBuffer.maxsize fb - FrameBuffer.qsize fb)%Z with 0%Z
        by lia.
      reflexivity.
    + rewrite IH; cbn [FrameBuffer.maxsize FrameBuffer.buffer]; try assumption.
      * unfold FrameBuffer.qsize. cbn [FrameBuffer.buffer].
        rewrite length_app. cbn [length]. rewrite <- app_assoc. cbn [app].
        unfold FrameBuffer.qsize in Hroom.
        replace (Z.to_nat (FrameBuffer.maxsize fb
                           - Z.of_nat (length (FrameBuffer.buffer fb))))
          with (S (Z.to_nat (FrameBuffer.maxsize fb
                             - Z.of_nat (length (FrameBuffer.buffer fb) + 1))))
          by lia.
        reflexivity.
      * unfold FrameBuffer.qsize in *. cbn [FrameBuffer.buffer].
        rewrite length_app. cbn [length]. lia.
Qed.

Lemma drain_buffer (n : nat) :
  forall fb : FrameBuffer.t Frame,
    drain fb n
    = map Some (firstn n (FrameBuffer.buffer fb))
      ++ repeat None (n - length (FrameBuffer.buffer fb)).
Proof.
  induction n as [|n IH]; intros fb; [reflexivity|].
  cbn [drain]. unfold FrameBuffer.get.
  destruct (FrameBuffer.buffer fb) as [|frame rest] eqn:Hb.
  - rewrite IH, Hb. cbn. rewrite firstn_nil. cbn.
    replace (n - 0)%nat with n by lia. reflexivity.
  - rewrite IH. cbn. reflexivity.
Qed.

(** X1. Frames put one after the other into a new buffer of capacity
    [N > 0] are kept up to the [N]-th and dropped from there on; [get]
    then returns the kept frames in the order they were put, and [None]
    once they are out. *)
Theorem buffer_is_fifo (N : Z) (frames : list Frame) (n : nat) :
  (0 < N)%Z ->
  let fb := FrameBuffer.run (FrameBuffer.init Frame N)
              (map FrameBuffer.CPut frames) in
  FrameBuffer.buffer fb = firstn (Z.to_nat N) frames
  /\ drain fb n
     = map Some (firstn n (firstn (Z.to_nat N) frames))
       ++ repeat None (n - length (firstn (Z.to_nat N) frames)).
Proof.
  intros HN fb.
  assert (Hb : FrameBuffer.buffer fb = firstn (Z.to_nat N) frames).
  { subst fb. rewrite put_all_keeps_first.
    - cbn. f_equal. f_equal. lia.
    - exact HN.
    - cbn. lia. }
  split; [exact Hb|]. rewrite drain_buffer, Hb. reflexivity.
Qed.

Lemma step_stop_event (fb : FrameBuffer.t Frame) (c : FrameBuffer.call Frame) :
  FrameBuffer.stop_event fb = true ->
  FrameBuffer.stop_event (FrameBuffer.step fb c) = true.
Proof.
  intros H. destruct c; cbn; try assumption; try reflexivity.
  - unfold FrameBuffer.put. destruct (FrameBuffer.queue_full fb); exact H.
  - unfold FrameBuffer.get. destruct (FrameBuffer.buffer fb); exact H.
Qed.

(** X2. Once [stop] was called, [should_stop] holds after every further
    call: no method of the buffer clears the flag; and [clear] leaves an
    empty buffer whose capacity and flags are the ones it had. *)
Theorem stop_is_final (fb : FrameBuffer.t Frame)
  (calls : list (FrameBuffer.call Frame)) :
  FrameBuffer.should_stop
    (FrameBuffer.run (FrameBuffer.stop fb) calls) = true
  /\ FrameBuffer.qsize (FrameBuffer.clear fb) = 0%Z
  /\ FrameBuffer.get (FrameBuffer.clear fb) = (FrameBuffer.clear fb, None)
  /\ FrameBuffer.maxsize (FrameBuffer.clear fb) = FrameBuffer.maxsize fb
  /\ FrameBuffer.should_stop (FrameBuffer.clear fb)
     = FrameBuffer.should_stop fb
  /\ FrameBuffer.processing_done (FrameBuffer.clear fb)
     = FrameBuffer.processing_done fb.
Proof.
  split; [|repeat split].
  unfold FrameBuffer.should_stop.
  assert (H : forall (l : list (FrameBuffer.call Frame)) b,
             FrameBuffer.stop_event b = true ->
             FrameBuffer.stop_event (FrameBuffer.run b l) = true).
  { induction l as [|c l IH]; intros b Hb; [exact Hb|].
    cbn. apply IH. now apply step_stop_event. }
  apply H. reflexivity.
Qed.

End BufferOrderFacts.

Lemma buffer_is_fifo_witness :
  (0 < 2)%Z
  /\ drain (FrameBuffer.run (FrameBuffer.init nat 2)
              (map FrameBuffer.CPut [7; 8; 9]%nat)) 3
     = [Some 7; Some 8; None]%nat.
Proof.
  split; [lia|].
  destruct (buffer_is_fifo nat 2 [7; 8; 9]%nat 3) as [_ H]; [lia|].
  exact H.
Defined.

Section LoopFacts.

Variable Frame : Type.

Local Open Scope R_scope.

Ltac pipeline_fields :=
  cbn [fst snd Pipeline.frame_buffer Pipeline.frame_skip
         Pipeline.current_frame_no Pipeline.frames_to_skip Pipeline.source
         Pipeline.reading Pipeline.consuming Pipeline.processed
         Pipeline.with_buffer Pipeline.after_read Pipeline.stop_reading
         Pipeline.request_stop Pipeline.set_processing_done Pipeline.start
         FrameBuffer.maxsize FrameBuffer.buffer FrameBuffer.stop_event
         FrameBuffer.processing_done FrameBuffer.stop FrameBuffer.init
         FrameBuffer.should_stop] in *.

Ltac same_fields :=
  repeat split; pipeline_fields; first [assumption | reflexivity].

Lemma almost_full_false (fb : FrameBuffer.t Frame) :
  Pipeline.almost_full fb = false ->
  IZR (FrameBuffer.qsize fb) < IZR (FrameBuffer.maxsize fb) * (9 / 10).
Proof.
  unfold Pipeline.almost_full.
  destruct (Rge_dec _ _) as [H|H]; [discriminate | intros _; lra].
Qed.

Lemma put_below_mark (fb : FrameBuffer.t Frame) (frame : Frame) :
  (0 < FrameBuffer.maxsize fb)%Z ->
  Pipeline.almost_full fb = false ->
  FrameBuffer.put fb frame
  = ({| FrameBuffer.maxsize := FrameBuffer.maxsize fb;
        FrameBuffer.buffer := FrameBuffer.buffer fb ++ [frame];
        FrameBuffer.stop_event := FrameBuffer.stop_event fb;
        FrameBuffer.processing_done := FrameBuffer.processing_done fb |},
     true).
Proof.
  intros Hpos Hfull. apply almost_full_false in Hfull.
  unfold FrameBuffer.put, FrameBuffer.queue_full.
  destruct (Z.leb_spec (FrameBuffer.maxsize fb) (FrameBuffer.qsize fb))
    as [Hle|Hlt]; [|rewrite andb_false_r; reflexivity].
  exfalso. apply IZR_le in Hle. apply IZR_lt in Hpos. lra.
Qed.

Lemma qsize_app (fb : FrameBuffer.t Frame) (frame : Frame) m s d :
  FrameBuffer.qsize
    {| FrameBuffer.maxsize := m;
       FrameBuffer.buffer := FrameBuffer.buffer fb ++ [frame];
       FrameBuffer.stop_event := s; FrameBuffer.processing_done := d |}
  = (FrameBuffer.qsize fb + 1)%Z.
Proof.
  unfold FrameBuffer.qsize. cbn [FrameBuffer.buffer].
  rewrite length_app. cbn [length]. lia.
Qed.

Lemma step_below_mark (N : Z) (st : Pipeline.t Frame) (e : Pipeline.event) :
  (0 < N)%Z -> below_mark N st -> below_mark N (Pipeline.step st e).
Proof.
  intros HN (Hm & Hs & Hq). destruct e; cbn [Pipeline.step].
  - unfold Pipeline.read_iteration.
    destruct (Pipeline.reading st); cbn [negb]; [|same_fields].
    destruct (FrameBuffer.should_stop _); [same_fields|].
    destruct (Pipeline.almost_full _) eqn:Hfull; [same_fields|].
    destruct (Pipeline.source st) as [|frame rest]; [same_fields|].
    rewrite Hs. cbn [Z.gtb Z.compare].
    destruct (Pipeline.frame_skip st =? 0)%Z; [same_fields|].
    destruct (negb _); [same_fields|].
    rewrite put_below_mark by (rewrite ?Hm; assumption).
    unfold below_mark.
    cbn [fst Pipeline.with_buffer Pipeline.after_read
           Pipeline.frame_buffer Pipeline.frames_to_skip FrameBuffer.maxsize].
    rewrite qsize_app, plus_IZR. apply almost_full_false in Hfull.
    rewrite Hm in Hfull. repeat split; [assumption | lra].
  - unfold Pipeline.process_iteration.
    destruct (Pipeline.consuming st); cbn [negb]; [|same_fields].
    destruct (_ && _ && _); [same_fields|].
    unfold FrameBuffer.get.
    destruct (FrameBuffer.buffer (Pipeline.frame_buffer st))
      as [|frame rest] eqn:Hb; [same_fields|].
    unfold below_mark, FrameBuffer.qsize in *. rewrite Hb in Hq.
    cbn [Pipeline.frame_buffer Pipeline.frames_to_skip FrameBuffer.maxsize
           FrameBuffer.buffer].
    repeat split; try assumption.
    cbn [length] in Hq. rewrite Nat2Z.inj_succ, succ_IZR in Hq. lra.
  - same_fields.
Qed.

Lemma run_below_mark (N : Z) (events : list Pipeline.event) :
  (0 < N)%Z ->
  forall st : Pipeline.t Frame,
    below_mark N st -> below_mark N (Pipeline.run st events).
Proof.
  intros HN. induction events as [|e events IH]; intros st H; [exact H|].
  cbn. apply IH. now apply step_below_mark.
Qed.

(** X3. With a buffer of positive capacity [N], however the two loops
    and a stop request are scheduled, the reader never sees a [put] fail,
    so its dynamic skip is never switched on ([frames_to_skip] stays [0]),
    and the buffer holds less than [0.9 * N + 1] frames. *)
Theorem reader_stays_below_mark (N skip : Z) (frames : list Frame)
  (events : list Pipeline.event) :
  (0 < N)%Z ->
  let st := Pipeline.run (Pipeline.start Frame N skip frames) events in
  Pipeline.frames_to_skip st = 0%Z
  /\ IZR (FrameBuffer.qsize (Pipeline.frame_buffer st)) < IZR N * (9 / 10) + 1
  /\ (FrameBuffer.qsize (Pipeline.frame_buffer st) <= N)%Z.
Proof.
  intros HN st.
  destruct (run_below_mark N events HN (Pipeline.start Frame N skip frames))
    as (Hm & Hs & Hq).
  - unfold below_mark. cbn. apply IZR_lt in HN. repeat split; lra.
  - fold st in Hm, Hs, Hq. repeat split; try assumption.
    apply le_IZR. apply IZR_lt in HN. 
    assert (H : IZR (FrameBuffer.qsize (Pipeline.frame_buffer st)) < IZR N + 1)
      by lra.
    rewrite <- plus_IZR in H. apply lt_IZR in H. apply IZR_le. lia.
Qed.

Lemma step_untouched (N : Z) (frames : list Frame) (st : Pipeline.t Frame)
  (e : Pipeline.event) :
  (N <= 0)%Z -> untouched N frames st -> untouched N frames (Pipeline.step st e).
Proof.
  intros HN (Hm & Hb & Hd & Hsrc & Hno & Hp). destruct e; cbn [Pipeline.step].
  - unfold Pipeline.read_iteration.
    destruct (Pipeline.reading st); cbn [negb]; [|same_fields].
    destruct (FrameBuffer.should_stop _); [same_fields|].
    replace (Pipeline.almost_full (Pipeline.frame_buffer st)) with true;
      [same_fields|].
    unfold Pipeline.almost_full, FrameBuffer.qsize. rewrite Hb, Hm.
    cbn [length Z.of_nat]. destruct (Rge_dec _ _) as [H|H]; [reflexivity|].
    exfalso. apply H. apply IZR_le in HN. lra.
  - unfold Pipeline.process_iteration.
    destruct (Pipeline.consuming st); cbn [negb]; [|same_fields].
    rewrite Hd, andb_false_r. cbn [andb].
    unfold FrameBuffer.get. rewrite Hb. same_fields.
  - same_fields.
Qed.

(** X4. With a buffer built with a capacity of zero or less (an
    unbounded queue) the reader's test [qsize() >= maxsize * 0.9] always
    holds: however the loops are scheduled, no frame is read, queued or
    processed and the end of the video is never signalled. *)
Theorem unbounded_buffer_stalls_reader (N skip : Z) (frames : list Frame)
  (events : list Pipeline.event) :
  (N <= 0)%Z ->
  let st := Pipeline.run (Pipeline.start Frame N skip frames) events in
  Pipeline.source st = frames
  /\ Pipeline.current_frame_no st = 0%Z
  /\ FrameBuffer.buffer (Pipeline.frame_buffer st) = []
  /\ Pipeline.processed st = []
  /\ FrameBuffer.processing_done (Pipeline.frame_buffer st) = false.
Proof.
  intros HN st.
  assert (H : forall (l : list Pipeline.event) (s : Pipeline.t Frame),
             untouched N frames s -> untouched N frames (Pipeline.run s l)).
  { induction l as [|e l IH]; intros s Hs; [exact Hs|].
    cbn. apply IH. now apply step_untouched. }
  destruct (H events (Pipeline.start Frame N skip frames))
    as (_ & Hb & Hd & Hsrc & Hno & Hp); [same_fields|].
  same_fields.
Qed.

Lemma step_nothing_lost (N skip : Z) (frames : list Frame)
  (st : Pipeline.t Frame) (e : Pipeline.event) :
  (0 < N)%Z -> skip <> 0%Z ->
  below_mark N st -> nothing_lost skip frames st ->
  nothing_lost skip frames (Pipeline.step st e).
Proof.
  intros HN Hskip (Hm & Hs & Hq) (Hk & Hinv). destruct e; cbn [Pipeline.step].
  - unfold Pipeline.read_iteration.
    destruct (Pipeline.reading st); cbn [negb]; [|same_fields].
    destruct (FrameBuffer.should_stop _); [same_fields|].
    destruct (Pipeline.almost_full _) eqn:Hfull; [same_fields|].
    destruct (Pipeline.source st) as [|frame rest] eqn:Hsrc.
    { split; pipeline_fields; [assumption | rewrite Hsrc; exact Hinv]. }
    rewrite Hs. cbn [Z.gtb Z.compare]. rewrite Hk.
    replace (skip =? 0)%Z with false by (symmetry; now apply Z.eqb_neq).
    cbn [Pipeline.every_nth] in Hinv.
    destruct ((Pipeline.current_frame_no st + 1) mod skip =? 0)%Z;
      cbn [negb].
    + rewrite put_below_mark by (rewrite ?Hm; assumption).
      split; [exact Hk|].
      cbn [fst Pipeline.with_buffer Pipeline.after_read Pipeline.processed
             Pipeline.frame_buffer Pipeline.current_frame_no Pipeline.source
             FrameBuffer.buffer].
      rewrite <- Hinv, <- !app_assoc. reflexivity.
    + split; [exact Hk | exact Hinv].
  - unfold Pipeline.process_iteration.
    destruct (Pipeline.consuming st); cbn [negb]; [|same_fields].
    destruct (_ && _ && _); [same_fields|].
    unfold FrameBuffer.get.
    destruct (FrameBuffer.buffer (Pipeline.frame_buffer st))
      as [|frame rest] eqn:Hb; [split; [exact Hk | now rewrite Hb]|].
    split; [exact Hk|].
    cbn [Pipeline.processed Pipeline.frame_buffer Pipeline.current_frame_no
           Pipeline.source FrameBuffer.buffer].
    rewrite <- Hinv, <- !app_assoc. reflexivity.
  - same_fields.
Qed.

(** X5. With a buffer of positive capacity and a [frame_skip] other than
    zero no kept frame is lost and none overtakes another: however the
    loops are scheduled, the frames handed to [process_fn], followed by
    those in the buffer and by those the reader will keep of the rest of
    the video, are the frames of the video whose number is a multiple of
    [frame_skip], in the order of the video. *)
Theorem kept_frames_arrive_in_order (N skip : Z) (frames : list Frame)
  (events : list Pipeline.event) :
  (0 < N)%Z ->
  skip <> 0%Z ->
  let st := Pipeline.run (Pipeline.start Frame N skip frames) events in
  Pipeline.processed st
  ++ FrameBuffer.buffer (Pipeline.frame_buffer st)
  ++ Pipeline.every_nth skip (Pipeline.current_frame_no st)
       (Pipeline.source st)
  = Pipeline.every_nth skip 0 frames.
Proof.
  intros HN Hskip st.
  assert (H : forall (l : list Pipeline.event) (s : Pipeline.t Frame),
             below_mark N s -> nothing_lost skip frames s ->
             nothing_lost skip frames (Pipeline.run s l)).
  { induction l as [|e l IH]; intros s Hb Hs; [exact Hs|].
    cbn. apply IH.
    - now apply step_below_mark.
    - now apply step_nothing_lost with N. }
  destruct (H events (Pipeline.start Frame N skip frames)) as [_ Hinv].
  - unfold below_mark. cbn. apply IZR_lt in HN. repeat split; lra.
  - split; reflexivity.
  - exact Hinv.
Qed.

Lemma read_iteration_body (st : Pipeline.t Frame) :
  Pipeline.read_iteration st
  = if negb (Pipeline.reading st) then (st, Ok tt)
    else if FrameBuffer.should_stop (Pipeline.frame_buffer st)
    then (Pipeline.stop_reading st, Ok tt)
    else Pipeline.read_body st.
Proof. reflexivity. Qed.

Lemma step_stopped_early (st : Pipeline.t Frame * bool)
  (e : Pipeline.fine_event) :
  stopped_early st -> stopped_early (Pipeline.fine_step st e).
Proof.
  destruct st as [st in_turn]. intros (Hs & Hd & Hc & Hsrc).
  cbn [fst snd] in *. destruct e; cbn [Pipeline.fine_step].
  - destruct in_turn; cbn [orb]; [now repeat split|].
    destruct (Pipeline.reading st); cbn [negb];
      [|repeat split; try assumption; discriminate].
    unfold FrameBuffer.should_stop. rewrite Hs.
    repeat split; pipeline_fields; try assumption; discriminate.
  - destruct in_turn; [|repeat split; try assumption; discriminate].
    specialize (Hsrc eq_refl). unfold Pipeline.read_body.
    destruct (Pipeline.almost_full _);
      [repeat split; try assumption; discriminate|].
    destruct (Pipeline.source st) as [|frame rest]; [contradiction|].
    destruct (Pipeline.frames_to_skip st >? 0)%Z;
      [repeat split; pipeline_fields; try assumption; discriminate|].
    destruct (Pipeline.frame_skip st =? 0)%Z;
      [repeat split; pipeline_fields; try assumption; discriminate|].
    destruct (negb ((Pipeline.current_frame_no st + 1)
                    mod Pipeline.frame_skip st =? 0)%Z);
      [repeat split; pipeline_fields; try assumption; discriminate|].
    unfold FrameBuffer.put.
    destruct (FrameBuffer.queue_full (Pipeline.frame_buffer st));
      repeat split; pipeline_fields; try assumption; discriminate.
  - unfold Pipeline.process_iteration. rewrite Hc. cbn [negb].
    rewrite Hd, andb_false_r. cbn [andb].
    unfold FrameBuffer.get.
    destruct (FrameBuffer.buffer (Pipeline.frame_buffer st));
      repeat split; pipeline_fields; assumption.
  - repeat split; pipeline_fields; assumption.
Qed.

Lemma almost_full_below (fb : FrameBuffer.t Frame) :
  IZR (FrameBuffer.qsize fb) < IZR (FrameBuffer.maxsize fb) * (9 / 10) ->
  Pipeline.almost_full fb = false.
Proof.
  intros H. unfold Pipeline.almost_full.
  destruct (Rge_dec _ _) as [Hge|_]; [lra | reflexivity].
Qed.

(** A stop request that comes inside the turn in which the reader meets
    the end of the video: the reader signals [processing_done] and the
    consumer leaves its loop. *)
Lemma late_stop_ends_consumer (N skip : Z) :
  (0 < N)%Z ->
  let st := fst (Pipeline.fine_run (Pipeline.start Frame N skip [], false)
                   [Pipeline.ReadTest; Pipeline.StopRequest;
                    Pipeline.ReadBody; Pipeline.ProcessTurn]) in
  FrameBuffer.processing_done (Pipeline.frame_buffer st) = true
  /\ Pipeline.consuming st = false.
Proof.
  intros HN. cbn [Pipeline.fine_run fold_left Pipeline.fine_step
                    Pipeline.start Pipeline.reading negb orb
                    Pipeline.frame_buffer FrameBuffer.should_stop
                    FrameBuffer.init FrameBuffer.stop_event].
  unfold Pipeline.read_body. rewrite almost_full_below.
  - cbn. split; reflexivity.
  - cbn. apply IZR_lt in HN. lra.
Qed.

(** X6. When stop is requested before the reader has met the end of the
    video, no later step of either loop signals [processing_done], also
    when the request comes between the loop condition of the reader and
    the body of its turn, as long as that turn still has a frame to read:
    the reader leaves its loop at the stop flag, and the consumer's loop
    condition, which asks for the stop flag, [processing_done] and an
    empty buffer together, never lets the consumer leave.  A request that
    comes inside the turn in which the reader meets the end of the video
    is different: [processing_done] is signalled and the consumer
    leaves. *)
Theorem early_stop_never_ends_consumer (st : Pipeline.t Frame)
  (in_turn : bool) (events : list Pipeline.fine_event) :
  FrameBuffer.processing_done (Pipeline.frame_buffer st) = false ->
  Pipeline.consuming st = true ->
  (in_turn = true -> Pipeline.source st <> []) ->
  let st' :=
    fst (Pipeline.fine_run (Pipeline.request_stop st, in_turn) events) in
  let late :=
    fst (Pipeline.fine_run (Pipeline.start Frame 120 1 [], false)
           [Pipeline.ReadTest; Pipeline.StopRequest; Pipeline.ReadBody;
            Pipeline.ProcessTurn]) in
  (Pipeline.consuming st' = true
   /\ FrameBuffer.processing_done (Pipeline.frame_buffer st') = false
   /\ FrameBuffer.should_stop (Pipeline.frame_buffer st') = true)
  /\ (FrameBuffer.processing_done (Pipeline.frame_buffer late) = true
      /\ Pipeline.consuming late = false).
Proof.
  intros Hd Hc Hsrc st' late.
  split; [|apply (late_stop_ends_consumer 120 1); lia].
  assert (H : forall (l : list Pipeline.fine_event)
                     (s : Pipeline.t Frame * bool),
             stopped_early s -> stopped_early (Pipeline.fine_run s l)).
  { induction l as [|e l IH]; intros s Hs; [exact Hs|].
    cbn. apply IH. now apply step_stopped_early. }
  destruct (H events (Pipeline.request_stop st, in_turn))
    as (Hs' & Hd' & Hc' & _).
  - repeat split; pipeline_fields; assumption.
  - repeat split; assumption.
Qed.

End LoopFacts.

Lemma reader_stays_below_mark_witness :
  (0 < 2)%Z
  /\ Pipeline.frames_to_skip
       (Pipeline.run (Pipeline.start nat 2 1 [7; 8; 9]%nat)
          [Pipeline.Read; Pipeline.Read; Pipeline.Read]) = 0%Z.
Proof.
  split; [lia|].
  destruct (reader_stays_below_mark nat 2 1 [7; 8; 9]%nat
              [Pipeline.Read; Pipeline.Read; Pipeline.Read]) as [H _];
    [lia | exact H].
Defined.

Lemma unbounded_buffer_stalls_reader_witness :
  (0 <= 0)%Z
  /\ Pipeline.source
       (Pipeline.run (Pipeline.start nat 0 1 [7; 8]%nat)
          [Pipeline.Read; Pipeline.Process; Pipeline.Read]) = [7; 8]%nat.
Proof.
  split; [lia|].
  destruct (unbounded_buffer_stalls_reader nat 0 1 [7; 8]%nat
              [Pipeline.Read; Pipeline.Process; Pipeline.Read]) as [H _];
    [lia | exact H].
Defined.

Lemma kept_frames_arrive_in_order_witness :
  (0 < 120)%Z /\ 2%Z <> 0%Z
  /\ (let st := Pipeline.run (Pipeline.start nat 120 2 [7; 8; 9; 10]%nat)
                  [Pipeline.Read; Pipeline.Read; Pipeline.Process;
                   Pipeline.Read] in
      Pipeline.processed st
      ++ FrameBuffer.buffer (Pipeline.frame_buffer st)
      ++ Pipeline.every_nth 2 (Pipeline.current_frame_no st)
           (Pipeline.source st)
      = [8; 10]%nat).
Proof.
  split; [lia|]. split; [lia|].
  apply (kept_frames_arrive_in_order nat 120 2 [7; 8; 9; 10]%nat
           [Pipeline.Read; Pipeline.Read; Pipeline.Process; Pipeline.Read]);
    lia.
Defined.

Lemma early_stop_never_ends_consumer_witness :
  Pipeline.consuming
    (fst (Pipeline.fine_run
            (Pipeline.request_stop (Pipeline.start nat 4 1 [7; 8]%nat), true)
            [Pipeline.ReadBody; Pipeline.ProcessTurn; Pipeline.ReadTest;
             Pipeline.ProcessTurn])) = true.
Proof.
  destruct (early_stop_never_ends_consumer nat
              (Pipeline.start nat 4 1 [7; 8]%nat) true
              [Pipeline.ReadBody; Pipeline.ProcessTurn; Pipeline.ReadTest;
               Pipeline.ProcessTurn]) as [[H _] _];
    [reflexivity | reflexivity | discriminate | exact H].
Defined.

Section SelectionFacts.

Import Detector.
Local Open Scope R_scope.

Lemma insert_by_area_perm (c : contour) (l : list contour) :
  Permutation (insert_by_area c l) (c :: l).
Proof.
  induction l as [|d l IH]; cbn; [reflexivity|].
  destruct (Rlt_dec (contourArea c) (contourArea d)); [|reflexivity].
  rewrite IH. apply perm_swap.
Qed.

Lemma sorted_by_area_perm (l : list contour) :
  Permutation (sorted_by_area l) l.
Proof.
  induction l as [|c l IH]; cbn; [reflexivity|].
  rewrite insert_by_area_perm. now constructor.
Qed.

Lemma insert_by_area_sorted (c : contour) (l : list contour) :
  StronglySorted (fun a b => contourArea b <= contourArea a) l ->
  StronglySorted (fun a b => contourArea b <= contourArea a)
    (insert_by_area c l).
Proof.
  induction l as [|d l IH]; intros Hs; cbn.
  - constructor; constructor.
  - inversion Hs as [|? ? Hs' Hd]; subst.
    destruct (Rlt_dec (contourArea c) (contourArea d)) as [Hlt|Hge].
    + constructor; [now apply IH|].
      apply Forall_forall. intros x Hx.
      apply (Permutation_in _ (insert_by_area_perm c l)) in Hx.
      destruct Hx as [<-|Hx]; [lra|].
      rewrite Forall_forall in Hd. now apply Hd.
    + constructor; [exact Hs|].
      constructor; [lra|].
      rewrite Forall_forall in *. intros x Hx. specialize (Hd x Hx). lra.
Qed.

Lemma sorted_by_area_sorted (l : list contour) :
  StronglySorted (fun a b => contourArea b <= contourArea a)
    (sorted_by_area l).
Proof.
  induction l as [|c l IH]; cbn; [constructor|].
  now apply insert_by_area_sorted.
Qed.

Lemma sorted_split (l : list contour) (n : nat) :
  StronglySorted (fun a b => contourArea b <= contourArea a) l ->
  forall a b, In a (firstn n l) -> In b (skipn n l) ->
              contourArea b <= contourArea a.
Proof.
  revert n. induction l as [|c l IH]; intros n Hs a b Ha Hb.
  - rewrite firstn_nil in Ha. destruct Ha.
  - destruct n as [|n]; [destruct Ha|].
    inversion Hs as [|? ? Hs' Hc]; subst. cbn in Ha, Hb.
    destruct Ha as [<-|Ha].
    + rewrite Forall_forall in Hc. apply Hc.
      rewrite <- (firstn_skipn n l). apply in_or_app. now right.
    + now apply (IH n Hs' a b).
Qed.

Lemma scan_contour_scanned (s : Detector.t) (sel : point)
  (seen : list contour) (st st' : scan_state) (c : contour) :
  object_selected s = true ->
  selected_box s = Some sel ->
  scanned s sel seen st ->
  scan_contour s st c = Ok st' ->
  scanned s sel (seen ++ [c]) st'.
Proof.
  intros Hsel Hbox Hst. unfold scan_contour. rewrite Hsel, Hbox.
  destruct sel as [sel_x sel_y].
  destruct (Rgt_dec (contourArea c) (min_contour_area s)) as [Hbig|Hsmall].
  - destruct st as [[[rect center]|] [dist|]]; cbn [snd scanned] in *;
      try contradiction.
    + destruct Hst as (Hc & Hd & (c0 & Hin & Hr & Ha) & Hall).
      destruct (Z.ltb_spec
                  (Z.abs (fst (center_of (boundingRect c)) - sel_x)
                   + Z.abs (snd (center_of (boundingRect c)) - sel_y)) dist)
        as [Hlt|Hge]; intros [= <-]; cbn [scanned].
      * split; [reflexivity|]. split; [reflexivity|]. split.
        { exists c. split; [apply in_or_app; right; now left|]. now split. }
        apply Forall_app. split.
        { rewrite Forall_forall in *. intros x Hx Hxa.
          specialize (Hall x Hx Hxa). unfold manhattan in *.
          cbn [fst snd] in *. lia. }
        constructor; [|constructor]. intros _. reflexivity.
      * split; [exact Hc|]. split; [exact Hd|]. split.
        { exists c0. split; [apply in_or_app; now left|]. now split. }
        apply Forall_app. split; [exact Hall|].
        constructor; [|constructor]. intros _.
        unfold manhattan. cbn [fst snd]. lia.
    + intros [= <-]. cbn [scanned].
      split; [reflexivity|]. split; [reflexivity|]. split.
      { exists c. split; [apply in_or_app; right; now left|]. now split. }
      apply Forall_app. split.
      { rewrite Forall_forall in *. intros x Hx Hxa.
        exfalso. now apply (Hst x Hx). }
      constructor; [|constructor]. intros _. reflexivity.
  - intros [= <-].
    destruct st as [[[rect center]|] [dist|]]; cbn [scanned] in *;
      try contradiction.
    + destruct Hst as (Hc & Hd & (c0 & Hin & Hr & Ha) & Hall).
      split; [exact Hc|]. split; [exact Hd|]. split.
      { exists c0. split; [apply in_or_app; now left|]. now split. }
      apply Forall_app. split; [exact Hall|].
      constructor; [|constructor]. intros Hbig. contradiction.
    + apply Forall_app. split; [exact Hst|].
      constructor; [exact Hsmall | constructor].
Qed.

Lemma scan_contours_scanned (s : Detector.t) (sel : point) (l : list contour) :
  object_selected s = true ->
  selected_box s = Some sel ->
  forall seen st,
    scanned s sel seen st ->
    exists st', scan_contours s st l = Ok st'
                /\ scanned s sel (seen ++ l) st'.
Proof.
  intros Hsel Hbox. induction l as [|c l IH]; intros seen st Hst.
  - exists st. rewrite app_nil_r. now split.
  - cbn [scan_contours].
    destruct (scan_contour s st c) as [st1|e] eqn:Hc.
    + pose proof (scan_contour_scanned s sel seen st st1 c Hsel Hbox Hst Hc)
        as H1.
      destruct (IH _ _ H1) as (st' & Hr & Hs').
      exists st'. split; [exact Hr|]. now rewrite <- app_assoc in Hs'.
    + exfalso. revert Hc. unfold scan_contour. rewrite Hsel, Hbox.
      destruct sel. destruct (Rgt_dec _ _); [|discriminate].
      destruct (match snd st with Some _ => _ | None => _ end); discriminate.
Qed.

(** X7. For a detector with a selected point the scan of a frame never
    raises.  It looks at no more than five contours, none smaller in area
    than a contour it leaves out; it chooses none when none of them
    exceeds the minimum area, and otherwise one of them that exceeds it
    and whose center is nearest to the selected point in Manhattan
    distance among those that do. *)
Theorem closest_contour_is_nearest (s : Detector.t) (f : frame)
  (sel : point) :
  object_selected s = true ->
  selected_box s = Some sel ->
  (length (considered f) <= 5)%nat
  /\ Permutation (considered f ++ left_out f) (found_contours f)
  /\ (forall a b, In a (considered f) -> In b (left_out f) ->
                  contourArea b <= contourArea a)
  /\ exists closest,
       closest_contour s f = Ok closest
       /\ match closest with
          | None =>
              Forall (fun c => ~ contourArea c > min_contour_area s)
                     (considered f)
          | Some (rect, center) =>
              center = center_of rect
              /\ (exists c, In c (considered f) /\ boundingRect c = rect
                            /\ contourArea c > min_contour_area s)
              /\ Forall
                   (fun c => contourArea c > min_contour_area s ->
                             (manhattan center sel
                              <= manhattan (center_of (boundingRect c)) sel)%Z)
                   (considered f)
          end.
Proof.
  intros Hsel Hbox. unfold considered, left_out.
  split; [apply firstn_le_length|]. split.
  { rewrite firstn_skipn. apply sorted_by_area_perm. }
  split.
  { apply sorted_split. apply sorted_by_area_sorted. }
  destruct (scan_contours_scanned s sel
              (firstn 5 (sorted_by_area (found_contours f))) Hsel Hbox
              [] (None, None)) as (st & Hr & Hst); [constructor|].
  cbn [app] in Hst. unfold closest_contour. rewrite Hr.
  exists (fst st). split; [reflexivity|].
  destruct st as [[[rect center]|] [dist|]]; cbn [scanned fst] in *;
    try contradiction.
  - destruct Hst as (Hc & Hd & Hex & Hall). subst dist. now repeat split.
  - exact Hst.
Qed.

End SelectionFacts.

Section IdleFacts.

Import Detector.
Local Open Scope R_scope.

Lemma scan_contours_unselected (s : Detector.t) (l : list contour) :
  object_selected s = false ->
  forall st, scan_contours s st l = Ok st.
Proof.
  intros Hsel. induction l as [|c l IH]; intros st; [reflexivity|].
  cbn [scan_contours]. unfold scan_contour. rewrite Hsel.
  destruct (Rgt_dec _ _); apply IH.
Qed.

Lemma process_frame_unselected (s : Detector.t) (f : frame) :
  object_selected s = false ->
  process_frame s f = (cache_frame_size s f, Ok (NoLabel, None)).
Proof.
  intros Hsel. rewrite (surjective_pairing (process_frame s f)).
  assert (Hcl : closest_contour s f = Ok None).
  { unfold closest_contour. now rewrite scan_contours_unselected. }
  destruct (process_frame_outcome s f); try congruence.
Qed.

Lemma step_idle (s : Detector.t) (c : call) :
  not_a_click c -> idle s -> idle (step s c).
Proof.
  intros Hc (Hsel & Hcs & Hvs). destruct c as [w r|e x y|b|f]; cbn [step].
  - now repeat split.
  - cbn in Hc. unfold select_object.
    destruct (Z.eqb_spec e EVENT_LBUTTONDOWN); [contradiction|].
    now repeat split.
  - now repeat split.
  - rewrite process_frame_unselected by exact Hsel. cbn [fst].
    destruct (cache_frame_size_fields s f)
      as (Hc1 & Hv1 & _ & _ & _ & Hob & _).
    unfold idle. now rewrite Hc1, Hv1, Hob.
Qed.

(** X8. Until it receives a left click a detector records nothing and
    reports nothing: whatever other calls it received since [__init__],
    both histories are empty, and [process_frame] returns [None] as the
    speed, writes no speed label and raises nothing, calibrated or not. *)
Theorem idle_until_clicked (kd : R) (calls : list call) (f : frame) :
  Forall not_a_click calls ->
  let s := run (init kd) calls in
  prev_centers s = []
  /\ prev_speeds s = []
  /\ snd (process_frame s f) = Ok (NoLabel, None)
  /\ prev_centers (fst (process_frame s f)) = []
  /\ prev_speeds (fst (process_frame s f)) = [].
Proof.
  intros Hcalls s.
  assert (H : forall l st, Forall not_a_click l -> idle st -> idle (run st l)).
  { induction l as [|c l IH]; intros st Hl Hst; [exact Hst|].
    inversion Hl; subst. cbn. apply IH; [assumption|]. now apply step_idle. }
  destruct (H calls (init kd) Hcalls) as (Hsel & Hc & Hv);
    [now repeat split|].
  fold s in Hsel, Hc, Hv.
  rewrite process_frame_unselected by exact Hsel. cbn [fst snd].
  destruct (cache_frame_size_fields s f) as (Hc1 & Hv1 & _).
  rewrite Hc1, Hv1. now repeat split.
Qed.

Lemma step_coherent (s : Detector.t) (c : call) :
  coherent s -> coherent (step s c).
Proof.
  intros (Hsel & Hcal). destruct c as [w r|e x y|b|f]; cbn [step].
  - split; [exact Hsel|]. cbn. split; discriminate.
  - unfold select_object. destruct (e =? EVENT_LBUTTONDOWN)%Z;
      [|now split].
    split; [cbn; discriminate | exact Hcal].
  - now split.
  - destruct (cache_frame_size_fields s f)
      as (_ & _ & Hsc & Hfp & _ & Hob & Hbox & _).
    unfold coherent.
    destruct (process_frame_outcome s f);
      cbn [scale_m_per_px fps object_selected selected_box with_prev_center
             with_prev_speeds with_prev_centers];
      rewrite Hsc, Hfp, Hob, Hbox; now split.
Qed.

Lemma run_coherent (calls : list call) (s : Detector.t) :
  coherent s -> coherent (run s calls).
Proof.
  revert s. induction calls as [|c calls IH]; intros s H; [exact H|].
  cbn. apply IH. now apply step_coherent.
Qed.

Lemma pair_speeds_raise (s : Detector.t) (h : Z) (rest : list point) :
  forall prev e,
    pair_speeds s h prev rest = Raise e ->
    (e = TypeError /\ (scale_m_per_px s = None \/ fps s = None))
    \/ (e = ZeroDivisionError /\ fps s = Some 0).
Proof.
  induction rest as [|c rest IH]; intros prev e; cbn; [discriminate|].
  unfold pair_speed.
  destruct (scale_m_per_px s) as [scale|];
    [|intros [= <-]; left; split; [reflexivity | now left]].
  destruct (fps s) as [rate|];
    [|intros [= <-]; left; split; [reflexivity | now right]].
  destruct (Req_dec_T rate 0) as [->|Hr];
    [intros [= <-]; right; now split|].
  specialize (IH c).
  destruct (pair_speeds s h c rest) as [vs|e']; [discriminate|].
  intros [= <-]. destruct (IH e' eq_refl) as [H|H].
  - left. unfold pair_speed in *. exact H.
  - right. exact H.
Qed.

Lemma closest_contour_raise (s : Detector.t) (f : frame) (e : exn) :
  closest_contour s f = Raise e ->
  e = TypeError /\ object_selected s = true /\ selected_box s = None.
Proof.
  unfold closest_contour.
  generalize (firstn 5 (sorted_by_area (found_contours f))).
  generalize (@None candidate, @None Z).
  intros st l. revert st. induction l as [|c l IH]; intros st; cbn;
    [discriminate|].
  destruct (scan_contour s st c) as [st1|e1] eqn:Hc.
  - apply IH.
  - intros H. assert (e1 = e) as <-.
    { destruct (scan_contours s st l); congruence. }
    clear H. revert Hc. unfold scan_contour.
    destruct (Rgt_dec _ _); [|discriminate].
    destruct (object_selected s); [|discriminate].
    destruct (selected_box s) as [[sx sy]|].
    + destruct (match snd st with Some _ => _ | None => _ end); discriminate.
    + intros [= <-]. now repeat split.
Qed.

(** X9. For a detector used since [__init__], [process_frame] raises
    only in two ways: a [TypeError] when a contour is matched for the
    second time or later before [set_video_info] was ever called, and a
    [ZeroDivisionError] when the frame rate given to [set_video_info] was
    zero.  The call that raises has already appended the matched center
    to the position history, and leaves the speed history as it was.
    With a scale and a frame rate other than zero it never raises. *)
Theorem process_frame_exceptions (kd : R) (calls : list call) (f : frame) :
  let s := run (init kd) calls in
  let s' := fst (process_frame s f) in
  (forall e,
      snd (process_frame s f) = Raise e ->
      ((e = TypeError /\ scale_m_per_px s = None /\ fps s = None)
       \/ (e = ZeroDivisionError /\ fps s = Some 0%R))
      /\ prev_speeds s' = prev_speeds s
      /\ (exists rect center,
             closest_contour s f = Ok (Some (rect, center))
             /\ prev_centers s'
                = push_window (prev_centers s) center (speed_window s)
             /\ (2 <= length (prev_centers s'))%nat))
  /\ (forall scale rate,
         scale_m_per_px s = Some scale -> fps s = Some rate -> rate <> 0%R ->
         exists annotation speed,
           snd (process_frame s f) = Ok (annotation, speed)).
Proof.
  intros s s'.
  assert (Hco : coherent s).
  { apply run_coherent. split; [cbn; discriminate | cbn; tauto]. }
  destruct Hco as (Hsel & Hcal).
  destruct (cache_frame_size_fields s f) as (Hc1 & Hv1 & _).
  split.
  - intros e. subst s'.
    destruct (process_frame_outcome s f) as [e' H|c H H0|r c H H0 H1
                                            |r c e' H H0 H1 H2|r c v H H0 H1 H2];
      intros Hr; try discriminate.
    + exfalso. apply closest_contour_raise in H.
      destruct H as (_ & Ho & Hb). now apply Hsel.
    + injection Hr as ->.
      cbn [prev_speeds prev_centers with_prev_centers]. rewrite Hv1.
      split; [|split; [reflexivity|]].
      * unfold all_pair_speeds in H2.
        destruct (push_window (prev_centers s) c (speed_window s))
          as [|p rest]; [discriminate|].
        apply pair_speeds_raise in H2. destruct H2 as [[-> Hn]|[-> Hz]].
        -- left. split; [reflexivity|]. destruct Hn as [Hn|Hn].
           ++ split; [exact Hn | now apply Hcal].
           ++ split; [now apply Hcal | exact Hn].
        -- right. now split.
      * exists r, c. split; [exact H|]. split; [reflexivity | lia].
  - intros scale rate Hsc Hfp Hrate.
    destruct (process_frame_outcome s f) as [e' H|c H H0|r c H H0 H1
                                            |r c e' H H0 H1 H2|r c v H H0 H1 H2];
      try (eexists; eexists; reflexivity).
    + exfalso. apply closest_contour_raise in H.
      destruct H as (_ & Ho & Hb). now apply Hsel.
    + exfalso. unfold all_pair_speeds in H2.
      destruct (push_window (prev_centers s) c (speed_window s))
        as [|p rest]; [discriminate|].
      apply pair_speeds_raise in H2.
      destruct H2 as [[_ [Hn|Hn]]|[_ Hz]]; congruence.
Qed.

End IdleFacts.

Section SmoothingFacts.

Import Detector.
Local Open Scope R_scope.

(** X11. Rate limiting never overshoots: with a bound that is not
    negative, the value kept lies between the previous speed and the new
    weighted speed, it is the new speed itself when that is within the
    bound of the previous one, and with an empty history it is always the
    new speed. *)
Theorem rate_limit_between (history : list R) (bound v previous : R) :
  0 <= bound ->
  last_opt history = Some previous ->
  Rmin previous v <= rate_limit history bound v <= Rmax previous v
  /\ (Rabs (v - previous) <= bound -> rate_limit history bound v = v)
  /\ rate_limit [] bound v = v.
Proof.
  intros Hb Hp. unfold rate_limit. rewrite Hp. cbn [last_opt].
  split; [|split; [|reflexivity]].
  - destruct (Rgt_dec (Rabs (v - previous)) bound) as [Hgt|Hle].
    + unfold sign, Rmin, Rmax.
      destruct (Rlt_dec (v - previous) 0) as [Hneg|Hnn].
      * rewrite Rabs_left in Hgt by exact Hneg.
        destruct (Rle_dec previous v); lra.
      * destruct (Rlt_dec 0 (v - previous)) as [Hpos|Hz].
        -- rewrite Rabs_right in Hgt by lra.
           destruct (Rle_dec previous v); lra.
        -- destruct (Rle_dec previous v); lra.
    + unfold Rmin, Rmax. destruct (Rle_dec previous v); lra.
  - intros Hle. destruct (Rgt_dec (Rabs (v - previous)) bound);
      [lra | reflexivity].
Qed.

Lemma rate_limit_between_witness :
  Rmin 20 45 <= rate_limit [18; 20] 10 45 <= Rmax 20 45.
Proof.
  destruct (rate_limit_between [18; 20] 10 45 20) as [H _];
    [lra | reflexivity | exact H].
Defined.

Lemma insert_asc_perm (x : R) (l : list R) :
  Permutation (insert_asc x l) (x :: l).
Proof.
  induction l as [|y l IH]; cbn; [reflexivity|].
  destruct (Rle_dec x y); [reflexivity|].
  rewrite IH. apply perm_swap.
Qed.

Lemma sort_asc_perm (l : list R) : Permutation (sort_asc l) l.
Proof.
  induction l as [|x l IH]; cbn; [reflexivity|].
  rewrite insert_asc_perm. now constructor.
Qed.

Lemma insert_asc_sorted (x : R) (l : list R) :
  StronglySorted Rle l -> StronglySorted Rle (insert_asc x l).
Proof.
  induction l as [|y l IH]; intros Hs; cbn.
  - constructor; constructor.
  - inversion Hs as [|? ? Hs' Hy]; subst.
    destruct (Rle_dec x y) as [Hle|Hgt].
    + constructor; [exact Hs|]. constructor; [exact Hle|].
      rewrite Forall_forall in *. intros z Hz. specialize (Hy z Hz). lra.
    + constructor; [now apply IH|].
      apply Forall_forall. intros z Hz.
      apply (Permutation_in _ (insert_asc_perm x l)) in Hz.
      destruct Hz as [<-|Hz]; [lra|].
      rewrite Forall_forall in Hy. now apply Hy.
Qed.

Lemma sort_asc_sorted (l : list R) : StronglySorted Rle (sort_asc l).
Proof.
  induction l as [|x l IH]; cbn; [constructor|].
  now apply insert_asc_sorted.
Qed.

Lemma sorted_perm_unique (l1 l2 : list R) :
  StronglySorted Rle l1 -> StronglySorted Rle l2 -> Permutation l1 l2 ->
  l1 = l2.
Proof.
  revert l2. induction l1 as [|x l1 IH]; intros l2 H1 H2 Hp.
  - apply Permutation_nil in Hp. now subst.
  - destruct l2 as [|y l2];
      [apply Permutation_sym, Permutation_nil in Hp; discriminate|].
    inversion H1 as [|? ? H1' Hx]; subst.
    inversion H2 as [|? ? H2' Hy]; subst.
    assert (x = y).
    { assert (Hxin : In x (y :: l2))
        by (apply (Permutation_in _ Hp); now left).
      assert (Hyin : In y (x :: l1))
        by (apply (Permutation_in _ (Permutation_sym Hp)); now left).
      rewrite Forall_forall in Hx, Hy.
      destruct Hxin as [->|Hxin]; [reflexivity|].
      destruct Hyin as [->|Hyin]; [reflexivity|].
      specialize (Hx y Hyin). specialize (Hy x Hxin). lra. }
    subst y. f_equal. apply IH; try assumption.
    now apply Permutation_cons_inv in Hp.
Qed.

(** X12. The median written on the frame does not depend on the order of
    the speed history and lies between its smallest and its largest
    entry: histories that are permutations of each other have the same
    median, an empty history has none, and if every entry of a history
    that is not empty lies in [[lo, hi]], so does its median. *)
Theorem median_of_history (lo hi : R) (history reordered : list R) :
  Permutation history reordered ->
  Forall (fun v => lo <= v <= hi) history ->
  median history = median reordered
  /\ (median history = None <-> history = [])
  /\ (forall m, median history = Some m -> lo <= m <= hi).
Proof.
  intros Hp Hv.
  assert (Hsame : sort_asc history = sort_asc reordered).
  { apply sorted_perm_unique; try apply sort_asc_sorted.
    rewrite !sort_asc_perm. exact Hp. }
  split; [unfold median; now rewrite Hsame|].
  assert (Hlen : length (sort_asc history) = length history)
    by (apply Permutation_length, sort_asc_perm).
  assert (Hall : Forall (fun v => lo <= v <= hi) (sort_asc history)).
  { rewrite Forall_forall in *. intros x Hx. apply Hv.
    now apply (Permutation_in _ (sort_asc_perm history)). }
  assert (Hnth : forall i, (i < length (sort_asc history))%nat ->
                           lo <= nth i (sort_asc history) 0 <= hi).
  { intros i Hi. rewrite Forall_forall in Hall. apply Hall.
    now apply nth_In. }
  split.
  - unfold median. rewrite Hlen. destruct history as [|x l]; [tauto|].
    cbn [length]. destruct (Nat.even (S (length l)));
      split; discriminate.
  - intros m. unfold median.
    destruct (length (sort_asc history)) as [|n] eqn:Hn; [discriminate|].
    assert (Hhalf : (S n / 2 < S n)%nat)
      by (apply Nat.div_lt; lia).
    destruct (Nat.even (S n)) eqn:He; intros [= <-].
    + assert (Hprev : (S n / 2 - 1 < S n)%nat) by lia.
      destruct (Hnth _ Hhalf) as [Ha Hb].
      destruct (Hnth _ Hprev) as [Hc Hd].
      change (S n / 2)%nat with (fst (Nat.divmod n 1 0 0)) in Ha, Hb, Hc, Hd.
      split; lra.
    + exact (Hnth _ Hhalf).
Qed.

Lemma median_of_history_witness :
  median [10; 12; 11; 50; 11] = median [50; 10; 11; 11; 12].
Proof.
  destruct (median_of_history 10 50 [10; 12; 11; 50; 11] [50; 10; 11; 11; 12])
    as [H _].
  - apply Permutation_sym.
    apply (@Permutation_cons_app _ [10; 11; 11; 12] [10; 12; 11] [11] 50).
    cbn. apply perm_skip.
    apply (@Permutation_cons_app _ [11; 12] [12] [11] 11). cbn.
    apply (@Permutation_cons_app _ [12] [12] [] 11). cbn. reflexivity.
  - repeat constructor; lra.
  - exact H.
Defined.

End SmoothingFacts.

Section CompositionFacts.

Local Open Scope R_scope.

Lemma Int_part_bounds (x hi : R) :
  0 <= x -> x <= hi -> (0 <= Int_part x)%Z /\ IZR (Int_part x) <= hi.
Proof.
  intros H0 Hhi. destruct (base_Int_part x) as [Hle Hgt]. split; [|lra].
  apply le_IZR.
  assert (H : -1 < IZR (Int_part x)) by lra.
  change (-1) with (IZR (-1)) in H. apply lt_IZR in H. apply IZR_le. lia.
Qed.

(** X14. [display_frame] never enlarges a frame beyond the screen: for a
    frame with positive height and width the size it resizes to is at
    most 1280 by 720, and neither side is negative. *)
Theorem display_size_fits_screen (frame_h frame_w : Z) :
  (0 < frame_h)%Z ->
  (0 < frame_w)%Z ->
  (0 <= fst (Ui.display_size frame_h frame_w) <= 1280)%Z
  /\ (0 <= snd (Ui.display_size frame_h frame_w) <= 720)%Z.
Proof.
  intros Hh Hw. apply IZR_lt in Hh, Hw. unfold Ui.display_size. cbn [fst snd].
  set (scale := Rmin (1280 / IZR frame_w) (720 / IZR frame_h)).
  assert (Hs0 : 0 <= scale).
  { subst scale. apply Rmin_glb; apply Rlt_le, Rdiv_lt_0_compat; lra. }
  assert (Hsw : IZR frame_w * scale <= 1280).
  { apply Rle_trans with (IZR frame_w * (1280 / IZR frame_w)).
    - apply Rmult_le_compat_l; [lra | apply Rmin_l].
    - right. field. lra. }
  assert (Hsh : IZR frame_h * scale <= 720).
  { apply Rle_trans with (IZR frame_h * (720 / IZR frame_h)).
    - apply Rmult_le_compat_l; [lra | apply Rmin_r].
    - right. field. lra. }
  destruct (Int_part_bounds (IZR frame_w * scale) 1280) as [Hw0 Hw1];
    [apply Rmult_le_pos; lra | exact Hsw |].
  destruct (Int_part_bounds (IZR frame_h * scale) 720) as [Hh0 Hh1];
    [apply Rmult_le_pos; lra | exact Hsh |].
  apply le_IZR in Hw1, Hh1. lia.
Qed.

Lemma display_size_fits_screen_witness :
  (0 <= fst (Ui.display_size 1080 1920) <= 1280)%Z
  /\ (0 <= snd (Ui.display_size 1080 1920) <= 720)%Z.
Proof. apply (display_size_fits_screen 1080 1920); lia. Defined.

End CompositionFacts.

Section TrackerSoundFacts.

Import Tracker.
Local Open Scope R_scope.

Variable clock : nat -> R.
Variable colors : nat -> Z * Z * Z.

Lemma dict_keys_set_present {V : Type} (d : list (nat * V)) (k : nat)
  (v v' : V) :
  dict_get Nat.eqb d k = Some v ->
  dict_keys (dict_set Nat.eqb d k v') = dict_keys d.
Proof.
  unfold dict_keys.
  induction d as [|[k0 v0] d IH]; cbn; [discriminate|].
  destruct (Nat.eqb_spec k k0) as [->|Hne]; cbn; [reflexivity|].
  intros H. now rewrite IH.
Qed.

Lemma dict_keys_set_absent {V : Type} (d : list (nat * V)) (k : nat) (v : V) :
  ~ In k (dict_keys d) ->
  dict_keys (dict_set Nat.eqb d k v) = dict_keys d ++ [k].
Proof.
  unfold dict_keys.
  induction d as [|[k0 v0] d IH]; cbn; [reflexivity|].
  intros Hn. destruct (Nat.eqb_spec k k0) as [->|Hne]; [tauto|].
  cbn. rewrite IH by tauto. reflexivity.
Qed.

Lemma last_two_some {A : Type} (l : list A) :
  (2 <= length l)%nat -> exists a b, last_two l = Some (a, b).
Proof.
  induction l as [|x [|y [|z l]] IH]; cbn [length]; intros H; try lia.
  - now exists x, y.
  - destruct IH as (a & b & Hab); [cbn; lia|].
    exists a, b. exact Hab.
Qed.

Lemma consider_track_key (center : position) (st : search_state)
  (entry : nat * VehicleTrack) (keys : list nat) :
  (forall vid, fst (fst st) = Some vid -> In vid keys) ->
  forall vid,
    fst (fst (consider_track clock center st entry)) = Some vid ->
    In vid (keys ++ [fst entry]).
Proof.
  intros Hst vid. destruct st as [[closest best] k].
  destruct entry as [v tr]. unfold consider_track. cbn [fst] in *.
  destruct (is_active (clock k) tr 1);
    [|cbn; intros H; apply in_or_app; left; now apply Hst].
  destruct (Detector.last_opt (positions tr));
    [|cbn; intros H; apply in_or_app; left; now apply Hst].
  destruct (_ && _); cbn.
  - intros [= <-]. apply in_or_app. right. now left.
  - intros H. apply in_or_app. left. now apply Hst.
Qed.

Lemma find_closest_key (trk : Tracker.t) (center : position) (k : nat)
  (vid : nat) :
  fst (find_closest clock trk center k) = Some vid ->
  In vid (dict_keys (vehicles trk)).
Proof.
  unfold find_closest.
  assert (H : forall l st keys,
             (forall v, fst (fst st) = Some v -> In v keys) ->
             forall v,
               fst (fst (fold_left (consider_track clock center) l st))
               = Some v ->
               In v (keys ++ dict_keys l)).
  { induction l as [|e l IH]; intros st keys Hst v; cbn [fold_left].
    - cbn. rewrite app_nil_r. apply Hst.
    - intros Hv. cbn [dict_keys map].
      replace (keys ++ fst e :: map fst l)
        with ((keys ++ [fst e]) ++ dict_keys l)
        by (rewrite <- app_assoc; reflexivity).
      apply (IH (consider_track clock center st e)); [|exact Hv].
      now apply consider_track_key. }
  specialize (H (vehicles trk) (None, None, k) []).
  destruct (fold_left _ _ _) as [[closest best] k']. cbn [fst] in *.
  intros Hv. apply (H ltac:(discriminate) vid Hv).
Qed.

Lemma dict_get_key {V : Type} (d : list (nat * V)) (k : nat) :
  In k (dict_keys d) -> exists v, dict_get Nat.eqb d k = Some v.
Proof.
  unfold dict_keys.
  induction d as [|[k0 v0] d IH]; cbn; [tauto|].
  destruct (Nat.eqb_spec k k0) as [->|Hne]; [now exists v0|].
  intros [H|H]; [congruence | now apply IH].
Qed.

Lemma sound_track_more (next : nat) (e : nat * VehicleTrack) :
  sound_track next e -> sound_track (S next) e.
Proof.
  intros (H1 & H). split; [lia | exact H].
Qed.

Lemma record_position_sound (next vid : nat) (tr : VehicleTrack)
  (center : position) (now : R) :
  sound_track next (vid, tr) ->
  snd (record_position tr center now) = Ok tt
  /\ sound_track next (vid, fst (record_position tr center now)).
Proof.
  intros (Hk & Hid & Hpos & Hlen & Hsp & Hnn & Hlast). cbn [fst snd] in *.
  unfold record_position.
  assert (Hp2 : (2 <= length (positions tr ++ [center]))%nat).
  { rewrite length_app. cbn [length].
    destruct (positions tr); [contradiction | cbn; lia]. }
  assert (Ht2 : (2 <= length (timestamps tr ++ [now]))%nat)
    by (rewrite length_app in *; cbn [length] in *; lia).
  destruct (Nat.leb_spec 2 (length (positions tr ++ [center])));
    [|lia].
  destruct (last_two_some _ Ht2) as (t2 & t1 & ->).
  destruct (last_two_some _ Hp2) as (p2 & p1 & ->).
  unfold Rltb.
  destruct (Rlt_dec 0 (t1 - t2)) as [Hdt|Hdt]; cbn [fst snd];
    (split; [reflexivity|]); unfold sound_track;
    cbn [fst snd id positions timestamps speeds last_update];
    rewrite ?length_app in *; cbn [length] in *;
    repeat split; try assumption; try lia.
  - destruct (positions tr); discriminate.
  - apply Forall_app. split; [exact Hnn|].
    constructor; [|constructor].
    apply Rmult_le_pos; [apply sqrt_pos|].
    left. now apply Rinv_0_lt_compat.
  - apply last_opt_app.
  - destruct (positions tr); discriminate.
  - apply last_opt_app.
Qed.

Lemma assign_sound (now : R) (trk : Tracker.t) (matched : list nat)
  (k : nat) (b : bbox) :
  sound trk ->
  snd (assign clock colors now (trk, matched, k) b) = Ok tt
  /\ sound (fst (fst (fst (assign clock colors now (trk, matched, k) b))))
  /\ (next_vehicle_id trk
      <= next_vehicle_id
           (fst (fst (fst (assign clock colors now (trk, matched, k) b)))))%nat.
Proof.
  intros (Hnd & Hall). unfold assign.
  pose proof (find_closest_key trk (center_of b) k) as Hkey.
  destruct (find_closest clock trk (center_of b) k) as [[vid|] k'];
    cbn [fst] in Hkey.
  - destruct (dict_get_key _ _ (Hkey vid eq_refl)) as (track & Hget).
    rewrite Hget.
    assert (Hin : In (vid, track) (vehicles trk))
      by (apply (dict_get_In _ _ _ Nat.eqb_spec); exact Hget).
    rewrite Forall_forall in Hall.
    destruct (record_position_sound (next_vehicle_id trk) vid track
                (center_of b) now (Hall _ Hin)) as [Hok Hs].
    destruct (record_position track (center_of b) now) as [track' r].
    cbn [fst snd] in *. subst r. cbn [fst snd].
    split; [reflexivity|]. split; [|cbn; lia].
    split; cbn [vehicles with_vehicles next_vehicle_id].
    + now rewrite (dict_keys_set_present _ _ track).
    + apply Forall_forall. intros e He.
      apply (dict_set_In _ _ _ Nat.eqb_spec) in He.
      destruct He as [->|He]; [exact Hs | now apply Hall].
  - cbn [fst snd]. split; [reflexivity|]. split; [|cbn; lia].
    assert (Hfresh : ~ In (next_vehicle_id trk) (dict_keys (vehicles trk))).
    { intros Hin. unfold dict_keys in Hin. apply in_map_iff in Hin.
      destruct Hin as (e & He & Hin). rewrite Forall_forall in Hall.
      destruct (Hall e Hin) as (Hlt & _). lia. }
    split; cbn [vehicles next_vehicle_id].
    + rewrite dict_keys_set_absent by exact Hfresh.
      apply NoDup_app; [exact Hnd | repeat constructor; intros [] |].
      intros x Hx [<-|[]]. contradiction.
    + apply Forall_forall. intros e He.
      apply (dict_set_In _ _ _ Nat.eqb_spec) in He.
      destruct He as [->|He].
      * unfold sound_track.
        cbn [fst snd id positions timestamps speeds last_update length].
        repeat split; try lia; try discriminate. constructor.
      * apply sound_track_more. rewrite Forall_forall in Hall.
        now apply Hall.
Qed.

Lemma assign_all_sound (now : R) (detections : list bbox) :
  forall (trk : Tracker.t) (matched : list nat) (k : nat),
    sound trk ->
    snd (assign_all clock colors now (trk, matched, k) detections) = Ok tt
    /\ sound (fst (fst (fst (assign_all clock colors now (trk, matched, k)
                               detections))))
    /\ (next_vehicle_id trk
        <= next_vehicle_id
             (fst (fst (fst (assign_all clock colors now (trk, matched, k)
                               detections)))))%nat.
Proof.
  induction detections as [|b rest IH]; intros trk matched k Hs.
  - cbn [assign_all fst snd]. split; [reflexivity|]. split; [exact Hs | lia].
  - cbn [assign_all].
    destruct (assign_sound now trk matched k b Hs) as (Hok & Hs1 & Hn1).
    destruct (assign clock colors now (trk, matched, k) b)
      as [[[trk1 matched1] k1] r]. cbn [fst snd] in *. subst r.
    destruct (IH trk1 matched1 k1 Hs1) as (Hok2 & Hs2 & Hn2).
    split; [exact Hok2|]. split; [exact Hs2 | lia].
Qed.

Lemma retain_keys (matched : list nat) (vs : list (nat * VehicleTrack)) :
  forall k, NoDup (dict_keys vs) ->
            NoDup (dict_keys (fst (retain clock matched vs k))).
Proof.
  induction vs as [|[vid tr] vs IH]; intros k Hnd; cbn [retain];
    [constructor|].
  cbn [dict_keys map fst] in Hnd. inversion Hnd as [|? ? Hnotin Hnd']; subst.
  specialize (IH (S k) Hnd').
  pose proof (retain_incl clock matched vs (S k)) as Hincl.
  destruct (retain clock matched vs (S k)) as [rest k']. cbn [fst] in *.
  destruct (is_active (clock k) tr 1 || existsb (Nat.eqb vid) matched);
    [|exact IH].
  cbn [dict_keys map fst]. constructor; [|exact IH].
  intros Hin. apply Hnotin. unfold dict_keys in *.
  apply in_map_iff in Hin. destruct Hin as (e & He & Hin).
  apply in_map_iff. exists e. split; [exact He | now apply Hincl].
Qed.

Lemma update_sound (trk : Tracker.t) (k : nat) (detections : list bbox) :
  sound trk ->
  snd (update clock colors trk k detections) = Ok tt
  /\ sound (fst (fst (update clock colors trk k detections)))
  /\ (next_vehicle_id trk
      <= next_vehicle_id (fst (fst (update clock colors trk k detections))))%nat.
Proof.
  intros Hs. unfold update.
  destruct (assign_all_sound (clock k) detections trk [] (S k) Hs)
    as (Hok & (Hnd & Hall) & Hn).
  destruct (assign_all clock colors (clock k) (trk, [], S k) detections)
    as [[[trk1 matched] k1] r]. cbn [fst snd] in *. subst r.
  pose proof (retain_keys matched (vehicles trk1) k1 Hnd) as Hk.
  pose proof (retain_incl clock matched (vehicles trk1) k1) as Hincl.
  destruct (retain clock matched (vehicles trk1) k1) as [kept k2].
  cbn [fst snd] in *. split; [reflexivity|]. split; [|exact Hn].
  split; cbn [vehicles with_vehicles next_vehicle_id]; [exact Hk|].
  rewrite Forall_forall in *. intros e He. now apply Hall, Hincl.
Qed.

Lemma run_passes_sound (passes : list (list bbox)) :
  forall st : Tracker.t * nat,
    sound (fst st) ->
    sound (fst (run_passes clock colors st passes))
    /\ (next_vehicle_id (fst st)
        <= next_vehicle_id (fst (run_passes clock colors st passes)))%nat.
Proof.
  induction passes as [|detections passes IH]; intros st Hs.
  - cbn. now split.
  - cbn [run_passes fold_left].
    destruct (update_sound (fst st) (snd st) detections Hs) as (_ & Hs1 & Hn1).
    destruct (IH _ Hs1) as (Hs2 & Hn2). split; [exact Hs2|].
    unfold run_passes in *. lia.
Qed.

(** X15. A tracker used since [__init__] keeps its books in order and
    [update] never raises on it: the keys of the dictionary are distinct
    and below [next_vehicle_id], which never decreases, so no id is used
    twice; every track is stored under its own [id], has at least one
    position, as many timestamps as positions, fewer speeds than
    positions and no negative speed, and its [last_update] is its last
    timestamp. *)
Theorem tracker_stays_sound (max_disappeared : Z)
  (passes : list (list bbox)) (detections : list bbox) :
  let st := run_passes clock colors (init max_disappeared, 0%nat) passes in
  sound (fst st)
  /\ snd (update clock colors (fst st) (snd st) detections) = Ok tt
  /\ sound (fst (fst (update clock colors (fst st) (snd st) detections)))
  /\ (next_vehicle_id (fst st)
      <= next_vehicle_id
           (fst (fst (update clock colors (fst st) (snd st) detections))))%nat.
Proof.
  intros st.
  destruct (run_passes_sound passes (init max_disappeared, 0%nat)) as [Hs _].
  { split; [constructor | constructor]. }
  fold st in Hs. split; [exact Hs|]. now apply update_sound.
Qed.

End TrackerSoundFacts.

Section AssociationFacts.

Import Tracker.
Local Open Scope R_scope.

Variable clock : nat -> R.

Lemma Rltb_spec (a b : R) : reflect (a < b) (Rltb a b).
Proof.
  unfold Rltb. destruct (Rlt_dec a b); now constructor.
Qed.

Lemma searched_step (center : position) (seen : list (nat * R))
  (closest : option nat) (best : option R) (k : nat)
  (entry : nat * VehicleTrack) :
  searched seen closest best ->
  let st := consider_track clock center (closest, best, k) entry in
  searched (seen ++ candidates clock center k [entry])
           (fst (fst st)) (snd (fst st))
  /\ snd st = S k.
Proof.
  intros Hs. destruct entry as [vid tr]. cbn [candidates consider_track].
  rewrite app_nil_r.
  destruct (is_active (clock k) tr 1);
    [|cbn [fst snd]; rewrite app_nil_r; now split].
  destruct (Detector.last_opt (positions tr)) as [p|];
    [|cbn [fst snd]; rewrite app_nil_r; now split].
  set (dist := norm_diff center p).
  destruct closest as [v|], best as [d|]; cbn [searched] in Hs;
    try contradiction.
  - destruct Hs as (Hin & Hd & Hall).
    destruct (Rltb_spec dist d) as [Hlt|Hge]; cbn [andb].
    + destruct (Rltb_spec dist 50) as [H50|H50]; [|lra].
      cbn [fst snd searched]. split; [|reflexivity].
      split; [apply in_or_app; right; now left|]. split; [exact H50|].
      apply Forall_app. split.
      * rewrite Forall_forall in *. intros c Hc. specialize (Hall c Hc). lra.
      * constructor; [cbn; lra | constructor].
    + cbn [fst snd searched]. split; [|reflexivity].
      split; [apply in_or_app; now left|]. split; [exact Hd|].
      apply Forall_app. split; [exact Hall|].
      constructor; [cbn; lra | constructor].
  - cbn [andb]. destruct (Rltb_spec dist 50) as [H50|H50];
      cbn [fst snd searched]; (split; [|reflexivity]).
    + split; [apply in_or_app; right; now left|]. split; [exact H50|].
      apply Forall_app. split.
      * rewrite Forall_forall in *. intros c Hc. specialize (Hs c Hc). lra.
      * constructor; [cbn; lra | constructor].
    + apply Forall_app. split; [exact Hs|].
      constructor; [exact H50 | constructor].
Qed.

Lemma searched_fold (center : position) (vs : list (nat * VehicleTrack)) :
  forall seen closest best k,
    searched seen closest best ->
    let st := fold_left (consider_track clock center) vs (closest, best, k) in
    searched (seen ++ candidates clock center k vs)
             (fst (fst st)) (snd (fst st))
    /\ snd st = (k + length vs)%nat.
Proof.
  induction vs as [|e vs IH]; intros seen closest best k Hs.
  - cbn. rewrite app_nil_r. split; [exact Hs | lia].
  - cbn [fold_left].
    destruct (searched_step center seen closest best k e Hs) as [H1 Hk].
    destruct (consider_track clock center (closest, best, k) e)
      as [[closest1 best1] k1]. cbn [fst snd] in H1, Hk. subst k1.
    destruct (IH _ _ _ (S k) H1) as [H2 Hk2].
    split.
    + replace (seen ++ candidates clock center k (e :: vs))
        with ((seen ++ candidates clock center k [e])
              ++ candidates clock center (S k) vs); [exact H2|].
      rewrite <- app_assoc. f_equal. destruct e as [vid tr].
      cbn [candidates]. rewrite app_nil_r. reflexivity.
    + rewrite Hk2. cbn [length]. lia.
Qed.

(** What the search returns: the clock was read once for each track, and
    the answer is a nearest candidate within 50 pixels, or [None] when
    there is no candidate within 50 pixels. *)
Lemma find_closest_nearest (trk : Tracker.t) (center : position) (k : nat) :
  snd (find_closest clock trk center k) = (k + length (vehicles trk))%nat
  /\ match fst (find_closest clock trk center k) with
     | None =>
         Forall (fun c => ~ snd c < 50)
                (candidates clock center k (vehicles trk))
     | Some vid =>
         exists dist,
           In (vid, dist) (candidates clock center k (vehicles trk))
           /\ dist < 50
           /\ Forall (fun c => dist <= snd c)
                     (candidates clock center k (vehicles trk))
     end.
Proof.
  unfold find_closest.
  pose proof (searched_fold center (vehicles trk) [] None None k) as H.
  cbn [app] in H. destruct H as [Hs Hk]; [constructor|].
  destruct (fold_left _ _ _) as [[closest best] k']. cbn [fst snd] in *.
  split; [exact Hk|].
  destruct closest as [vid|], best as [d|]; cbn [searched] in Hs;
    try contradiction; [now exists d | exact Hs].
Qed.

(** X17. The search for the track of a detection reads the clock once
    for every track and finds the nearest candidate: it answers [None]
    exactly when no track that is active and has a position lies within
    50 pixels of the detection, and otherwise the id of such a track
    whose distance to the detection is below 50 and no larger than that
    of any other candidate. *)
Theorem find_closest_is_nearest (trk : Tracker.t) (center : position)
  (k : nat) :
  snd (find_closest clock trk center k) = (k + length (vehicles trk))%nat
  /\ match fst (find_closest clock trk center k) with
     | None =>
         Forall (fun c => ~ snd c < 50)
                (candidates clock center k (vehicles trk))
     | Some vid =>
         exists dist,
           In (vid, dist) (candidates clock center k (vehicles trk))
           /\ dist < 50
           /\ Forall (fun c => dist <= snd c)
                     (candidates clock center k (vehicles trk))
     end.
Proof.
  unfold find_closest.
  destruct (searched_fold center (vehicles trk) [] None None k)
    as [Hs Hk]; [constructor|].
  cbn [app] in Hs.
  destruct (fold_left _ _ _) as [[closest best] k']. cbn [fst snd] in *.
  split; [exact Hk|].
  destruct closest as [vid|], best as [d|]; cbn [searched] in Hs;
    try contradiction.
  - exists d. exact Hs.
  - exact Hs.
Qed.

Lemma candidates_origin (center : position) (vs : list (nat * VehicleTrack)) :
  forall k vid dist,
    In (vid, dist) (candidates clock center k vs) ->
    exists tr j, In (vid, tr) vs /\ (k <= j)%nat
                 /\ is_active (clock j) tr 1 = true.
Proof.
  induction vs as [|[v tr] vs IH]; intros k vid dist; cbn [candidates];
    [intros []|].
  intros Hin. apply in_app_or in Hin. destruct Hin as [Hin|Hin].
  - destruct (is_active (clock k) tr 1) eqn:Ha; [|destruct Hin].
    destruct (Detector.last_opt (positions tr)); [|destruct Hin].
    destruct Hin as [[= <- _]|[]].
    exists tr, k. split; [now left|]. split; [lia | exact Ha].
  - destruct (IH _ _ _ Hin) as (tr' & j & Hi & Hj & Ha).
    exists tr', j. split; [now right|]. split; [lia | exact Ha].
Qed.

End AssociationFacts.

Section DerivedFacts.

Import Tracker.
Local Open Scope R_scope.

Lemma fold_Rmax_bounds (vs : list R) :
  forall v,
    v <= fold_left Rmax vs v
    /\ Forall (fun x => x <= fold_left Rmax vs v) vs
    /\ In (fold_left Rmax vs v) (v :: vs).
Proof.
  induction vs as [|x vs IH]; intros v; cbn [fold_left].
  - split; [lra|]. split; [constructor | now left].
  - destruct (IH (Rmax v x)) as (H1 & H2 & H3).
    pose proof (Rmax_l v x). pose proof (Rmax_r v x).
    split; [lra|]. split.
    + constructor; [lra | exact H2].
    + destruct H3 as [H3|H3]; [|right; now right].
      rewrite <- H3. unfold Rmax. destruct (Rle_dec v x);
        [right; now left | now left].
Qed.

Lemma last_opt_last {A : Type} (l : list A) (x : A) :
  Detector.last_opt l = Some x -> exists l', l = l' ++ [x].
Proof.
  induction l as [|y l IH]; [discriminate|].
  destruct l as [|z l].
  - intros [= ->]. now exists [].
  - intros H. destruct (IH H) as (l' & ->). now exists (y :: l').
Qed.

(** X18. For a track with at least one recorded speed the three speeds
    it reports exist: the current speed is the last one recorded, and the
    maximum speed is a recorded speed that no recorded speed exceeds. *)
Theorem track_speeds_summarise (tr : VehicleTrack) :
  speeds tr <> [] ->
  exists current average maximum,
    current_speed tr = Some current
    /\ average_speed tr = Some average
    /\ max_speed tr = Some maximum
    /\ (exists earlier, speeds tr = earlier ++ [current])
    /\ In maximum (speeds tr)
    /\ Forall (fun v => v <= maximum) (speeds tr).
Proof.
  intros Hne. unfold current_speed, average_speed, max_speed.
  destruct (speeds tr) as [|v vs] eqn:Hs; [contradiction|].
  destruct (fold_Rmax_bounds vs v) as (H1 & H2 & H3).
  destruct (Detector.last_opt (v :: vs)) as [cur|] eqn:Hcur.
  2:{ exfalso. clear -Hcur. revert v Hcur.
      induction vs as [|y vs IH]; intros v; [discriminate|].
      cbn [Detector.last_opt]. apply IH. }
  exists cur, (mean (v :: vs)), (fold_left Rmax vs v).
  split; [reflexivity|]. split; [reflexivity|]. split; [reflexivity|].
  split; [now apply last_opt_last|]. split; [exact H3|].
  constructor; [exact H1 | exact H2].
Qed.

End DerivedFacts.

Section LifecycleFacts.

Import Tracker.
Local Open Scope R_scope.

Variable clock : nat -> R.
Variable colors : nat -> Z * Z * Z.

Lemma candidates_out_of_reach (center : position)
  (vs : list (nat * VehicleTrack)) :
  Forall (out_of_reach center) vs ->
  forall k, Forall (fun c => ~ snd c < 50) (candidates clock center k vs).
Proof.
  induction vs as [|[vid tr] vs IH]; intros H k; cbn [candidates];
    [constructor|].
  apply Forall_cons_iff in H. destruct H as [Hfar H].
  apply Forall_app. split; [|now apply IH].
  destruct (is_active (clock k) tr 1); [|constructor].
  destruct (Detector.last_opt (positions tr)) as [p|] eqn:Hp; [|constructor].
  constructor; [|constructor]. cbn [snd]. now apply Hfar.
Qed.

Lemma find_closest_none (trk : Tracker.t) (center : position) (k : nat) :
  Forall (out_of_reach center) (vehicles trk) ->
  find_closest clock trk center k = (None, (k + length (vehicles trk))%nat).
Proof.
  intros Hfar.
  destruct (find_closest_nearest clock trk center k) as [Hk Hr].
  destruct (find_closest clock trk center k) as [[vid|] k'];
    cbn [fst snd] in *; [|now subst].
  exfalso. destruct Hr as (dist & Hin & Hd & _).
  pose proof (candidates_out_of_reach center (vehicles trk) Hfar k) as Hc.
  rewrite Forall_forall in Hc. now apply (Hc _ Hin).
Qed.

Lemma dict_set_fresh {V : Type} (d : list (nat * V)) (k : nat) (v : V) :
  ~ In k (dict_keys d) -> dict_set Nat.eqb d k v = d ++ [(k, v)].
Proof.
  unfold dict_keys. induction d as [|[k0 v0] d IH]; cbn; [reflexivity|].
  intros Hn. destruct (Nat.eqb_spec k k0) as [->|Hne]; [tauto|].
  rewrite IH by tauto. reflexivity.
Qed.

Lemma assign_all_spawns (now : R) (detections : list bbox) :
  forall (trk : Tracker.t) (matched : list nat) (k : nat),
    Forall (fun e => (fst e < next_vehicle_id trk)%nat) (vehicles trk) ->
    Forall (fun b => Forall (out_of_reach (center_of b)) (vehicles trk))
           detections ->
    ForallOrdPairs
      (fun b b' => ~ norm_diff (center_of b') (center_of b) < 50) detections ->
    exists matched' k',
      assign_all clock colors now (trk, matched, k) detections
      = (({| next_vehicle_id :=
               (next_vehicle_id trk + length detections)%nat;
             vehicles :=
               vehicles trk
               ++ new_tracks colors now (next_vehicle_id trk) detections;
             max_disappeared := max_disappeared trk;
             speed_unit := speed_unit trk |}, matched', k'), Ok tt)
      /\ incl matched matched'
      /\ (forall vid, In vid (dict_keys (new_tracks colors now
                                           (next_vehicle_id trk) detections))
                      -> In vid matched').
Proof.
  induction detections as [|b rest IH]; intros trk matched k Hids Hfar Hpair.
  - exists matched, k. cbn [assign_all new_tracks length].
    rewrite Nat.add_0_r, app_nil_r. split; [now destruct trk|].
    split; [apply incl_refl | intros vid []].
  - apply Forall_cons_iff in Hfar. destruct Hfar as [Hb Hrest].
    inversion Hpair as [|? ? Hb_rest Hpair']; subst.
    cbn [assign_all]. unfold assign at 1.
    rewrite (find_closest_none trk (center_of b) k Hb).
    assert (Hfresh : ~ In (next_vehicle_id trk) (dict_keys (vehicles trk))).
    { intros Hin. unfold dict_keys in Hin. apply in_map_iff in Hin.
      destruct Hin as (e & He & Hin). rewrite Forall_forall in Hids.
      specialize (Hids e Hin). lia. }
    rewrite (dict_set_fresh _ _ _ Hfresh).
    set (n := next_vehicle_id trk).
    set (trk1 := {| next_vehicle_id := S n;
                    vehicles := vehicles trk
                                ++ [(n, {| id := n;
                                           positions := [center_of b];
                                           timestamps := [now];
                                           speeds := [];
                                           last_update := now;
                                           color := colors n |})];
                    max_disappeared := max_disappeared trk;
                    speed_unit := speed_unit trk |}).
    destruct (IH trk1 (n :: matched) (k + length (vehicles trk))%nat)
      as (matched' & k' & Hrun & Hincl & Hin).
    + subst trk1. cbn [vehicles next_vehicle_id]. apply Forall_app. split.
      * rewrite Forall_forall in *. intros e He. specialize (Hids e He).
        fold n in Hids. lia.
      * constructor; [cbn; lia | constructor].
    + subst trk1. cbn [vehicles]. rewrite Forall_forall in *.
      intros b' Hb'. apply Forall_app. split; [now apply Hrest|].
      constructor; [|constructor]. intros p. cbn [snd positions].
      intros [= <-]. now apply Hb_rest.
    + exact Hpair'.
    + exists matched', k'. rewrite Hrun.
      subst trk1. cbn [vehicles next_vehicle_id max_disappeared speed_unit
                         new_tracks length].
      replace (S n + length rest)%nat with (n + S (length rest))%nat by lia.
      rewrite <- app_assoc. cbn [app]. split; [reflexivity|]. split.
      * intros x Hx. apply Hincl. now right.
      * intros vid [<-|Hv]; [apply Hincl; now left | now apply Hin].
Qed.

Lemma retain_app (matched : list nat) (a b : list (nat * VehicleTrack)) :
  forall k,
    fst (retain clock matched (a ++ b) k)
    = fst (retain clock matched a k)
      ++ fst (retain clock matched b (k + length a)).
Proof.
  induction a as [|[vid tr] a IH]; intros k.
  - cbn. now rewrite Nat.add_0_r.
  - cbn [app retain length]. specialize (IH (S k)).
    destruct (retain clock matched (a ++ b) (S k)) as [r1 k1].
    destruct (retain clock matched a (S k)) as [r2 k2].
    cbn [fst] in *. replace (k + S (length a))%nat with (S k + length a)%nat
      by lia.
    destruct (_ || _); cbn [fst app]; now rewrite IH.
Qed.

Lemma retain_matched (matched : list nat) (vs : list (nat * VehicleTrack)) :
  (forall vid, In vid (dict_keys vs) -> In vid matched) ->
  forall k, fst (retain clock matched vs k) = vs.
Proof.
  induction vs as [|[vid tr] vs IH]; intros Hm k; [reflexivity|].
  cbn [retain].
  assert (Hin : existsb (Nat.eqb vid) matched = true).
  { apply existsb_exists. exists vid. split; [|apply Nat.eqb_refl].
    apply Hm. now left. }
  rewrite Hin, orb_true_r.
  specialize (IH (fun v Hv => Hm v (or_intror Hv)) (S k)).
  destruct (retain clock matched vs (S k)) as [rest k']. cbn [fst] in *.
  now rewrite IH.
Qed.

(** X16. Detections that are 50 pixels or more from the last position of
    every track and from each other each start a track of their own: the
    pass gives them the ids [next_vehicle_id], [next_vehicle_id + 1], ...
    in the order of the detections, each new track holds the center of its
    detection and no speed, all of them are in the tracker after the pass,
    behind the older tracks the pass has kept, and [next_vehicle_id] has
    grown by the number of detections. *)
Theorem far_detections_spawn_tracks (trk : Tracker.t) (k : nat)
  (detections : list bbox) :
  sound trk ->
  Forall (fun b => Forall (out_of_reach (center_of b)) (vehicles trk))
         detections ->
  ForallOrdPairs
    (fun b b' => ~ norm_diff (center_of b') (center_of b) < 50) detections ->
  let trk' := fst (fst (update clock colors trk k detections)) in
  snd (update clock colors trk k detections) = Ok tt
  /\ next_vehicle_id trk' = (next_vehicle_id trk + length detections)%nat
  /\ exists kept,
       incl kept (vehicles trk)
       /\ vehicles trk'
          = kept ++ new_tracks colors (clock k) (next_vehicle_id trk)
                      detections.
Proof.
  intros (Hnd & Hall) Hfar Hpair trk'. subst trk'. unfold update.
  destruct (assign_all_spawns (clock k) detections trk [] (S k))
    as (matched & k1 & Hrun & _ & Hin); try assumption.
  { rewrite Forall_forall in *. intros e He. now destruct (Hall e He). }
  rewrite Hrun. cbn [vehicles].
  pose proof (retain_app matched (vehicles trk)
                (new_tracks colors (clock k) (next_vehicle_id trk) detections)
                k1) as Happ.
  rewrite (retain_matched matched _ Hin) in Happ.
  pose proof (retain_incl clock matched (vehicles trk) k1) as Hincl.
  destruct (retain clock matched (vehicles trk ++ _) k1) as [kept k2].
  cbn [fst snd with_vehicles next_vehicle_id vehicles] in *.
  split; [reflexivity|]. split; [reflexivity|].
  exists (fst (retain clock matched (vehicles trk) k1)).
  split; [exact Hincl | exact Happ].
Qed.

End LifecycleFacts.

Section TimeoutFacts.

Import Tracker.
Local Open Scope R_scope.

Variable clock : nat -> R.
Variable colors : nat -> Z * Z * Z.

Lemma NoDup_keys_unique (vs : list (nat * VehicleTrack)) (vid : nat)
  (tr tr' : VehicleTrack) :
  NoDup (dict_keys vs) -> In (vid, tr) vs -> In (vid, tr') vs -> tr = tr'.
Proof.
  unfold dict_keys. induction vs as [|[v t] vs IH]; cbn; [tauto|].
  intros Hnd H1 H2. inversion Hnd as [|? ? Hnotin Hnd']; subst.
  destruct H1 as [H1|H1], H2 as [H2|H2].
  - congruence.
  - exfalso. apply Hnotin. injection H1 as -> ->.
    change vid with (fst (vid, tr')). now apply in_map.
  - exfalso. apply Hnotin. injection H2 as -> ->.
    change vid with (fst (vid, tr)). now apply in_map.
  - now apply IH.
Qed.

Lemma dict_set_keeps {V : Type} (d : list (nat * V)) (k k' : nat) (v x : V) :
  k' <> k -> In (k', x) d -> In (k', x) (dict_set Nat.eqb d k v).
Proof.
  intros Hne. induction d as [|[k0 v0] d IH]; cbn; [tauto|].
  destruct (Nat.eqb_spec k k0) as [->|Hk]; cbn.
  - intros [[= <- <-]|H]; [contradiction | now right].
  - intros [H|H]; [now left | right; now apply IH].
Qed.

(** The track [tr] under [vid] is too old to be active at any clock
    reading from the [k]-th on. *)
Lemma stale_not_found (trk : Tracker.t) (center : position) (k k0 vid : nat)
  (tr : VehicleTrack) :
  NoDup (dict_keys (vehicles trk)) ->
  In (vid, tr) (vehicles trk) ->
  (forall j, (k0 <= j)%nat -> ~ clock j - last_update tr < 1) ->
  (k0 <= k)%nat ->
  fst (find_closest clock trk center k) <> Some vid.
Proof.
  intros Hnd Hin Hstale Hk Heq.
  destruct (find_closest_nearest clock trk center k) as [_ Hr].
  rewrite Heq in Hr. destruct Hr as (dist & Hc & _).
  destruct (candidates_origin clock center _ _ _ _ Hc)
    as (tr' & j & Hin' & Hj & Ha).
  rewrite <- (NoDup_keys_unique _ _ _ _ Hnd Hin Hin') in Ha.
  unfold is_active, Rltb in Ha.
  destruct (Rlt_dec (clock j - last_update tr) 1) as [Hlt|]; [|discriminate].
  apply (Hstale j); [lia | exact Hlt].
Qed.

Lemma assign_keeps_stale (now : R) (trk : Tracker.t) (matched : list nat)
  (k k0 vid : nat) (tr : VehicleTrack) (b : bbox) :
  sound trk ->
  In (vid, tr) (vehicles trk) ->
  ~ In vid matched ->
  (forall j, (k0 <= j)%nat -> ~ clock j - last_update tr < 1) ->
  (k0 <= k)%nat ->
  let st := fst (assign clock colors now (trk, matched, k) b) in
  In (vid, tr) (vehicles (fst (fst st)))
  /\ ~ In vid (snd (fst st))
  /\ (k0 <= snd st)%nat.
Proof.
  intros Hs Hin Hm Hstale Hk. destruct Hs as (Hnd & Hall).
  pose proof (stale_not_found trk (center_of b) k k0 vid tr Hnd Hin Hstale Hk)
    as Hnot.
  destruct (find_closest_nearest clock trk (center_of b) k) as [Hk' _].
  unfold assign.
  destruct (find_closest clock trk (center_of b) k) as [[v|] k'];
    cbn [fst snd] in *.
  - assert (Hv : v <> vid) by congruence.
    destruct (dict_get Nat.eqb (vehicles trk) v) as [track|];
      [|cbn [fst snd]; repeat split; try assumption; lia].
    destruct (record_position track (center_of b) now) as [track' [u|e]];
      cbn [fst snd vehicles with_vehicles];
      (split; [apply dict_set_keeps; [congruence | exact Hin]|]);
      (split; [|lia]).
    + intros [H|H]; [congruence | contradiction].
    + exact Hm.
  - cbn [fst snd vehicles]. rewrite Forall_forall in Hall.
    destruct (Hall _ Hin) as (Hlt & _). cbn [fst] in Hlt.
    split; [apply dict_set_keeps; [lia | exact Hin]|]. split; [|lia].
    intros [H|H]; [lia | contradiction].
Qed.

Lemma assign_all_keeps_stale (now : R) (detections : list bbox) :
  forall (trk : Tracker.t) (matched : list nat) (k k0 vid : nat)
         (tr : VehicleTrack),
    sound trk ->
    In (vid, tr) (vehicles trk) ->
    ~ In vid matched ->
    (forall j, (k0 <= j)%nat -> ~ clock j - last_update tr < 1) ->
    (k0 <= k)%nat ->
    let st := fst (assign_all clock colors now (trk, matched, k) detections) in
    In (vid, tr) (vehicles (fst (fst st)))
    /\ ~ In vid (snd (fst st))
    /\ (k0 <= snd st)%nat.
Proof.
  induction detections as [|b rest IH];
    intros trk matched k k0 vid tr Hs Hin Hm Hstale Hk.
  - cbn. now repeat split.
  - cbn [assign_all].
    destruct (assign_keeps_stale now trk matched k k0 vid tr b Hs Hin Hm
                Hstale Hk) as (Hin1 & Hm1 & Hk1).
    destruct (assign_sound clock colors now trk matched k b Hs)
      as (Hok & Hs1 & _).
    destruct (assign clock colors now (trk, matched, k) b)
      as [[[trk1 matched1] k1] r]. cbn [fst snd] in *. subst r.
    now apply IH.
Qed.

Lemma retain_drops_stale (matched : list nat)
  (vs : list (nat * VehicleTrack)) (vid : nat) (tr : VehicleTrack) :
  forall k k0,
    NoDup (dict_keys vs) ->
    In (vid, tr) vs ->
    ~ In vid matched ->
    (forall j, (k0 <= j)%nat -> ~ clock j - last_update tr < 1) ->
    (k0 <= k)%nat ->
    ~ In vid (dict_keys (fst (retain clock matched vs k))).
Proof.
  unfold dict_keys.
  induction vs as [|[v t] vs IH]; intros k k0 Hnd Hin Hm Hstale Hk;
    [destruct Hin|].
  cbn [map fst] in Hnd. inversion Hnd as [|? ? Hnotin Hnd']; subst.
  cbn [retain].
  pose proof (retain_incl clock matched vs (S k)) as Hincl.
  specialize (IH (S k) k0 Hnd').
  destruct (retain clock matched vs (S k)) as [rest k'] eqn:Hret.
  cbn [fst] in *.
  assert (Hrest : In vid (map fst vs) -> ~ In vid (map fst rest)).
  { intros Hv. destruct Hin as [[= -> ->]|Hin]; [contradiction|].
    apply IH; try assumption. lia. }
  destruct Hin as [[= -> ->]|Hin].
  - assert (Hgone : ~ In vid (map fst rest)).
    { intros H. apply Hnotin. apply in_map_iff in H.
      destruct H as (e & He & H). apply in_map_iff. exists e.
      split; [exact He | now apply Hincl]. }
    replace (is_active (clock k) tr 1) with false.
    2:{ symmetry. unfold is_active, Rltb.
        destruct (Rlt_dec (clock k - last_update tr) 1) as [Hlt|];
          [|reflexivity].
        exfalso. now apply (Hstale k). }
    replace (existsb (Nat.eqb vid) matched) with false.
    2:{ symmetry. apply not_true_is_false. intros H.
        apply existsb_exists in H. destruct H as (x & Hx & Heq).
        apply Nat.eqb_eq in Heq. now subst. }
    exact Hgone.
  - assert (Hne : v <> vid).
    { intros ->. apply Hnotin. change vid with (fst (vid, tr)).
      now apply in_map. }
    assert (Hgone : ~ In vid (map fst rest)).
    { apply Hrest. change vid with (fst (vid, tr)). now apply in_map. }
    destruct (_ || _); [|exact Hgone].
    cbn [map fst]. intros [H|H]; [contradiction | now apply Hgone].
Qed.

(** X19. A track times out: if at every clock reading of a pass the
    last update of a track lies a second or more back, the track is given
    none of the detections of the pass, however near they are, and is not
    in the tracker after the pass. *)
Theorem stale_track_is_dropped (max_disappeared : Z)
  (passes : list (list bbox)) (detections : list bbox) (vid : nat)
  (tr : VehicleTrack) :
  let st := run_passes clock colors (init max_disappeared, 0%nat) passes in
  In (vid, tr) (vehicles (fst st)) ->
  (forall j, (snd st <= j)%nat -> ~ clock j - last_update tr < 1) ->
  ~ In vid
      (dict_keys
         (vehicles (fst (fst (update clock colors (fst st) (snd st)
                                detections))))).
Proof.
  intros st Hin Hstale.
  assert (Hs : sound (fst st)).
  { destruct (run_passes_sound clock colors passes
                (init max_disappeared, 0%nat)) as [H _]; [|exact H].
    split; constructor. }
  unfold update.
  destruct (assign_all_keeps_stale (clock (snd st)) detections (fst st) []
              (S (snd st)) (snd st) vid tr Hs Hin (fun H => H) Hstale)
    as (Hin1 & Hm1 & Hk1); [lia|].
  destruct (assign_all_sound clock colors (clock (snd st)) detections
              (fst st) [] (S (snd st)) Hs) as (Hok & (Hnd1 & _) & _).
  destruct (assign_all clock colors (clock (snd st))
              (fst st, [], S (snd st)) detections)
    as [[[trk1 matched] k1] r]. cbn [fst snd] in *. subst r.
  pose proof (retain_drops_stale matched (vehicles trk1) vid tr k1 (snd st)
                Hnd1 Hin1 Hm1 Hstale Hk1) as Hdrop.
  destruct (retain clock matched (vehicles trk1) k1) as [kept k2].
  exact Hdrop.
Qed.

End TimeoutFacts.

(** ** The tracker: where a pass records its detections *)

Section PassFacts.

Import Tracker.
Local Open Scope R_scope.

Variable clock : nat -> R.
Variable colors : nat -> Z * Z * Z.

Lemma sound_fresh (trk : Tracker.t) :
  sound trk -> ~ In (next_vehicle_id trk) (dict_keys (vehicles trk)).
Proof.
  intros [_ Hall] Hin. unfold dict_keys in Hin. apply in_map_iff in Hin.
  destruct Hin as (e & He & Hin). rewrite Forall_forall in Hall.
  destruct (Hall e Hin) as (Hlt & _). lia.
Qed.

Lemma dict_get_absent {V : Type} (d : list (nat * V)) (k : nat) :
  ~ In k (dict_keys d) -> dict_get Nat.eqb d k = None.
Proof.
  intros Hn. destruct (dict_get Nat.eqb d k) as [v|] eqn:Hg; [|reflexivity].
  exfalso. apply Hn. apply (dict_get_In _ _ _ Nat.eqb_spec) in Hg.
  unfold dict_keys. change k with (fst (k, v)). now apply in_map.
Qed.

Lemma dict_get_present (vs : list (nat * VehicleTrack)) (vid : nat)
  (tr : VehicleTrack) :
  NoDup (dict_keys vs) -> In (vid, tr) vs ->
  dict_get Nat.eqb vs vid = Some tr.
Proof.
  intros Hnd Hin.
  destruct (dict_get_key clock colors vs vid) as (tr' & Hg).
  - unfold dict_keys. change vid with (fst (vid, tr)). now apply in_map.
  - rewrite Hg. f_equal.
    apply (NoDup_keys_unique clock colors vs vid tr' tr Hnd); [|exact Hin].
    now apply (dict_get_In _ _ _ Nat.eqb_spec).
Qed.

Lemma dict_keys_set_incl {V : Type} (d : list (nat * V)) (k : nat) (v : V) :
  incl (dict_keys d) (dict_keys (dict_set Nat.eqb d k v))
  /\ In k (dict_keys (dict_set Nat.eqb d k v)).
Proof.
  unfold dict_keys. induction d as [|[k0 v0] d [IH1 IH2]]; cbn.
  - split; [intros x [] | now left].
  - destruct (Nat.eqb_spec k k0) as [->|Hne]; cbn.
    + split; [apply incl_refl | now left].
    + split; [|now right].
      intros x [<-|Hx]; [now left | right; now apply IH1].
Qed.

(** One detection: where it is recorded and what that changes. *)
Lemma assign_records (now : R) (trk : Tracker.t) (matched : list nat)
  (k : nat) (b : bbox) :
  sound trk ->
  let turn := (trk, matched, k, b) in
  let st := fst (assign clock colors now (trk, matched, k) b) in
  snd (assign clock colors now (trk, matched, k) b) = Ok tt
  /\ sound (fst (fst st))
  /\ snd (fst st) = target clock turn :: matched
  /\ nearest_or_new clock turn
  /\ In (target clock turn) (dict_keys (vehicles (fst (fst st))))
  /\ incl (dict_keys (vehicles trk)) (dict_keys (vehicles (fst (fst st))))
  /\ (forall vid,
         positions_of (vehicles (fst (fst st))) vid
         = positions_of (vehicles trk) vid
           ++ (if Nat.eqb (target clock turn) vid then [center_of b] else []))
  /\ (forall vid,
         timestamps_of (vehicles (fst (fst st))) vid
         = timestamps_of (vehicles trk) vid
           ++ (if Nat.eqb (target clock turn) vid then [now] else [])).
Proof.
  intros Hs turn st.
  destruct (assign_sound clock colors now trk matched k b Hs)
    as (Hok & Hs1 & _).
  fold st in Hs1. split; [exact Hok|]. split; [exact Hs1|].
  pose proof (find_closest_nearest clock trk (center_of b) k) as [_ Hnear].
  pose proof (find_closest_key clock trk (center_of b) k) as Hkey.
  pose proof (sound_fresh trk Hs) as Hfresh.
  subst st turn. unfold assign, nearest_or_new. unfold target.
  destruct (find_closest clock trk (center_of b) k) as [[vid|] k'];
    cbn [fst snd] in *.
  - destruct (dict_get_key clock colors _ _ (Hkey vid eq_refl)) as (track & Hget).
    rewrite Hget.
    destruct (record_position_appends track (center_of b) now) as [Hp Ht].
    destruct Hs as [Hnd Hall]. rewrite Forall_forall in Hall.
    destruct (record_position_sound (next_vehicle_id trk) vid track
                (center_of b) now) as [Hrok _].
    { apply Hall. now apply (dict_get_In _ _ _ Nat.eqb_spec). }
    destruct (record_position track (center_of b) now) as [track' r].
    cbn [fst snd] in *. subst r. cbn [fst snd vehicles with_vehicles].
    split; [reflexivity|]. split; [left; exact Hnear|].
    split; [apply dict_keys_set_incl|]. split; [apply dict_keys_set_incl|].
    split; intros w; unfold positions_of, timestamps_of;
      destruct (Nat.eqb_spec vid w) as [<-|Hne].
    + rewrite (dict_get_set_same _ _ _ Nat.eqb_spec), Hget. exact Hp.
    + rewrite (dict_get_set_other _ _ _ Nat.eqb_spec) by congruence.
      now rewrite app_nil_r.
    + rewrite (dict_get_set_same _ _ _ Nat.eqb_spec), Hget. exact Ht.
    + rewrite (dict_get_set_other _ _ _ Nat.eqb_spec) by congruence.
      now rewrite app_nil_r.
  - cbn [fst snd vehicles].
    split; [reflexivity|]. split; [right; now split|].
    split; [apply dict_keys_set_incl|]. split; [apply dict_keys_set_incl|].
    split; intros w; unfold positions_of, timestamps_of;
      destruct (Nat.eqb_spec (next_vehicle_id trk) w) as [<-|Hne].
    + rewrite (dict_get_set_same _ _ _ Nat.eqb_spec).
      now rewrite (dict_get_absent _ _ Hfresh).
    + rewrite (dict_get_set_other _ _ _ Nat.eqb_spec) by congruence.
      now rewrite app_nil_r.
    + rewrite (dict_get_set_same _ _ _ Nat.eqb_spec).
      now rewrite (dict_get_absent _ _ Hfresh).
    + rewrite (dict_get_set_other _ _ _ Nat.eqb_spec) by congruence.
      now rewrite app_nil_r.
Qed.

(** The whole loop. *)
Lemma assign_all_records (now : R) (detections : list bbox) :
  forall (trk : Tracker.t) (matched : list nat) (k : nat),
    sound trk ->
    let pass := turns clock colors now (trk, matched, k) detections in
    let ids := map (target clock) pass in
    let st := fst (assign_all clock colors now (trk, matched, k) detections) in
    snd (assign_all clock colors now (trk, matched, k) detections) = Ok tt
    /\ sound (fst (fst st))
    /\ map snd pass = detections
    /\ Forall (nearest_or_new clock) pass
    /\ Forall (fun vid => In vid (snd (fst st))) ids
    /\ Forall (fun vid => In vid (dict_keys (vehicles (fst (fst st))))) ids
    /\ incl (dict_keys (vehicles trk)) (dict_keys (vehicles (fst (fst st))))
    /\ incl matched (snd (fst st))
    /\ (forall vid,
           positions_of (vehicles (fst (fst st))) vid
           = positions_of (vehicles trk) vid
             ++ recorded_on vid ids detections)
    /\ (forall vid,
           timestamps_of (vehicles (fst (fst st))) vid
           = timestamps_of (vehicles trk) vid
             ++ repeat now (length (recorded_on vid ids detections))).
Proof.
  induction detections as [|b rest IH]; intros trk matched k Hs.
  - cbn [turns map assign_all fst snd recorded_on length repeat].
    split; [reflexivity|]. split; [exact Hs|]. split; [reflexivity|].
    split; [constructor|]. split; [constructor|]. split; [constructor|].
    split; [apply incl_refl|]. split; [apply incl_refl|].
    split; intros vid; now rewrite app_nil_r.
  - cbn [turns map assign_all].
    destruct (assign_records now trk matched k b Hs)
      as (Hok & Hs1 & Hm & Hnear & Hin & Hincl & Hp & Ht).
    destruct (assign clock colors now (trk, matched, k) b)
      as [[[trk1 matched1] k1] r]. cbn [fst snd] in *. subst r.
    destruct (IH trk1 matched1 k1 Hs1)
      as (Hok' & Hs' & Hdet & Hnear' & Hmat' & Hkeys' & Hincl' & Hminc'
          & Hp' & Ht').
    split; [exact Hok'|]. split; [exact Hs'|].
    split; [cbn [snd]; now rewrite Hdet|].
    split; [constructor; assumption|].
    split; [constructor; [apply Hminc'; rewrite Hm; now left | exact Hmat']|].
    split; [constructor; [now apply Hincl' | exact Hkeys']|].
    split; [intros x Hx; now apply Hincl', Hincl|].
    split; [intros x Hx; apply Hminc'; rewrite Hm; now right|].
    split; intros vid; cbn [recorded_on].
    + rewrite Hp', Hp, <- app_assoc.
      destruct (Nat.eqb _ vid); reflexivity.
    + rewrite Ht', Ht, <- app_assoc.
      destruct (Nat.eqb _ vid); reflexivity.
Qed.

Lemma retain_keeps_matched (matched : list nat)
  (vs : list (nat * VehicleTrack)) (vid : nat) :
  In vid matched -> In vid (dict_keys vs) ->
  forall k, In vid (dict_keys (fst (retain clock matched vs k))).
Proof.
  intros Hm. unfold dict_keys.
  induction vs as [|[v tr] vs IH]; intros Hin k; [destruct Hin|].
  cbn [retain].
  destruct (retain clock matched vs (S k)) as [rest k'] eqn:Hr.
  destruct Hin as [Hv|Hin].
  - cbn [fst] in Hv. subst v.
    assert (He : existsb (Nat.eqb vid) matched = true).
    { apply existsb_exists. exists vid. split; [exact Hm | apply Nat.eqb_refl]. }
    rewrite He, orb_true_r. cbn. now left.
  - specialize (IH Hin (S k)). rewrite Hr in IH. cbn [fst] in *.
    destruct (_ || _); [right; exact IH | exact IH].
Qed.

Lemma recorded_on_length (vid : nat) (ids : list nat) (detections : list bbox) :
  (length (recorded_on vid ids detections) <= length detections)%nat.
Proof.
  revert detections. induction ids as [|i ids IH]; intros [|b rest];
    cbn [recorded_on length]; try lia.
  specialize (IH rest). destruct (Nat.eqb i vid); cbn [length]; lia.
Qed.

Lemma recorded_on_elsewhere (keys : list nat) (i : nat) (ids : list nat)
  (b : bbox) (rest : list bbox) :
  ~ In i keys ->
  list_sum
    (map (fun vid => length (recorded_on vid (i :: ids) (b :: rest))) keys)
  = list_sum (map (fun vid => length (recorded_on vid ids rest)) keys).
Proof.
  intros Hn. f_equal. apply map_ext_in. intros key Hkey.
  cbn [recorded_on].
  destruct (Nat.eqb_spec i key) as [->|_]; [contradiction | reflexivity].
Qed.

Lemma recorded_on_once (keys : list nat) (i : nat) (ids : list nat)
  (b : bbox) (rest : list bbox) :
  NoDup keys ->
  In i keys ->
  list_sum
    (map (fun vid => length (recorded_on vid (i :: ids) (b :: rest))) keys)
  = S (list_sum (map (fun vid => length (recorded_on vid ids rest)) keys)).
Proof.
  induction keys as [|key keys IH]; intros Hnd Hi; [destruct Hi|].
  inversion Hnd as [|? ? Hnotin Hnd']; subst.
  change (length (recorded_on key (i :: ids) (b :: rest))
          + list_sum
              (map (fun vid =>
                      length (recorded_on vid (i :: ids) (b :: rest))) keys)
          = S (length (recorded_on key ids rest)
               + list_sum
                   (map (fun vid => length (recorded_on vid ids rest))
                      keys)))%nat.
  destruct Hi as [->|Hi].
  - rewrite recorded_on_elsewhere by exact Hnotin.
    cbn [recorded_on]. rewrite Nat.eqb_refl. cbn [length]. lia.
  - rewrite IH by assumption. cbn [recorded_on].
    destruct (Nat.eqb_spec i key) as [->|_]; [contradiction | lia].
Qed.

(** Over the tracks of a dictionary that has every track a detection
    was recorded on, the detections recorded add up to the detections. *)
Lemma recorded_on_total (keys ids : list nat) (detections : list bbox) :
  NoDup keys ->
  Forall (fun vid => In vid keys) ids ->
  length ids = length detections ->
  list_sum (map (fun vid => length (recorded_on vid ids detections)) keys)
  = length detections.
Proof.
  intros Hnd. revert detections.
  induction ids as [|i ids IH]; intros [|b rest] Hin Hlen;
    try discriminate.
  - cbn [recorded_on length]. clear.
    induction keys as [|key keys IH]; [reflexivity | exact IH].
  - apply Forall_cons_iff in Hin. destruct Hin as [Hi Hin].
    injection Hlen as Hlen.
    rewrite recorded_on_once by assumption.
    cbn [length]. f_equal. now apply IH.
Qed.

(** C7, amended. In a pass over the detections [detections], made on a
    tracker used since [__init__], every detection is recorded on exactly
    one track: the nearest of the active tracks within 50 pixels of it
    as the loop finds them, or, when there is none, a track made for it.
    The pass returns, the tracks detections were recorded on are all
    there after it, and every track after the pass has the positions and
    timestamps it had before the pass, or none if the pass made it,
    followed by the centers of the detections recorded on it, in their
    order, each with the time of the pass; over all tracks these add up
    to the detections, and on one track there are at most as many as
    there are detections.  One track can be given several detections of
    a pass: both of [two_blobs] are recorded on the only track of
    [one_car].  Two detections of a pass can be recorded on two
    different tracks: in [two_cars] each car gets exactly one. *)
Theorem detections_update_tracks (max_disappeared : Z)
  (passes : list (list bbox)) (detections : list bbox) :
  let st := run_passes clock colors (init max_disappeared, 0%nat) passes in
  let now := clock (snd st) in
  let pass := turns clock colors now (fst st, [], S (snd st)) detections in
  let ids := map (target clock) pass in
  let after :=
    vehicles (fst (fst (update clock colors (fst st) (snd st) detections))) in
  snd (update clock colors (fst st) (snd st) detections) = Ok tt
  /\ map snd pass = detections
  /\ Forall (nearest_or_new clock) pass
  /\ NoDup (dict_keys after)
  /\ Forall (fun vid => In vid (dict_keys after)) ids
  /\ Forall
       (fun e =>
          positions (snd e)
          = positions_of (vehicles (fst st)) (fst e)
            ++ recorded_on (fst e) ids detections
          /\ timestamps (snd e)
             = timestamps_of (vehicles (fst st)) (fst e)
               ++ repeat now (length (recorded_on (fst e) ids detections))
          /\ (length (recorded_on (fst e) ids detections)
              <= length detections)%nat)
       after
  /\ list_sum
       (map (fun e => length (recorded_on (fst e) ids detections)) after)
     = length detections
  /\ map (fun e => (fst e, positions (snd e)))
       (vehicles (fst (fst (update clock10ms green one_car 3 two_blobs))))
     = [(0%nat, [center_of (0, 0, 10, 10)%Z; center_of (10, 0, 10, 10)%Z;
                 center_of (20, 0, 10, 10)%Z])]
  /\ map (fun e => (fst e, positions (snd e)))
       (vehicles (fst (fst (update clock10ms green two_cars 6
                              two_far_blobs))))
     = [(0%nat, [center_of (0, 0, 10, 10)%Z; center_of (10, 0, 10, 10)%Z]);
        (1%nat, [center_of (200, 0, 10, 10)%Z;
                 center_of (210, 0, 10, 10)%Z])].
Proof.
  intros st now pass ids after.
  destruct (run_passes_sound clock colors passes (init max_disappeared, 0%nat))
    as [Hs _]; [split; constructor|].
  fold st in Hs.
  destruct (update_sound clock colors (fst st) (snd st) detections Hs)
    as (Hok & (Hnd & _) & _).
  fold after in Hnd.
  destruct (assign_all_records now detections (fst st) [] (S (snd st)) Hs)
    as (Hok1 & (Hnd1 & _) & Hdet & Hnear & Hmat & Hkeys & _ & _ & Hp & Ht).
  fold pass in Hdet, Hnear, Hmat, Hkeys, Hp, Ht.
  fold ids in Hmat, Hkeys, Hp, Ht.
  assert (Hafter :
            incl after
              (vehicles (fst (fst (fst (assign_all clock colors now
                                          (fst st, [], S (snd st))
                                          detections)))))
            /\ Forall (fun vid => In vid (dict_keys after)) ids).
  { subst after. unfold update. fold now.
    destruct (assign_all clock colors now (fst st, [], S (snd st)) detections)
      as [[[trk1 matched] k1] r]. cbn [fst snd] in *. subst r.
    pose proof (retain_incl clock matched (vehicles trk1) k1) as Hincl.
    pose proof (fun vid Hm Hk =>
                  retain_keeps_matched matched (vehicles trk1) vid Hm Hk k1)
      as Hkeep.
    destruct (retain clock matched (vehicles trk1) k1) as [kept k2].
    cbn [fst snd vehicles with_vehicles] in *.
    split; [exact Hincl|].
    rewrite Forall_forall in *. intros vid Hvid.
    apply Hkeep; [now apply Hmat | now apply Hkeys]. }
  destruct Hafter as [Hincl Hids].
  split; [exact Hok|]. split; [exact Hdet|]. split; [exact Hnear|].
  split; [exact Hnd|]. split; [exact Hids|]. split.
  - apply Forall_forall. intros [vid tr] He. cbn [fst snd].
    pose proof (dict_get_present _ vid tr Hnd1 (Hincl _ He)) as Hget.
    specialize (Hp vid). specialize (Ht vid).
    unfold positions_of at 1 in Hp. unfold timestamps_of at 1 in Ht.
    rewrite Hget in Hp, Ht.
    split; [exact Hp|]. split; [exact Ht | apply recorded_on_length].
  - split; [|split].
    + rewrite <- (recorded_on_total (dict_keys after) ids detections Hnd
                    Hids).
      * unfold dict_keys. rewrite map_map. reflexivity.
      * subst ids. rewrite length_map, <- Hdet, length_map. reflexivity.
    + destruct second_pass as [v Hv]. rewrite Hv. reflexivity.
    + destruct two_cars_followed as (v0 & v1 & Hv). rewrite Hv. reflexivity.
Qed.

End PassFacts.

Section ExtraWitnesses.

Local Open Scope R_scope.

Lemma closest_contour_is_nearest_witness :
  (length (considered (car_at 100)) <= 5)%nat
  /\ exists closest,
       Detector.closest_contour standing (car_at 100) = Ok closest.
Proof.
  destruct tracking_standing
    as (_ & _ & _ & _ & _ & Hsel & Hbox & _).
  destruct (closest_contour_is_nearest standing (car_at 100) (120, 360)%Z
              Hsel Hbox) as (Hlen & _ & _ & closest & Hcl & _).
  split; [exact Hlen|]. exists closest. exact Hcl.
Defined.

Lemma idle_until_clicked_witness :
  snd (Detector.process_frame (Detector.run (Detector.init 10) watching)
         (car_at 100))
  = Ok (Detector.NoLabel, None).
Proof.
  destruct (idle_until_clicked 10 watching (car_at 100)) as (_ & _ & H & _).
  - repeat constructor.
  - exact H.
Defined.

Lemma process_frame_exceptions_witness :
  exists annotation speed,
    snd (Detector.process_frame standing (car_at 100))
    = Ok (annotation, speed).
Proof.
  destruct tracking_standing as (_ & _ & Hsc & Hfp & _).
  destruct (process_frame_exceptions 10 approach (car_at 100)) as [_ H].
  apply (H scale_1280 30); [exact Hsc | exact Hfp | lra].
Defined.

Lemma far_detections_spawn_tracks_witness :
  Tracker.next_vehicle_id
    (fst (fst (Tracker.update clock10ms green (Tracker.init 30) 0
                 [(0, 0, 10, 10)%Z; (200, 0, 10, 10)%Z]))) = 2%nat.
Proof.
  destruct (far_detections_spawn_tracks clock10ms green (Tracker.init 30) 0
              [(0, 0, 10, 10)%Z; (200, 0, 10, 10)%Z]) as (_ & H & _).
  - split; constructor.
  - repeat constructor.
  - constructor; [|constructor; [constructor | constructor]].
    constructor; [|constructor]. apply centers_apart. cbn. lia.
  - exact H.
Defined.

Lemma track_speeds_summarise_witness :
  exists current average maximum,
    Tracker.current_speed measured_track = Some current
    /\ Tracker.average_speed measured_track = Some average
    /\ Tracker.max_speed measured_track = Some maximum
    /\ (exists earlier, Tracker.speeds measured_track = earlier ++ [current])
    /\ In maximum (Tracker.speeds measured_track)
    /\ Forall (fun v => v <= maximum) (Tracker.speeds measured_track).
Proof.
  apply (track_speeds_summarise measured_track). discriminate.
Defined.

Lemma first_detection (clock : nat -> R) (colors : nat -> Z * Z * Z)
  (m : Z) (b : Tracker.bbox) :
  fst (Tracker.update clock colors (Tracker.init m) 0 [b])
  = ({| Tracker.next_vehicle_id := 1;
        Tracker.vehicles := [(0%nat, new_track colors (clock 0%nat) 0 b)];
        Tracker.max_disappeared := m;
        Tracker.speed_unit := "km/h" |}, 3%nat).
Proof.
  unfold Tracker.update.
  cbn [Tracker.assign_all Tracker.assign Tracker.init].
  unfold Tracker.find_closest.
  cbn [Tracker.vehicles Tracker.init fold_left Tracker.next_vehicle_id
         dict_set Tracker.max_disappeared Tracker.speed_unit Tracker.retain
         Tracker.with_vehicles existsb Nat.eqb fst snd].
  rewrite orb_true_r. reflexivity.
Qed.

Lemma stale_track_is_dropped_witness :
  ~ In 0%nat
      (dict_keys
         (Tracker.vehicles
            (fst (fst (Tracker.update late_clock green
                         (fst (run_passes late_clock green
                                 (Tracker.init 30, 0%nat)
                                 [[(0, 0, 10, 10)%Z]]))
                         (snd (run_passes late_clock green
                                 (Tracker.init 30, 0%nat)
                                 [[(0, 0, 10, 10)%Z]]))
                         [(200, 0, 10, 10)%Z]))))).
Proof.
  apply (stale_track_is_dropped late_clock green 30 [[(0, 0, 10, 10)%Z]]
           [(200, 0, 10, 10)%Z] 0
           (new_track green (late_clock 0) 0 (0, 0, 10, 10)%Z)).
  - unfold run_passes. cbn [fold_left fst snd]. rewrite first_detection.
    cbn [fst Tracker.vehicles]. now left.
  - unfold run_passes. cbn [fold_left fst snd]. rewrite first_detection.
    cbn [snd new_track Tracker.last_update]. intros j Hj.
    change (late_clock 0) with 0. unfold late_clock.
    destruct (Nat.ltb_spec j 3); [lia|]. lra.
Defined.

End ExtraWitnesses.
